(** * The token scanner of the xbasic compiler (src/compiler/db_scan.c)

    A shallow embedding of the scanner: the input file stack, line refill,
    the comment-eliding character reader and the token recognizer, followed
    by the properties the specification states about them.

    Conventions of the embedding
    - a C [char]/[int] character is a [Z]; [EOF] is [-1]; the line buffer and
      the token buffer are the C strings they hold, as [list Z] without the
      terminating NUL; [linePtr] is the offset of the C pointer into
      [lineBuf];
    - [ParseError] never returns (it ends in [longjmp]): a call of it is the
      result [Error msg c], which every caller propagates;
    - every [while]/[for] loop of the source is a [Fixpoint] on a fuel that
      starts above the length of the line buffer; [OutOfFuel] is a result of
      its own, and section [Totality] shows that it never arises;
    - a store through [p] past the end of [c->token] has no defined
      behaviour in C: it is the result [Overrun], which every caller
      propagates and of which nothing is stated; the number functions, which
      store without a length test, are the ones that can reach it;
    - what db_compiler.h and the host supply (buffer capacity, integer
      widths, line sources, the file opener, the allocator) is the record
      [Host]. *)

From Stdlib Require Import ZArith List String Ascii Bool Lia.
Import ListNotations.
Local Open Scope Z_scope.

(** ** Characters and <ctype.h> in the C locale *)

Definition EOF : Z := -1.

Definition chr (a : ascii) : Z := Z.of_N (N_of_ascii a).
Definition chars (s : string) : list Z := map chr (list_ascii_of_string s).

Definition NL : Z := 10.          (* newline *)
Definition CR : Z := 13.          (* carriage return *)
Definition TAB : Z := 9.          (* tab *)
Definition DQUOTE : Z := 34.      (* double quote *)
Definition SQUOTE : Z := 39.      (* single quote *)
Definition STAR : Z := 42.        (* star *)
Definition SLASH : Z := 47.       (* slash *)
Definition BACKSLASH : Z := 92.   (* backslash *)
Definition UNDERSCORE : Z := 95.  (* underscore *)

Definition between (lo hi ch : Z) : bool := (lo <=? ch) && (ch <=? hi).

Definition isdigit (ch : Z) : bool := between 48 57 ch.
Definition isupper (ch : Z) : bool := between 65 90 ch.
Definition islower (ch : Z) : bool := between 97 122 ch.
Definition isxdigit (ch : Z) : bool :=
  isdigit ch || between 97 102 ch || between 65 70 ch.
Definition isspace (ch : Z) : bool := (ch =? 32) || between 9 13 ch.
Definition tolower (ch : Z) : Z := if isupper ch then ch + 32 else ch.

(** [strcasecmp]: difference of the first pair of characters that differ
    after case folding; the end of a string compares as NUL. *)
Fixpoint strcasecmp (a b : list Z) : Z :=
  match a, b with
  | [], [] => 0
  | [], y :: _ => 0 - tolower y
  | x :: _, [] => tolower x
  | x :: a', y :: b' =>
      if tolower x =? tolower y then strcasecmp a' b'
      else tolower x - tolower y
  end.

(** IdentifierCharP - is this an identifier character? *)
Definition IdentifierCharP (ch : Z) : bool :=
  isupper ch || islower ch || isdigit ch || (ch =? UNDERSCORE).

(** ** Tokens

    The [int] token codes of db_compiler.h: the enumeration constants by
    name, and [T_CHAR ch] for a token that is the character's own code. *)
Inductive Token : Type :=
| T_NONE
| T_REM | T_OPTION | T_INCLUDE | T_DEF | T_DIM | T_AS | T_IN | T_LET
| T_IF | T_THEN | T_ELSE | T_SELECT | T_CASE | T_END | T_FOR | T_TO
| T_STEP | T_NEXT | T_DO | T_WHILE | T_UNTIL | T_LOOP | T_GOTO | T_MOD
| T_AND | T_OR | T_XOR | T_NOT | T_STOP | T_RETURN | T_INPUT | T_PRINT
| T_ASM
| T_ELSE_IF | T_END_DEF | T_END_IF | T_END_SELECT | T_END_ASM
| T_DO_WHILE | T_DO_UNTIL | T_LOOP_WHILE | T_LOOP_UNTIL
| T_LE | T_NE | T_GE | T_SHL | T_SHR
| T_IDENTIFIER | T_NUMBER | T_STRING | T_EOL | T_EOF
| T_CHAR (ch : Z).

Definition is_T_NONE (t : Token) : bool :=
  match t with T_NONE => true | _ => false end.

(** keyword table *)
Definition ktab : list (list Z * Token) :=
  [ (chars "REM", T_REM); (chars "OPTION", T_OPTION);
    (chars "INCLUDE", T_INCLUDE); (chars "DEF", T_DEF);
    (chars "DIM", T_DIM); (chars "AS", T_AS); (chars "IN", T_IN);
    (chars "LET", T_LET); (chars "IF", T_IF); (chars "THEN", T_THEN);
    (chars "ELSE", T_ELSE); (chars "SELECT", T_SELECT);
    (chars "CASE", T_CASE); (chars "END", T_END); (chars "FOR", T_FOR);
    (chars "TO", T_TO); (chars "STEP", T_STEP); (chars "NEXT", T_NEXT);
    (chars "DO", T_DO); (chars "WHILE", T_WHILE); (chars "UNTIL", T_UNTIL);
    (chars "LOOP", T_LOOP); (chars "GOTO", T_GOTO); (chars "MOD", T_MOD);
    (chars "AND", T_AND); (chars "OR", T_OR); (chars "XOR", T_XOR);
    (chars "NOT", T_NOT); (chars "STOP", T_STOP);
    (chars "RETURN", T_RETURN); (chars "INPUT", T_INPUT);
    (chars "PRINT", T_PRINT); (chars "ASM", T_ASM) ].

(** ** What the scanner does to the host: the calls that allocate, release,
    open and close, most recent first. *)
Inductive FrameRef : Type :=
| RefMain                    (* &c->mainFile *)
| RefFile (name : string).   (* a malloc'ed ParseFile, by its file's name *)

Inductive Event : Type :=
| EvRewind                   (* the main source's rewind callback *)
| EvMalloc                   (* a malloc request *)
| EvFreeFrame (f : FrameRef) (* free of a ParseFile *)
| EvFreeInc (name : string)  (* free of an IncludedFile *)
| EvOpen (name : string)     (* xbOpenFileInPath *)
| EvClose (name : string).   (* fclose *)

(** ** The host

    What the scanner takes from db_compiler.h and from its environment,
    none of which is part of the scanner: the capacity of the token buffer,
    the widths of the integer types, the line source behind the main file
    (the [getLine] and [rewind] function pointers and their cookie), the
    file opener and line reader of the include files, and the outcome of
    each [malloc]. *)
Record Host : Type := {
  MAXTOKEN : Z;       (* capacity of c->token, db_compiler.h *)
  VMVALUE_BITS : Z;   (* width of the signed integer type VMVALUE *)
  LONG_BITS : Z;      (* width of long and unsigned long *)
  Cookie : Type;      (* state behind mainFile.u.main.getLineCookie *)
  FILE : Type;        (* state behind an open FILE *)
  main_getLine : Cookie -> option (list Z * Cookie);
  main_rewind : Cookie -> Cookie;
  xbOpenFileInPath : string -> option FILE;
  xbGetLine : FILE -> option (list Z * FILE);
  malloc_ok : list Event -> bool  (* does the next malloc succeed *)
}.

Section Scanner.

Variable H : Host.

(** ** The parse context *)

(** A frame of the input stack. The main frame is a member of the context;
    its line number and cookie are fields of [ParseContext]. *)
Inductive ParseFile : Type :=
| MainFile
| IncludeFile (fp : FILE H) (file : string) (lineNumber : Z).

Definition is_main (f : ParseFile) : bool :=
  match f with MainFile => true | IncludeFile _ _ _ => false end.

Record ParseContext : Type := {
  getLineCookie : Cookie H;          (* mainFile.u.main.getLineCookie *)
  mainLineNumber : Z;                (* mainFile.lineNumber *)
  currentFile : list ParseFile;      (* the chain currentFile, ->next, ... *)
  includedFiles : list string;       (* most recent first *)
  currentInclude : option string;
  lineBuf : list Z;
  linePtr : Z;
  tokenOffset : Z;
  savedToken : Token;
  token : list Z;
  value : Z;
  inComment : bool;
  trace : list Event
}.

Definition set_getLineCookie (v : Cookie H) (c : ParseContext) :=
  {| getLineCookie := v; mainLineNumber := mainLineNumber c;
     currentFile := currentFile c; includedFiles := includedFiles c;
     currentInclude := currentInclude c; lineBuf := lineBuf c;
     linePtr := linePtr c; tokenOffset := tokenOffset c;
     savedToken := savedToken c; token := token c; value := value c;
     inComment := inComment c; trace := trace c |}.

Definition set_mainLineNumber (v : Z) (c : ParseContext) :=
  {| getLineCookie := getLineCookie c; mainLineNumber := v;
     currentFile := currentFile c; includedFiles := includedFiles c;
     currentInclude := currentInclude c; lineBuf := lineBuf c;
     linePtr := linePtr c; tokenOffset := tokenOffset c;
     savedToken := savedToken c; token := token c; value := value c;
     inComment := inComment c; trace := trace c |}.

Definition set_currentFile (v : list ParseFile) (c : ParseContext) :=
  {| getLineCookie := getLineCookie c; mainLineNumber := mainLineNumber c;
     currentFile := v; includedFiles := includedFiles c;
     currentInclude := currentInclude c; lineBuf := lineBuf c;
     linePtr := linePtr c; tokenOffset := tokenOffset c;
     savedToken := savedToken c; token := token c; value := value c;
     inComment := inComment c; trace := trace c |}.

Definition set_includedFiles (v : list string) (c : ParseContext) :=
  {| getLineCookie := getLineCookie c; mainLineNumber := mainLineNumber c;
     currentFile := currentFile c; includedFiles := v;
     currentInclude := currentInclude c; lineBuf := lineBuf c;
     linePtr := linePtr c; tokenOffset := tokenOffset c;
     savedToken := savedToken c; token := token c; value := value c;
     inComment := inComment c; trace := trace c |}.

Definition set_currentInclude (v : option string) (c : ParseContext) :=
  {| getLineCookie := getLineCookie c; mainLineNumber := mainLineNumber c;
     currentFile := currentFile c; includedFiles := includedFiles c;
     currentInclude := v; lineBuf := lineBuf c;
     linePtr := linePtr c; tokenOffset := tokenOffset c;
     savedToken := savedToken c; token := token c; value := value c;
     inComment := inComment c; trace := trace c |}.

Definition set_lineBuf (v : list Z) (c : ParseContext) :=
  {| getLineCookie := getLineCookie c; mainLineNumber := mainLineNumber c;
     currentFile := currentFile c; includedFiles := includedFiles c;
     currentInclude := currentInclude c; lineBuf := v;
     linePtr := linePtr c; tokenOffset := tokenOffset c;
     savedToken := savedToken c; token := token c; value := value c;
     inComment := inComment c; trace := trace c |}.

Definition set_linePtr (v : Z) (c : ParseContext) :=
  {| getLineCookie := getLineCookie c; mainLineNumber := mainLineNumber c;
     currentFile := currentFile c; includedFiles := includedFiles c;
     currentInclude := currentInclude c; lineBuf := lineBuf c;
     linePtr := v; tokenOffset := tokenOffset c;
     savedToken := savedToken c; token := token c; value := value c;
     inComment := inComment c; trace := trace c |}.

Definition set_tokenOffset (v : Z) (c : ParseContext) :=
  {| getLineCookie := getLineCookie c; mainLineNumber := mainLineNumber c;
     currentFile := currentFile c; includedFiles := includedFiles c;
     currentInclude := currentInclude c; lineBuf := lineBuf c;
     linePtr := linePtr c; tokenOffset := v;
     savedToken := savedToken c; token := token c; value := value c;
     inComment := inComment c; trace := trace c |}.

Definition set_savedToken (v : Token) (c : ParseContext) :=
  {| getLineCookie := getLineCookie c; mainLineNumber := mainLineNumber c;
     currentFile := currentFile c; includedFiles := includedFiles c;
     currentInclude := currentInclude c; lineBuf := lineBuf c;
     linePtr := linePtr c; tokenOffset := tokenOffset c;
     savedToken := v; token := token c; value := value c;
     inComment := inComment c; trace := trace c |}.

Definition set_token (v : list Z) (c : ParseContext) :=
  {| getLineCookie := getLineCookie c; mainLineNumber := mainLineNumber c;
     currentFile := currentFile c; includedFiles := includedFiles c;
     currentInclude := currentInclude c; lineBuf := lineBuf c;
     linePtr := linePtr c; tokenOffset := tokenOffset c;
     savedToken := savedToken c; token := v; value := value c;
     inComment := inComment c; trace := trace c |}.

Definition set_value (v : Z) (c : ParseContext) :=
  {| getLineCookie := getLineCookie c; mainLineNumber := mainLineNumber c;
     currentFile := currentFile c; includedFiles := includedFiles c;
     currentInclude := currentInclude c; lineBuf := lineBuf c;
     linePtr := linePtr c; tokenOffset := tokenOffset c;
     savedToken := savedToken c; token := token c; value := v;
     inComment := inComment c; trace := trace c |}.

Definition set_inComment (v : bool) (c : ParseContext) :=
  {| getLineCookie := getLineCookie c; mainLineNumber := mainLineNumber c;
     currentFile := currentFile c; includedFiles := includedFiles c;
     currentInclude := currentInclude c; lineBuf := lineBuf c;
     linePtr := linePtr c; tokenOffset := tokenOffset c;
     savedToken := savedToken c; token := token c; value := value c;
     inComment := v; trace := trace c |}.

Definition log (e : Event) (c : ParseContext) :=
  {| getLineCookie := getLineCookie c; mainLineNumber := mainLineNumber c;
     currentFile := currentFile c; includedFiles := includedFiles c;
     currentInclude := currentInclude c; lineBuf := lineBuf c;
     linePtr := linePtr c; tokenOffset := tokenOffset c;
     savedToken := savedToken c; token := token c; value := value c;
     inComment := inComment c; trace := e :: trace c |}.

(** ** Results and the scanner monad *)

Inductive Result (A : Type) : Type :=
| OK (a : A) (c : ParseContext)          (* the function returned [a] *)
| Error (msg : string) (c : ParseContext) (* ParseError(c, msg) *)
| OutOfFuel
| Overrun.                                (* a store past c->token *)

Arguments OK {A} a c.
Arguments Error {A} msg c.
Arguments OutOfFuel {A}.
Arguments Overrun {A}.

Definition M (A : Type) : Type := ParseContext -> Result A.

Definition ret {A} (a : A) : M A := fun c => OK a c.

Definition bind {A B} (m : M A) (k : A -> M B) : M B :=
  fun c =>
    match m c with
    | OK a c' => k a c'
    | Error msg c' => Error msg c'
    | OutOfFuel => OutOfFuel
    | Overrun => Overrun
    end.

Definition ParseError {A} (msg : string) : M A := fun c => Error msg c.
Definition out_of_fuel {A} : M A := fun _ => OutOfFuel.
Definition overrun {A} : M A := fun _ => Overrun.
Definition modify (f : ParseContext -> ParseContext) : M unit :=
  fun c => OK tt (f c).
Definition gets {A} (f : ParseContext -> A) : M A := fun c => OK (f c) c.

Notation "x <- m ;; k" := (bind m (fun x => k))
  (at level 61, m at next level, right associativity).
Notation "m ;;; k" := (bind m (fun _ => k))
  (at level 61, right associativity).

(** Every loop over the line runs on this much fuel. *)
Definition lineFuel (c : ParseContext) : nat := S (List.length (lineBuf c)).
Definition with_fuel {A} (f : nat -> M A) : M A := fun c => f (lineFuel c) c.

(** The C string at the cursor: what [c->linePtr] points to. *)
Definition rest (c : ParseContext) : list Z :=
  skipn (Z.to_nat (linePtr c)) (lineBuf c).

(** The cursor moved by [n] characters. *)
Definition seek (n : Z) (c : ParseContext) : ParseContext :=
  set_linePtr (linePtr c + n) c.

(** ** The character reader *)

(** [*c->linePtr]: the character under the cursor; NUL at the terminator,
    and NUL for a cursor outside the buffer. *)
Definition peek (c : ParseContext) : Z :=
  if linePtr c <? 0 then 0 else nth (Z.to_nat (linePtr c)) (lineBuf c) 0.

(** XGetC - get the next character without checking for comments *)
Definition XGetC : M Z :=
  fun c =>
    let ch := peek c in
    if ch =? 0 then OK EOF c
    else OK ch (set_linePtr (linePtr c + 1) c).

(** UngetC - unget the most recent character *)
Definition UngetC : M unit :=
  modify (fun c => set_linePtr (linePtr c - 1) c).

(** SkipComment - skip characters up to the end of a comment *)
Fixpoint SkipComment_loop (fuel : nat) (lastch : Z) : M bool :=
  match fuel with
  | O => out_of_fuel
  | S k =>
      ch <- XGetC ;;
      if ch =? EOF then ret false
      else if (lastch =? STAR) && (ch =? SLASH) then ret true
      else SkipComment_loop k ch
  end.

Definition SkipComment : M bool :=
  with_fuel (fun fuel => SkipComment_loop fuel 0).

(** [while ((ch = XGetC(c)) != EOF) ;] of a line comment *)
Fixpoint skip_to_eol (fuel : nat) : M unit :=
  match fuel with
  | O => out_of_fuel
  | S k => ch <- XGetC ;; if ch =? EOF then ret tt else skip_to_eol k
  end.

(** The [for (;;)] loop of GetChar. *)
Fixpoint GetChar_loop (fuel : nat) : M Z :=
  match fuel with
  | O => out_of_fuel
  | S k =>
      ch <- XGetC ;;
      if ch =? EOF then ret EOF
      else if ch =? SLASH then
        ch2 <- XGetC ;;
        if ch2 =? SLASH then
          with_fuel skip_to_eol ;;; GetChar_loop k
        else if ch2 =? STAR then
          closed <- SkipComment ;;
          if closed then GetChar_loop k
          else modify (set_inComment true) ;;; ret EOF
        else
          UngetC ;;; ret SLASH
      else ret ch
  end.

(** GetChar - get the next character *)
Definition GetChar : M Z :=
  inside <- gets inComment ;;
  if inside then
    closed <- SkipComment ;;
    if closed then modify (set_inComment false) ;;; with_fuel GetChar_loop
    else ret EOF
  else with_fuel GetChar_loop.

(** SkipSpaces - skip leading spaces and the the next non-blank character *)
Fixpoint SkipSpaces_loop (fuel : nat) : M Z :=
  match fuel with
  | O => out_of_fuel
  | S k =>
      ch <- GetChar ;;
      if ch =? EOF then ret ch
      else if negb (isspace ch) then ret ch
      else SkipSpaces_loop k
  end.

Definition SkipSpaces : M Z := with_fuel SkipSpaces_loop.

(** ** Integer conversions of <stdlib.h>

    The token buffer handed to [atol] and [strtoul] holds only the digits
    the collecting loop accepted, so white space, signs and base prefixes
    never occur in it. A value too large for the result type is clamped to
    the type's maximum, as [strtol] and [strtoul] do. *)

Definition digit_of (ch : Z) : option Z :=
  if isdigit ch then Some (ch - 48)
  else if islower ch then Some (ch - 87)
  else if isupper ch then Some (ch - 55)
  else None.

Fixpoint digits_value (base acc : Z) (s : list Z) : Z :=
  match s with
  | [] => acc
  | d :: r =>
      match digit_of d with
      | Some v => if v <? base then digits_value base (acc * base + v) r
                  else acc
      | None => acc
      end
  end.

Definition LONG_MAX : Z := 2 ^ (LONG_BITS H - 1) - 1.
Definition ULONG_MAX : Z := 2 ^ LONG_BITS H - 1.

Definition atol (s : list Z) : Z := Z.min (digits_value 10 0 s) LONG_MAX.
Definition strtoul (s : list Z) (base : Z) : Z :=
  Z.min (digits_value base 0 s) ULONG_MAX.

(** The conversion to VMVALUE: reduction into the signed range of
    [VMVALUE_BITS] bits. *)
Definition to_VMVALUE (z : Z) : Z :=
  (z + 2 ^ (VMVALUE_BITS H - 1)) mod 2 ^ VMVALUE_BITS H
  - 2 ^ (VMVALUE_BITS H - 1).

(** ** The token recognizer *)

Fixpoint lookup_keyword (tab : list (list Z * Token)) (tok : list Z) : Token :=
  match tab with
  | [] => T_IDENTIFIER
  | (keyword, tkn) :: tab' =>
      if strcasecmp keyword tok =? 0 then tkn else lookup_keyword tab' tok
  end.

(** In the collecting loops [p] is what has been stored through the C
    pointer [p] since [p = c->token]; it becomes the token string when the
    terminator is stored, or when ParseError ends the scan. *)

(** IdentifierToken - get an identifier *)
Fixpoint IdentifierToken_loop (fuel : nat) (p : list Z) (len : Z)
  : M (list Z) :=
  match fuel with
  | O => out_of_fuel
  | S k =>
      ch <- GetChar ;;
      if negb (ch =? EOF) && IdentifierCharP ch then
        if len + 1 >? MAXTOKEN H then
          modify (set_token p) ;;; ParseError "Identifier too long"
        else IdentifierToken_loop k (p ++ [ch]) (len + 1)
      else ret p
  end.

Definition IdentifierToken (ch : Z) : M Token :=
  p <- with_fuel (fun fuel => IdentifierToken_loop fuel [ch] 1) ;;
  UngetC ;;;
  modify (set_token p) ;;;
  tok <- gets token ;;
  ret (lookup_keyword ktab tok).

(** [*p++ = ch] in the number functions, which store without a length
    test. The capacity of [c->token] is declared in db_compiler.h; the
    guards of IdentifierToken and StringToken let MAXTOKEN characters be
    stored before the terminator, and that is the room the model gives the
    buffer: the store of one character more is a store past its end. *)
Definition store (p : list Z) (ch : Z) : M (list Z) :=
  if Z.of_nat (List.length p) + 1 >? MAXTOKEN H then overrun
  else ret (p ++ [ch]).

(** The three number loops differ in the digit test only. *)
Fixpoint number_loop (digit : Z -> bool) (fuel : nat) (p : list Z)
  : M (list Z) :=
  match fuel with
  | O => out_of_fuel
  | S k =>
      ch <- GetChar ;;
      if ch =? EOF then ret p
      else if digit ch then p' <- store p ch ;; number_loop digit k p'
      else if negb (ch =? UNDERSCORE) then ret p
      else number_loop digit k p
  end.

(** NumberToken - get a number *)
Definition NumberToken (ch : Z) : M Token :=
  p0 <- store [] ch ;;
  p <- with_fuel (fun fuel => number_loop isdigit fuel p0) ;;
  UngetC ;;;
  modify (set_token p) ;;;
  tok <- gets token ;;
  modify (set_value (to_VMVALUE (atol tok))) ;;;
  ret T_NUMBER.

(** HexNumberToken - get a hexadecimal number *)
Definition HexNumberToken : M Token :=
  p <- with_fuel (fun fuel => number_loop isxdigit fuel []) ;;
  UngetC ;;;
  modify (set_token p) ;;;
  tok <- gets token ;;
  modify (set_value (to_VMVALUE (strtoul tok 16))) ;;;
  ret T_NUMBER.

(** BinaryNumberToken - get a binary number *)
Definition BinaryNumberToken : M Token :=
  p <- with_fuel
         (fun fuel => number_loop (fun ch => (ch =? 48) || (ch =? 49)) fuel []) ;;
  UngetC ;;;
  modify (set_token p) ;;;
  tok <- gets token ;;
  modify (set_value (to_VMVALUE (strtoul tok 2))) ;;;
  ret T_NUMBER.

(** LiteralChar - get a character from a literal string *)
Definition LiteralChar : M Z :=
  ch <- XGetC ;;
  if ch =? chr "n" then ret NL
  else if ch =? chr "r" then ret CR
  else if ch =? chr "t" then ret TAB
  else if ch =? EOF then ret BACKSLASH
  else ret ch.

(** StringToken - get a string *)
Fixpoint StringToken_loop (fuel : nat) (p : list Z) (len : Z)
  : M (Z * list Z) :=
  match fuel with
  | O => out_of_fuel
  | S k =>
      ch <- XGetC ;;
      if negb (ch =? EOF) && negb (ch =? DQUOTE) then
        if len + 1 >? MAXTOKEN H then
          modify (set_token p) ;;; ParseError "String too long"
        else
          x <- (if ch =? BACKSLASH then LiteralChar else ret ch) ;;
          StringToken_loop k (p ++ [x]) (len + 1)
      else ret (ch, p)
  end.

Definition StringToken : M Token :=
  r <- with_fuel (fun fuel => StringToken_loop fuel [] 0) ;;
  modify (set_token (snd r)) ;;;
  if negb (fst r =? DQUOTE) then ParseError "unterminated string"
  else ret T_STRING.

(** CharToken - get a character constant *)
Definition CharToken : M Token :=
  ch <- LiteralChar ;;
  q <- XGetC ;;
  (if negb (q =? SQUOTE) then ParseError "Expecting a closing single quote"
   else ret tt) ;;;
  modify (set_token [ch]) ;;;
  modify (set_value (to_VMVALUE ch)) ;;;
  ret T_NUMBER.

(** The body shared by the cases T_ELSE, T_END, T_DO and T_LOOP of
    NextToken: [compound] is the inner [switch] on the second word, [None]
    its [default] case. *)
Definition merge_lookahead (first : Token)
    (compound : Token -> option Token) : M Token :=
  savePtr <- gets linePtr ;;
  ch <- SkipSpaces ;;
  if negb (ch =? EOF) && IdentifierCharP ch then
    second <- IdentifierToken ch ;;
    match compound second with
    | Some tkn => ret tkn
    | None => modify (set_linePtr savePtr) ;;; ret first
    end
  else modify (set_linePtr savePtr) ;;; ret first.

(** The [switch] on the word just recognized: the four first words of a
    compound keyword look ahead for the second. *)
Definition merge_second (tkn : Token) : M Token :=
  match tkn with
  | T_ELSE =>
      merge_lookahead T_ELSE
        (fun second => match second with
                       | T_IF => Some T_ELSE_IF
                       | _ => None
                       end)
  | T_END =>
      merge_lookahead T_END
        (fun second => match second with
                       | T_DEF => Some T_END_DEF
                       | T_IF => Some T_END_IF
                       | T_SELECT => Some T_END_SELECT
                       | T_ASM => Some T_END_ASM
                       | _ => None
                       end)
  | T_DO =>
      merge_lookahead T_DO
        (fun second => match second with
                       | T_WHILE => Some T_DO_WHILE
                       | T_UNTIL => Some T_DO_UNTIL
                       | _ => None
                       end)
  | T_LOOP =>
      merge_lookahead T_LOOP
        (fun second => match second with
                       | T_WHILE => Some T_LOOP_WHILE
                       | T_UNTIL => Some T_LOOP_UNTIL
                       | _ => None
                       end)
  | _ => ret tkn
  end.

Definition LT : Z := 60.
Definition EQ : Z := 61.
Definition GT : Z := 62.

(** NextToken - read the next token *)
Definition NextToken : M Token :=
  ch <- SkipSpaces ;;
  modify (fun c => set_tokenOffset (linePtr c) c) ;;;
  if ch =? EOF then ret T_EOL
  else if ch =? DQUOTE then StringToken
  else if ch =? SQUOTE then CharToken
  else if ch =? LT then
    ch <- GetChar ;;
    if ch =? EQ then ret T_LE
    else if ch =? GT then ret T_NE
    else if ch =? LT then ret T_SHL
    else UngetC ;;; ret (T_CHAR LT)
  else if ch =? GT then
    ch <- GetChar ;;
    if ch =? EQ then ret T_GE
    else if ch =? GT then ret T_SHR
    else UngetC ;;; ret (T_CHAR GT)
  else if ch =? chr "0" then
    ch <- GetChar ;;
    if (ch =? chr "x") || (ch =? chr "X") then HexNumberToken
    else if (ch =? chr "b") || (ch =? chr "B") then BinaryNumberToken
    else UngetC ;;; NumberToken (chr "0")
  else if isdigit ch then NumberToken ch
  else if IdentifierCharP ch then
    tkn <- IdentifierToken ch ;;
    merge_second tkn
  else ret (T_CHAR ch).

(** GetToken - get the next token *)
Definition GetToken : M Token :=
  tkn <- gets savedToken ;;
  if negb (is_T_NONE tkn) then modify (set_savedToken T_NONE) ;;; ret tkn
  else NextToken.

(** SaveToken - save a token *)
Definition SaveToken (tkn : Token) : M unit :=
  modify (set_savedToken tkn).

(** ** The input stream manager *)

Definition frame_ref (f : ParseFile) : FrameRef :=
  match f with
  | MainFile => RefMain
  | IncludeFile _ file _ => RefFile file
  end.

(** [fclose(f->u.file.fp)] and [free(f)] *)
Definition fclose (f : ParseFile) : M unit :=
  match f with
  | MainFile => ret tt
  | IncludeFile _ file _ => modify (log (EvClose file))
  end.

Definition free (f : ParseFile) : M unit :=
  modify (log (EvFreeFrame (frame_ref f))).

Definition malloc : M bool :=
  fun c => OK (malloc_ok H (trace c)) (log EvMalloc c).

(** RewindInput - rewind the main input *)
Definition RewindInput : M unit :=
  modify (fun c =>
    log EvRewind (set_getLineCookie (main_rewind H (getLineCookie c)) c)) ;;;
  modify (set_mainLineNumber 0) ;;;
  modify (set_currentFile [MainFile]).

(** PushFile - push a file onto the input file stack *)
Definition PushFile (name : string) : M bool :=
  incs <- gets includedFiles ;;
  if existsb (String.eqb name) incs then ret true
  else
    ok <- malloc ;;
    (if negb ok then ParseError "insufficient memory" else ret tt) ;;;
    modify (fun c => set_includedFiles (name :: includedFiles c) c) ;;;
    ok <- malloc ;;
    (if negb ok then ParseError "insufficient memory" else ret tt) ;;;
    modify (log (EvOpen name)) ;;;
    match xbOpenFileInPath H name with
    | None =>
        modify (log (EvFreeFrame (RefFile name))) ;;;
        ret false
    | Some fp =>
        modify (fun c =>
          set_currentFile (IncludeFile fp name 0 :: currentFile c) c) ;;;
        modify (set_currentInclude (Some name)) ;;;
        ret true
    end.

(** ClearIncludedFiles - clear the list of included files for the next pass *)
Definition ClearIncludedFiles : M unit :=
  modify (fun c =>
    fold_left (fun c' name => log (EvFreeInc name) c') (includedFiles c) c) ;;;
  modify (set_includedFiles []) ;;;
  modify (set_currentInclude None).

(** CloseParseContext - close a parse context *)
Fixpoint close_files (stack : list ParseFile) : M unit :=
  match stack with
  | [] => ret tt
  | f :: next =>
      if is_main f then ret tt
      else fclose f ;;; free f ;;; close_files next
  end.

Definition CloseParseContext : M unit :=
  stack <- gets currentFile ;;
  close_files stack ;;;
  modify (set_currentFile [MainFile]) ;;;
  modify (set_currentInclude None).

(** [strlen]: the C string held by what the line source wrote. *)
Fixpoint c_string (raw : list Z) : list Z :=
  match raw with
  | [] => []
  | ch :: r => if ch =? 0 then [] else ch :: c_string r
  end.

(** make sure the line is correctly terminated *)
Definition terminate_line (l : list Z) : list Z :=
  if (Z.of_nat (List.length l) =? 0) || negb (last l 0 =? NL)
  then l ++ [NL] else l.

(** One attempt to read a line from frame [f], the top of the stack whose
    rest is [next]: on success the line is in the buffer and the source
    behind the frame has advanced. *)
Definition read_frame (f : ParseFile) (next : list ParseFile) : M bool :=
  match f with
  | MainFile =>
      ck <- gets getLineCookie ;;
      match main_getLine H ck with
      | Some (raw, ck') =>
          modify (set_getLineCookie ck') ;;;
          modify (set_lineBuf (c_string raw)) ;;;
          ret true
      | None => ret false
      end
  | IncludeFile fp file n =>
      match xbGetLine H fp with
      | Some (raw, fp') =>
          modify (set_currentFile (IncludeFile fp' file n :: next)) ;;;
          modify (set_lineBuf (c_string raw)) ;;;
          ret true
      | None => ret false
      end
  end.

(** [c->currentFile->u.file.file] when the stack top is an include file *)
Definition include_of (stack : list ParseFile) : option string :=
  match stack with
  | IncludeFile _ file _ :: _ => Some file
  | _ => None
  end.

(** [++f->lineNumber] for the frame on top of the stack *)
Definition bump_lineNumber (c : ParseContext) : ParseContext :=
  match currentFile c with
  | [] => c
  | MainFile :: _ => set_mainLineNumber (mainLineNumber c + 1) c
  | IncludeFile fp file n :: next =>
      set_currentFile (IncludeFile fp file (n + 1) :: next) c
  end.

(** GetLine - get the next input line: the [for (;;)] loop, by recursion
    on the chain of frames it pops. *)
Fixpoint GetLine_loop (stack : list ParseFile) : M bool :=
  match stack with
  | [] => ret false
  | f :: next =>
      got <- read_frame f next ;;
      if got then ret true
      else
        modify (set_currentFile next) ;;;
        modify (set_currentInclude (include_of next)) ;;;
        (if negb (is_main f) then fclose f ;;; free f else ret tt) ;;;
        GetLine_loop next
  end.

Definition GetLine : M bool :=
  stack <- gets currentFile ;;
  got <- GetLine_loop stack ;;
  if got then
    modify (fun c => set_lineBuf (terminate_line (lineBuf c)) c) ;;;
    modify (set_linePtr 0) ;;;
    modify bump_lineNumber ;;;
    modify (set_savedToken T_NONE) ;;;
    ret true
  else ret false.

End Scanner.

Arguments OK {H A} a c.
Arguments Error {H A} msg c.
Arguments OutOfFuel {H A}.
Arguments Overrun {H A}.
Arguments MainFile {H}.
Arguments IncludeFile {H} fp file lineNumber.
Arguments getLineCookie {H} _.
Arguments mainLineNumber {H} _.
Arguments currentFile {H} _.
Arguments includedFiles {H} _.
Arguments currentInclude {H} _.
Arguments lineBuf {H} _.
Arguments linePtr {H} _.
Arguments tokenOffset {H} _.
Arguments savedToken {H} _.
Arguments token {H} _.
Arguments value {H} _.
Arguments inComment {H} _.
Arguments trace {H} _.
Arguments set_getLineCookie {H} v c.
Arguments set_mainLineNumber {H} v c.
Arguments set_currentFile {H} v c.
Arguments set_includedFiles {H} v c.
Arguments set_currentInclude {H} v c.
Arguments set_lineBuf {H} v c.
Arguments set_linePtr {H} v c.
Arguments set_tokenOffset {H} v c.
Arguments set_savedToken {H} v c.
Arguments set_token {H} v c.
Arguments set_value {H} v c.
Arguments set_inComment {H} v c.
Arguments log {H} e c.
Arguments rest {H} c.
Arguments seek {H} n c.
Arguments peek {H} c.
Arguments lineFuel {H} c.
Arguments is_main {H} f.
Arguments frame_ref {H} f.
Arguments include_of {H} stack.

(** ** Vocabulary of the properties *)

Section Vocabulary.

Variable H : Host.

(** A context about to scan the line [l], outside any comment: the line
    terminated, the cursor at its start and no saved token, as GetLine
    leaves them. *)
Definition start_line (l : list Z) (c : ParseContext H) : ParseContext H :=
  set_inComment false
    (set_savedToken T_NONE
       (set_linePtr 0 (set_lineBuf (terminate_line l) c))).

(** The main frame is the bottom of the stack, under include files only. *)
Fixpoint main_at_bottom (stack : list (ParseFile H)) : bool :=
  match stack with
  | [] => false
  | f :: next =>
      if is_main f then match next with [] => true | _ :: _ => false end
      else main_at_bottom next
  end.

(** Include files, over the main frame or over nothing. *)
Fixpoint stack_ok (stack : list (ParseFile H)) : bool :=
  match stack with
  | [] => true
  | f :: next =>
      if is_main f then match next with [] => true | _ :: _ => false end
      else stack_ok next
  end.

Definition is_free_of_main (e : Event) : bool :=
  match e with EvFreeFrame RefMain => true | _ => false end.

Definition main_freed (tr : list Event) : bool := existsb is_free_of_main tr.

(** How often the file [name] was opened. *)
Definition is_open_of (name : string) (e : Event) : bool :=
  match e with EvOpen n => String.eqb name n | _ => false end.

Definition opens (name : string) (tr : list Event) : nat :=
  List.length (filter (is_open_of name) tr).

(** The line number of a frame. *)
Definition lineNumber_of (c : ParseContext H) (f : ParseFile H) : Z :=
  match f with
  | MainFile => mainLineNumber c
  | IncludeFile _ _ n => n
  end.

(** The operations of the engine, and the context each leaves behind;
    after a ParseError that is the context at the [longjmp]. A call that
    stores past the token buffer leaves no defined context: it counts as
    not made, and what is proved of a sequence of operations says nothing
    of the C program from such a call on. *)
Inductive Op : Type :=
| OpRewindInput
| OpPushFile (name : string)
| OpClearIncludedFiles
| OpCloseParseContext
| OpGetLine
| OpGetToken
| OpSaveToken (tkn : Token).

Definition after {A} (r : Result H A) (c : ParseContext H) : ParseContext H :=
  match r with
  | OK _ c' => c'
  | Error _ c' => c'
  | OutOfFuel => c
  | Overrun => c
  end.

Definition step (c : ParseContext H) (op : Op) : ParseContext H :=
  match op with
  | OpRewindInput => after (RewindInput H c) c
  | OpPushFile name => after (PushFile H name c) c
  | OpClearIncludedFiles => after (ClearIncludedFiles H c) c
  | OpCloseParseContext => after (CloseParseContext H c) c
  | OpGetLine => after (GetLine H c) c
  | OpGetToken => after (GetToken H c) c
  | OpSaveToken tkn => after (SaveToken H tkn c) c
  end.

Definition run (ops : list Op) (c : ParseContext H) : ParseContext H :=
  fold_left step ops c.

Definition is_clear (op : Op) : bool :=
  match op with OpClearIncludedFiles => true | _ => false end.

(** The operations that set the input stack to the main frame alone. *)
Definition is_reset (op : Op) : bool :=
  match op with
  | OpRewindInput | OpCloseParseContext => true
  | _ => false
  end.

(** The fields owned by the input stream manager. *)
Definition same_input (c c' : ParseContext H) : Prop :=
  getLineCookie c' = getLineCookie c /\
  mainLineNumber c' = mainLineNumber c /\
  currentFile c' = currentFile c /\
  includedFiles c' = includedFiles c /\
  currentInclude c' = currentInclude c /\
  lineBuf c' = lineBuf c /\
  trace c' = trace c.

(** A scanner function that changes none of them, however it ends. *)
Definition keeps_input {A} (m : M H A) : Prop :=
  forall c,
    match m c with
    | OK _ c' => same_input c c'
    | Error _ c' => same_input c c'
    | OutOfFuel => True
    | Overrun => True
    end.


End Vocabulary.

Arguments start_line {H} l c.
Arguments main_at_bottom {H} stack.
Arguments stack_ok {H} stack.
Arguments lineNumber_of {H} c f.
Arguments after {H A} r c.

(** ** String literals, after the specification *)

(** A character of a line: not the terminator, and not the value that
    reads as EOF. *)
Definition is_plain (ch : Z) : bool := negb (ch =? 0) && negb (ch =? EOF).

(** The character an escape stands for: the one after the backslash. *)
Definition unescape (ch : Z) : Z :=
  if ch =? chr "n" then NL
  else if ch =? chr "r" then CR
  else if ch =? chr "t" then TAB
  else ch.

(** What the text after an opening double quote decodes to, and whether an
    unescaped closing double quote ends it before the line does; a
    backslash with nothing after it is a backslash. *)
Fixpoint decode_string (s : list Z) : list Z * bool :=
  match s with
  | [] => ([], false)
  | ch :: s' =>
      if ch =? DQUOTE then ([], true)
      else if ch =? BACKSLASH then
        match s' with
        | [] => ([BACKSLASH], false)
        | e :: s'' =>
            let (d, closed) := decode_string s'' in (unescape e :: d, closed)
        end
      else
        let (d, closed) := decode_string s' in (ch :: d, closed)
  end.

(** ** Numbers, after the specification *)

(** The value of a digit character, and the number a digit string denotes
    in [base] by positional conversion. *)
Definition digit_val (ch : Z) : Z :=
  match digit_of ch with Some v => v | None => 0 end.

Definition positional (base : Z) (s : list Z) : Z :=
  fold_left (fun acc ch => acc * base + digit_val ch) s 0.

Definition valid_digit (base : Z) (ch : Z) : bool :=
  match digit_of ch with Some v => v <? base | None => false end.

Definition isbdigit (ch : Z) : bool := (ch =? 48) || (ch =? 49).

(** At the cursor of [c], outside any comment: the digits and underscores
    [ds], then the character [t] that ends the literal; [t] is not a slash,
    which could open a comment. *)
Definition digit_run {H : Host} (digit : Z -> bool) (c : ParseContext H)
    (ds : list Z) (t : Z) (tail : list Z) : Prop :=
  0 <= linePtr c /\ inComment c = false /\ rest c = ds ++ t :: tail /\
  forallb (fun ch => digit ch || (ch =? UNDERSCORE)) ds = true /\
  digit t = false /\ t <> UNDERSCORE /\ is_plain t = true /\ t <> SLASH.

(** ** Compound keywords, after the specification *)


(** The keywords after which a second word is looked for. *)
Definition is_first_word (t : Token) : bool :=
  match t with
  | T_ELSE | T_END | T_DO | T_LOOP => true
  | _ => false
  end.






(** ** Fuel *)

(** The characters XGetC can still deliver. *)
Definition avail {H : Host} (c : ParseContext H) : nat :=
  if linePtr c <? 0 then O else List.length (rest c).

(** A scanner function that never runs out of fuel. *)
Definition terminates {H : Host} {A : Type} (m : M H A) : Prop :=
  forall c, m c <> OutOfFuel.

(** A reader that returns, on the same line, no further back than it
    started. *)
Definition reads_on {H : Host} {A : Type} (m : M H A) : Prop :=
  forall c, exists a c',
    m c = OK a c' /\ lineBuf c' = lineBuf c /\ (avail c' <= avail c)%nat.

(** ** Resources of the input stack *)

(** The fields owned by the token recognizer. *)
Definition same_scan {H : Host} (c c' : ParseContext H) : Prop :=
  lineBuf c' = lineBuf c /\ linePtr c' = linePtr c /\
  tokenOffset c' = tokenOffset c /\ savedToken c' = savedToken c /\
  token c' = token c /\ value c' = value c /\ inComment c' = inComment c.

(** The frame [f] is at the end of its input: its line source has no line
    to give. *)
Definition exhausted {H : Host} (c : ParseContext H) (f : ParseFile H)
  : bool :=
  match f with
  | MainFile =>
      match main_getLine H (getLineCookie c) with
      | None => true
      | Some _ => false
      end
  | IncludeFile fp _ _ =>
      match xbGetLine H fp with
      | None => true
      | Some _ => false
      end
  end.

(** The frame [f] gives the line [raw] and is [f'] afterwards, the cookie
    of the main source being [ck'] afterwards. *)
Definition delivers {H : Host} (c : ParseContext H) (f : ParseFile H)
    (raw : list Z) (f' : ParseFile H) (ck' : Cookie H) : Prop :=
  match f with
  | MainFile =>
      f' = MainFile /\ main_getLine H (getLineCookie c) = Some (raw, ck')
  | IncludeFile fp file n =>
      ck' = getLineCookie c /\
      exists fp', xbGetLine H fp = Some (raw, fp') /\
                  f' = IncludeFile fp' file n
  end.

(** The host calls that release the frames [popped], top first, put in
    front of the trace [tr]: an include file is closed, then freed; the
    main frame is neither. *)
Fixpoint released {H : Host} (popped : list (ParseFile H))
    (tr : list Event) : list Event :=
  match popped with
  | [] => tr
  | MainFile :: next => released next tr
  | IncludeFile _ file _ :: next =>
      released next (EvFreeFrame (RefFile file) :: EvClose file :: tr)
  end.

(** How often the include file [name] was closed, how often a frame of it
    was freed, and how many frames of it are on a stack. *)
Definition is_close_of (name : string) (e : Event) : bool :=
  match e with EvClose n => String.eqb name n | _ => false end.

Definition closes (name : string) (tr : list Event) : nat :=
  List.length (filter (is_close_of name) tr).

Definition is_free_of (name : string) (e : Event) : bool :=
  match e with
  | EvFreeFrame (RefFile n) => String.eqb name n
  | _ => false
  end.

Definition frees (name : string) (tr : list Event) : nat :=
  List.length (filter (is_free_of name) tr).

Definition is_frame_of {H : Host} (name : string) (f : ParseFile H) : bool :=
  match f with
  | MainFile => false
  | IncludeFile _ file _ => String.eqb name file
  end.

Definition frames {H : Host} (name : string) (stack : list (ParseFile H))
  : nat :=
  List.length (filter (is_frame_of name) stack).

Definition is_rewind (op : Op) : bool :=
  match op with OpRewindInput => true | _ => false end.

(** No include file is closed more often than a frame of it is freed, and
    the frames of it freed or still on the stack are no more than the
    times it was opened. *)
Definition handles_ok {H : Host} (c : ParseContext H) : Prop :=
  forall name,
    (closes name (trace c) <= frees name (trace c))%nat /\
    (frees name (trace c) + frames name (currentFile c)
     <= opens name (trace c))%nat.

(** Every frame allocated for an include file is on the stack or freed. *)
Definition no_leak {H : Host} (c : ParseContext H) : Prop :=
  forall name,
    (frees name (trace c) + frames name (currentFile c))%nat
    = opens name (trace c).

(** ** Comments *)

(** The text holds the two characters that close a block comment. *)
Fixpoint has_close (s : list Z) : bool :=
  match s with
  | [] => false
  | a :: s' =>
      match s' with
      | [] => false
      | b :: _ => ((a =? STAR) && (b =? SLASH)) || has_close s'
      end
  end.

(** What may stand between two characters that the scanner reads one after
    the other with GetChar: nothing, or a block comment that is opened and
    closed there. *)
Definition gap (mid : list Z) : Prop :=
  mid = [] \/
  exists body,
    mid = SLASH :: STAR :: body ++ [STAR; SLASH] /\
    forallb is_plain body = true /\ has_close body = false.

(** ** Operators of two characters *)

(** First character, second character, token. *)
Definition operators : list (Z * Z * Token) :=
  [ (LT, EQ, T_LE); (LT, GT, T_NE); (LT, LT, T_SHL);
    (GT, EQ, T_GE); (GT, GT, T_SHR) ].

(** ** Errors *)

(** The messages ParseError is called with in the scanner. *)
Definition scan_errors : list string :=
  [ "Identifier too long"; "String too long"; "unterminated string";
    "Expecting a closing single quote" ]%string.

(** A scanner function that fails with these messages only. *)
Definition fails_only {H : Host} {A : Type} (msgs : list string) (m : M H A)
  : Prop :=
  forall c msg c', m c = Error msg c' -> In msg msgs.

(** A scanner function that never stores past the token buffer. *)
Definition in_bounds {H : Host} {A : Type} (m : M H A) : Prop :=
  forall c, m c <> Overrun.

(** ** The cursor and the line buffer *)

(** The cursor points into the line buffer or at its terminator. *)
Definition in_buffer {H : Host} (c : ParseContext H) : Prop :=
  0 <= linePtr c <= Z.of_nat (List.length (lineBuf c)).

(** From [c] to [c'] the line is the same and the cursor, still in it, is
    at most [d] characters further back. *)
Definition ahead {H : Host} (d : Z) (c c' : ParseContext H) : Prop :=
  lineBuf c' = lineBuf c /\
  linePtr c - d <= linePtr c' <= Z.of_nat (List.length (lineBuf c)).

(** What holds after [m] is run on [c]: [Q] of the result and the context
    when it returns, [E] of the context when it fails. *)
Definition post {H : Host} {A : Type} (m : M H A) (c : ParseContext H)
    (Q : A -> ParseContext H -> Prop) (E : ParseContext H -> Prop) : Prop :=
  match m c with
  | OK a c' => Q a c'
  | Error _ c' => E c'
  | OutOfFuel => True
  | Overrun => True
  end.

(** The character [ch] is the one just before the cursor. *)
Definition last_read {H : Host} (ch : Z) (c : ParseContext H) : Prop :=
  1 <= linePtr c /\ peek (seek (-1) c) = ch.

(** What GetChar leaves: the cursor no further back; the in-comment flag
    as it was unless two characters at least were read; a character other
    than EOF and the slash was the last one read. *)
Definition GetChar_loop_Q {H : Host} (c : ParseContext H) (ch : Z)
    (c' : ParseContext H) : Prop :=
  ahead 0 c c' /\
  (inComment c' = inComment c \/ linePtr c + 2 <= linePtr c') /\
  (ch <> EOF -> inComment c' = inComment c) /\
  (ch <> EOF -> ch <> SLASH ->
   linePtr c + 1 <= linePtr c' /\ last_read ch c').

Definition GetChar_Q {H : Host} (c : ParseContext H) (ch : Z)
    (c' : ParseContext H) : Prop :=
  ahead 0 c c' /\
  (inComment c = false ->
   inComment c' = false \/ linePtr c + 2 <= linePtr c') /\
  (ch <> EOF -> inComment c' = false) /\
  (ch <> EOF -> ch <> SLASH ->
   linePtr c + 1 <= linePtr c' /\ last_read ch c').

Definition SkipSpaces_Q {H : Host} (c : ParseContext H) (ch : Z)
    (c' : ParseContext H) : Prop :=
  ahead 0 c c' /\
  (ch <> EOF -> inComment c' = false) /\
  (ch <> EOF -> ch <> SLASH ->
   linePtr c + 1 <= linePtr c' /\ last_read ch c').

(** The line buffer as a refill leaves it: a C string that ends in a
    newline. *)
Definition line_ended {H : Host} (c : ParseContext H) : Prop :=
  (exists body, lineBuf c = body ++ [NL]) /\
  Forall (fun ch => ch <> 0) (lineBuf c).

(** ** A host for the examples: the main source and the include files are
    lists of lines, every allocation succeeds. *)
Definition Lines : Type := list (list Z).

Definition demoHost (files : string -> option Lines) : Host :=
  {| MAXTOKEN := 32;
     VMVALUE_BITS := 32;
     LONG_BITS := 32;
     Cookie := (Lines * Lines)%type;   (* the whole source, what is left *)
     FILE := Lines;
     main_getLine := fun ck =>
       match snd ck with
       | [] => None
       | l :: r => Some (l, (fst ck, r))
       end;
     main_rewind := fun ck => (fst ck, fst ck);
     xbOpenFileInPath := files;
     xbGetLine := fun fp =>
       match fp with
       | [] => None
       | l :: r => Some (l, r)
       end;
     malloc_ok := fun _ => true |}.

Definition no_files : string -> option Lines := fun _ => None.

(** The one include file of the examples: B, of one line. *)
Definition files_B (name : string) : option Lines :=
  if String.eqb name "B" then Some [chars "END"] else None.

(** A context on the main source [main], before the first line. *)
Definition demo_context (files : string -> option Lines) (main : Lines)
  : ParseContext (demoHost files) :=
  Build_ParseContext (demoHost files)
    (main, main) 0 [MainFile] [] None [] 0 0 T_NONE [] 0 false [].


(** A host short of memory: as the host of the examples without include
    files, but only the first allocation succeeds. *)
Definition lowMemHost : Host :=
  {| MAXTOKEN := 32;
     VMVALUE_BITS := 32;
     LONG_BITS := 32;
     Cookie := (Lines * Lines)%type;
     FILE := Lines;
     main_getLine := main_getLine (demoHost no_files);
     main_rewind := main_rewind (demoHost no_files);
     xbOpenFileInPath := no_files;
     xbGetLine := xbGetLine (demoHost no_files);
     malloc_ok := fun tr => match tr with [] => true | _ => false end |}.

Definition lowMem_context : ParseContext lowMemHost :=
  Build_ParseContext lowMemHost
    ([], []) 0 [MainFile] [] None [] 0 0 T_NONE [] 0 false [].

(** * Properties *)

(** Unfold the monad. *)
Ltac monad := unfold bind, ret, gets, modify, with_fuel, ParseError.

(** Decide the character tests of NextToken on literal characters, and
    look a literal word up in the keyword table. *)
Ltac eval_test f a :=
  let v := eval vm_compute in (f a) in
  match v with
  | true => change (f a) with true
  | false => change (f a) with false
  end.

Ltac eval_tests :=
  repeat match goal with
    | |- context [Z.eqb ?a ?b] => eval_test (Z.eqb a) b
    | |- context [isdigit ?a] => eval_test isdigit a
    | |- context [IdentifierCharP ?a] => eval_test IdentifierCharP a
    end;
  cbn [negb andb orb]; cbv beta iota.


(** ** Basic facts about the cursor *)

Section Cursor.

Variable H : Host.
Lemma nth_hd_skipn (n : nat) (l : list Z) : nth n l 0 = hd 0 (skipn n l).
Proof.
  revert l; induction n as [|n IH]; intros [|x l]; simpl; auto.
Qed.

Lemma skipn_S_tl (n : nat) (l : list Z) : skipn (S n) l = tl (skipn n l).
Proof.
  revert l; induction n as [|n IH]; intros [|x l]; auto.
  change (skipn (S (S n)) (x :: l)) with (skipn (S n) l).
  rewrite IH; reflexivity.
Qed.

Lemma peek_rest (c : ParseContext H) : 0 <= linePtr c -> peek c = hd 0 (rest c).
Proof.
  intros Hp; unfold peek, rest.
  destruct (Z.ltb_spec (linePtr c) 0); [lia|apply nth_hd_skipn].
Qed.

Lemma rest_seek1 (c : ParseContext H) :
  0 <= linePtr c -> rest (seek 1 c) = tl (rest c).
Proof.
  intros Hp; unfold rest, seek; simpl.
  replace (Z.to_nat (linePtr c + 1)) with (S (Z.to_nat (linePtr c))) by lia.
  apply skipn_S_tl.
Qed.

Lemma seek_seek (a b : Z) (c : ParseContext H) : seek a (seek b c) = seek (b + a) c.
Proof. unfold seek; simpl; unfold set_linePtr; simpl; f_equal; lia. Qed.

Lemma XGetC_char (c : ParseContext H) (ch : Z) (r : list Z) :
  0 <= linePtr c -> rest c = ch :: r -> ch <> 0 ->
  XGetC H c = OK ch (seek 1 c).
Proof.
  intros Hp Hr Hz; unfold XGetC.
  rewrite (peek_rest c Hp), Hr; simpl.
  destruct (Z.eqb_spec ch 0); [contradiction|reflexivity].
Qed.

Lemma XGetC_end (c : ParseContext H) :
  0 <= linePtr c -> hd 0 (rest c) = 0 -> XGetC H c = OK EOF c.
Proof.
  intros Hp Hr; unfold XGetC; rewrite (peek_rest c Hp), Hr; reflexivity.
Qed.

Lemma to_VMVALUE_small (z : Z) :
  0 < VMVALUE_BITS H ->
  - 2 ^ (VMVALUE_BITS H - 1) <= z < 2 ^ (VMVALUE_BITS H - 1) ->
  to_VMVALUE H z = z.
Proof.
  intros Hb Hz; unfold to_VMVALUE.
  replace (2 ^ VMVALUE_BITS H) with (2 * 2 ^ (VMVALUE_BITS H - 1)).
  - rewrite Z.mod_small; lia.
  - rewrite <- Z.pow_succ_r by lia. f_equal; lia.
Qed.

Lemma pow2_mono (a b : Z) : 0 <= a <= b -> 2 ^ a <= 2 ^ b.
Proof. intros; apply Z.pow_le_mono_r; lia. Qed.

End Cursor.

Section Reader.
Variable H : Host.

Lemma GetChar_plain (c : ParseContext H) (ch : Z) (r : list Z) :
  0 <= linePtr c -> inComment c = false -> rest c = ch :: r ->
  ch <> 0 -> ch <> EOF -> ch <> SLASH ->
  GetChar H c = OK ch (seek 1 c).
Proof.
  intros Hp Hc Hr H0 He Hs.
  unfold GetChar; monad. rewrite Hc.
  unfold lineFuel; simpl GetChar_loop; monad.
  rewrite (XGetC_char H c ch r Hp Hr H0).
  destruct (Z.eqb_spec ch EOF); [contradiction|].
  destruct (Z.eqb_spec ch SLASH); [contradiction|reflexivity].
Qed.

Lemma SkipSpaces_nonspace (c : ParseContext H) (ch : Z) (r : list Z) :
  0 <= linePtr c -> inComment c = false -> rest c = ch :: r ->
  ch <> 0 -> ch <> EOF -> ch <> SLASH -> isspace ch = false ->
  SkipSpaces H c = OK ch (seek 1 c).
Proof.
  intros Hp Hc Hr H0 He Hs Hsp.
  unfold SkipSpaces, with_fuel, lineFuel; simpl SkipSpaces_loop; monad.
  rewrite (GetChar_plain c ch r Hp Hc Hr H0 He Hs).
  destruct (Z.eqb_spec ch EOF); [contradiction|].
  rewrite Hsp; reflexivity.
Qed.

(** C10: in a character literal the escape mapping is applied to the
    character right after the opening quote, with no backslash before it:
    quote, n, quote is the newline (10), with r the carriage return (13),
    with t the tab (9), and any other character is its own code; each is a
    number token, the next character being the closing quote. *)
Theorem C10_char_literal_escape_without_backslash
    (c : ParseContext H) (ch : Z) (tail : list Z) :
  16 <= VMVALUE_BITS H ->
  0 <= linePtr c -> inComment c = false ->
  rest c = SQUOTE :: ch :: SQUOTE :: tail ->
  ch <> 0 -> ch <> EOF -> -128 <= ch <= 255 ->
  exists c',
    NextToken H c = OK T_NUMBER c' /\
    rest c' = tail /\
    token c' = [value c'] /\
    (ch = chr "n" -> value c' = NL) /\
    (ch = chr "r" -> value c' = CR) /\
    (ch = chr "t" -> value c' = TAB) /\
    (ch <> chr "n" -> ch <> chr "r" -> ch <> chr "t" -> value c' = ch).
Proof.
  intros Hb Hp Hc Hr H0 He Hrange.
  assert (Hpow : 2 ^ 15 <= 2 ^ (VMVALUE_BITS H - 1)) by (apply pow2_mono; lia).
  assert (Hsmall : forall z, -128 <= z <= 255 -> to_VMVALUE H z = z).
  { intros z Hz; apply to_VMVALUE_small; [lia|]. assert (E : 2 ^ 15 = 32768) by reflexivity. lia. }
  unfold NextToken; monad.
  rewrite (SkipSpaces_nonspace c SQUOTE _ Hp Hc Hr) by (vm_compute; congruence).
  change (SQUOTE =? EOF) with false; change (SQUOTE =? DQUOTE) with false;
    change (SQUOTE =? SQUOTE) with true; cbv iota.
  unfold CharToken, LiteralChar; monad.
  assert (Hp1 : 0 <= linePtr (set_tokenOffset (linePtr (seek 1 c)) (seek 1 c))) by (simpl; lia).
  assert (Hr1 : rest (set_tokenOffset (linePtr (seek 1 c)) (seek 1 c)) = ch :: SQUOTE :: tail).
  { change (rest (seek 1 c) = ch :: SQUOTE :: tail). rewrite rest_seek1, Hr by assumption. reflexivity. }
  rewrite (XGetC_char H _ ch _ Hp1 Hr1 H0).
  set (c1 := seek 1 (set_tokenOffset (linePtr (seek 1 c)) (seek 1 c))).
  assert (Hp2 : 0 <= linePtr c1) by (simpl; lia).
  assert (Hr2 : rest c1 = SQUOTE :: tail).
  { unfold c1; rewrite rest_seek1, Hr1 by assumption; reflexivity. }
  assert (Hr3 : rest (seek 1 c1) = tail).
  { rewrite rest_seek1, Hr2 by assumption; reflexivity. }
  assert (Hq : XGetC H c1 = OK SQUOTE (seek 1 c1)).
  { apply (XGetC_char H c1 SQUOTE tail Hp2 Hr2); vm_compute; congruence. }
  destruct (Z.eqb_spec ch (chr "n")) as [En|Nn];
  [|destruct (Z.eqb_spec ch (chr "r")) as [Er|Nr];
  [|destruct (Z.eqb_spec ch (chr "t")) as [Et|Nt];
  [|destruct (Z.eqb_spec ch EOF) as [Ee|_]; [contradiction|]]]];
  rewrite Hq; simpl; eexists; (split; [reflexivity|]); simpl;
  (split; [exact Hr3|]); rewrite Hsmall by (unfold NL, CR, TAB; lia);
  repeat split; intros; subst; try reflexivity; try contradiction; try discriminate.
Qed.
End Reader.

(** ** The token recognizer leaves the input stack alone *)

Section Frame.

Variable H : Host.

Lemma same_input_refl (c : ParseContext H) : same_input H c c.
Proof. repeat split. Qed.

Lemma same_input_trans (c1 c2 c3 : ParseContext H) :
  same_input H c1 c2 -> same_input H c2 c3 -> same_input H c1 c3.
Proof.
  unfold same_input; intros (A1&A2&A3&A4&A5&A6&A7) (B1&B2&B3&B4&B5&B6&B7).
  repeat split; congruence.
Qed.

Lemma keeps_ret {A} (a : A) : keeps_input H (ret H a).
Proof. intro c; apply same_input_refl. Qed.

Lemma keeps_gets {A} (f : ParseContext H -> A) : keeps_input H (gets H f).
Proof. intro c; apply same_input_refl. Qed.

Lemma keeps_error {A} (msg : string) : keeps_input H (@ParseError H A msg).
Proof. intro c; apply same_input_refl. Qed.

Lemma keeps_out_of_fuel {A} : keeps_input H (@out_of_fuel H A).
Proof. intro c; exact I. Qed.

Lemma keeps_modify (f : ParseContext H -> ParseContext H) :
  (forall c, same_input H c (f c)) -> keeps_input H (modify H f).
Proof. intros Hf c; apply Hf. Qed.

Lemma keeps_bind {A B} (m : M H A) (k : A -> M H B) :
  keeps_input H m -> (forall a, keeps_input H (k a)) -> keeps_input H (bind H m k).
Proof.
  intros Hm Hk c; unfold bind; specialize (Hm c).
  destruct (m c) as [a c1|msg c1| |]; auto.
  specialize (Hk a c1).
  destruct (k a c1) as [b c2|msg c2| |]; eauto using same_input_trans.
Qed.

Lemma keeps_with_fuel {A} (f : nat -> M H A) :
  (forall n, keeps_input H (f n)) -> keeps_input H (with_fuel H f).
Proof. intros Hf c; apply Hf. Qed.

Ltac keeps_step :=
  first
    [ apply keeps_ret | apply keeps_gets | apply keeps_error
    | apply keeps_out_of_fuel
    | apply keeps_modify; intro; repeat split
    | apply keeps_with_fuel; intro
    | apply keeps_bind; [|intro]
    | match goal with
      | |- keeps_input H (if ?b then _ else _) => destruct b
      | |- keeps_input H (match ?x with _ => _ end) => destruct x
      end
    | assumption ].

Lemma keeps_XGetC : keeps_input H (XGetC H).
Proof.
  intro c; unfold XGetC; destruct (peek c =? 0); repeat split.
Qed.

Lemma keeps_UngetC : keeps_input H (UngetC H).
Proof. unfold UngetC; keeps_step. Qed.

Lemma keeps_SkipComment_loop (fuel : nat) (lastch : Z) :
  keeps_input H (SkipComment_loop H fuel lastch).
Proof.
  revert lastch; induction fuel as [|k IH]; intro lastch; simpl.
  - keeps_step.
  - apply keeps_bind; [apply keeps_XGetC|intro ch]; repeat keeps_step; apply IH.
Qed.

Lemma keeps_SkipComment : keeps_input H (SkipComment H).
Proof. unfold SkipComment; keeps_step; apply keeps_SkipComment_loop. Qed.

Lemma keeps_skip_to_eol (fuel : nat) : keeps_input H (skip_to_eol H fuel).
Proof.
  induction fuel as [|k IH]; simpl.
  - keeps_step.
  - apply keeps_bind; [apply keeps_XGetC|intro ch]; repeat keeps_step.
Qed.

Lemma keeps_GetChar_loop (fuel : nat) : keeps_input H (GetChar_loop H fuel).
Proof.
  induction fuel as [|k IH]; simpl.
  - keeps_step.
  - apply keeps_bind; [apply keeps_XGetC|intro ch].
    destruct (ch =? EOF); [keeps_step|].
    destruct (ch =? SLASH); [|keeps_step].
    apply keeps_bind; [apply keeps_XGetC|intro ch2].
    destruct (ch2 =? SLASH).
    { apply keeps_bind; [|intro; exact IH].
      keeps_step; apply keeps_skip_to_eol. }
    destruct (ch2 =? STAR).
    { apply keeps_bind; [apply keeps_SkipComment|intros []];
        repeat keeps_step. }
    apply keeps_bind; [apply keeps_UngetC|intro; keeps_step].
Qed.

Lemma keeps_GetChar : keeps_input H (GetChar H).
Proof.
  unfold GetChar.
  apply keeps_bind; [keeps_step|intros []].
  - apply keeps_bind; [apply keeps_SkipComment|intros []].
    + apply keeps_bind; [keeps_step|intro].
      keeps_step; apply keeps_GetChar_loop.
    + keeps_step.
  - keeps_step; apply keeps_GetChar_loop.
Qed.

Lemma keeps_SkipSpaces : keeps_input H (SkipSpaces H).
Proof.
  unfold SkipSpaces; keeps_step.
  induction n as [|k IH]; simpl; [keeps_step|].
  apply keeps_bind; [apply keeps_GetChar|intro ch]; repeat keeps_step.
Qed.

Lemma keeps_IdentifierToken (ch : Z) : keeps_input H (IdentifierToken H ch).
Proof.
  unfold IdentifierToken.
  apply keeps_bind.
  { keeps_step. generalize [ch] 1.
    induction n as [|k IH]; intros p len; simpl; [keeps_step|].
    apply keeps_bind; [apply keeps_GetChar|intro x].
    repeat keeps_step. apply IH. }
  intro p. apply keeps_bind; [apply keeps_UngetC|intro]. repeat keeps_step.
Qed.

Lemma keeps_overrun {A} : keeps_input H (@overrun H A).
Proof. intro c; exact I. Qed.

Lemma store_cases (p : list Z) (ch : Z) (c : ParseContext H) :
  (MAXTOKEN H < Z.of_nat (List.length p) + 1 /\ store H p ch c = Overrun) \/
  (Z.of_nat (List.length p) + 1 <= MAXTOKEN H /\
   store H p ch c = OK (p ++ [ch]) c).
Proof.
  unfold store.
  destruct (Z.gtb_spec (Z.of_nat (List.length p) + 1) (MAXTOKEN H));
    [left|right]; (split; [lia|reflexivity]).
Qed.

Lemma keeps_store (p : list Z) (ch : Z) : keeps_input H (store H p ch).
Proof.
  unfold store; destruct (Z.of_nat (List.length p) + 1 >? MAXTOKEN H);
    [apply keeps_overrun|apply keeps_ret].
Qed.

Lemma keeps_number_loop (digit : Z -> bool) (fuel : nat) (p : list Z) :
  keeps_input H (number_loop H digit fuel p).
Proof.
  revert p; induction fuel as [|k IH]; intro p; simpl; [keeps_step|].
  apply keeps_bind; [apply keeps_GetChar|intro x].
  destruct (x =? EOF); [apply keeps_ret|].
  destruct (digit x);
    [apply keeps_bind; [apply keeps_store|intro p'; apply IH]|].
  destruct (negb (x =? UNDERSCORE)); [apply keeps_ret|apply IH].
Qed.

Lemma keeps_NumberToken (ch : Z) : keeps_input H (NumberToken H ch).
Proof.
  unfold NumberToken.
  apply keeps_bind; [apply keeps_store|intro p0].
  apply keeps_bind; [keeps_step; apply keeps_number_loop|intro p].
  apply keeps_bind; [apply keeps_UngetC|intro]. repeat keeps_step.
Qed.

Lemma keeps_HexNumberToken : keeps_input H (HexNumberToken H).
Proof.
  unfold HexNumberToken.
  apply keeps_bind; [keeps_step; apply keeps_number_loop|intro p].
  apply keeps_bind; [apply keeps_UngetC|intro]. repeat keeps_step.
Qed.

Lemma keeps_BinaryNumberToken : keeps_input H (BinaryNumberToken H).
Proof.
  unfold BinaryNumberToken.
  apply keeps_bind; [keeps_step; apply keeps_number_loop|intro p].
  apply keeps_bind; [apply keeps_UngetC|intro]. repeat keeps_step.
Qed.

Lemma keeps_LiteralChar : keeps_input H (LiteralChar H).
Proof.
  unfold LiteralChar.
  apply keeps_bind; [apply keeps_XGetC|intro ch]; repeat keeps_step.
Qed.

Lemma keeps_StringToken : keeps_input H (StringToken H).
Proof.
  unfold StringToken.
  apply keeps_bind.
  { keeps_step. generalize (@nil Z) 0.
    induction n as [|k IH]; intros p len; simpl; [keeps_step|].
    apply keeps_bind; [apply keeps_XGetC|intro ch].
    destruct (negb (ch =? EOF) && negb (ch =? DQUOTE)); [|keeps_step].
    destruct (len + 1 >? MAXTOKEN H); [repeat keeps_step|].
    apply keeps_bind; [|intro; apply IH].
    destruct (ch =? BACKSLASH); [apply keeps_LiteralChar|keeps_step]. }
  intro r; repeat keeps_step.
Qed.

Lemma keeps_CharToken : keeps_input H (CharToken H).
Proof.
  unfold CharToken.
  apply keeps_bind; [apply keeps_LiteralChar|intro ch].
  apply keeps_bind; [apply keeps_XGetC|intro q]. repeat keeps_step.
Qed.

Lemma keeps_merge_lookahead (first : Token) (compound : Token -> option Token) :
  keeps_input H (merge_lookahead H first compound).
Proof.
  unfold merge_lookahead.
  apply keeps_bind; [keeps_step|intro savePtr].
  apply keeps_bind; [apply keeps_SkipSpaces|intro ch].
  destruct (negb (ch =? EOF) && IdentifierCharP ch); [|repeat keeps_step].
  apply keeps_bind; [apply keeps_IdentifierToken|intro second].
  repeat keeps_step.
Qed.

Lemma keeps_NextToken : keeps_input H (NextToken H).
Proof.
  unfold NextToken.
  apply keeps_bind; [apply keeps_SkipSpaces|intro ch].
  apply keeps_bind; [keeps_step|intro].
  destruct (ch =? EOF); [keeps_step|].
  destruct (ch =? DQUOTE); [apply keeps_StringToken|].
  destruct (ch =? SQUOTE); [apply keeps_CharToken|].
  destruct (ch =? LT).
  { apply keeps_bind; [apply keeps_GetChar|intro ch2].
    repeat keeps_step; apply keeps_UngetC. }
  destruct (ch =? GT).
  { apply keeps_bind; [apply keeps_GetChar|intro ch2].
    repeat keeps_step; apply keeps_UngetC. }
  destruct (ch =? chr "0").
  { apply keeps_bind; [apply keeps_GetChar|intro ch2].
    destruct ((ch2 =? chr "x") || (ch2 =? chr "X")); [apply keeps_HexNumberToken|].
    destruct ((ch2 =? chr "b") || (ch2 =? chr "B")); [apply keeps_BinaryNumberToken|].
    apply keeps_bind; [apply keeps_UngetC|intro; apply keeps_NumberToken]. }
  destruct (isdigit ch); [apply keeps_NumberToken|].
  destruct (IdentifierCharP ch); [|keeps_step].
  apply keeps_bind; [apply keeps_IdentifierToken|intro tkn].
  unfold merge_second.
  destruct tkn; try apply keeps_merge_lookahead; keeps_step.
Qed.

Lemma keeps_GetToken : keeps_input H (GetToken H).
Proof.
  unfold GetToken.
  apply keeps_bind; [keeps_step|intro tkn].
  destruct (negb (is_T_NONE tkn)); [repeat keeps_step|apply keeps_NextToken].
Qed.

Lemma keeps_SaveToken (tkn : Token) : keeps_input H (SaveToken H tkn).
Proof. unfold SaveToken; keeps_step. Qed.

End Frame.
(** ** The input stream manager *)

Section InputStack.

Variable H : Host.

Lemma existsb_eqb_In (name : string) (l : list string) :
  existsb (String.eqb name) l = true <-> In name l.
Proof.
  rewrite existsb_exists; split.
  - intros (x & Hx & E); apply String.eqb_eq in E; subst; assumption.
  - intro Hx; exists name; split; [assumption|apply String.eqb_refl].
Qed.

Lemma terminate_line_ends (l : list Z) :
  exists body, terminate_line l = body ++ [NL].
Proof.
  unfold terminate_line.
  destruct l as [|x l'] eqn:El; [exists []; reflexivity|rewrite <- El].
  assert (Hne : l <> []) by (rewrite El; discriminate).
  replace (Z.of_nat (List.length l) =? 0) with false
    by (rewrite El; reflexivity).
  simpl orb; destruct (Z.eqb_spec (last l 0) NL) as [E|N]; simpl.
  - exists (removelast l); rewrite <- E; apply app_removelast_last; assumption.
  - exists l; reflexivity.
Qed.

(** close_files releases include files only and always returns. *)
Lemma close_files_spec (stack : list (ParseFile H)) :
  forall c, exists c',
    close_files H stack c = OK tt c' /\
    includedFiles c' = includedFiles c /\
    main_freed (trace c') = main_freed (trace c) /\
    forall name, opens name (trace c') = opens name (trace c).
Proof.
  induction stack as [|f next IH]; intro c; simpl.
  - exists c; repeat split.
  - destruct f as [|fp file n]; simpl.
    + exists c; repeat split.
    + monad; simpl.
      destruct (IH (log (EvFreeFrame (RefFile file)) (log (EvClose file) c)))
        as (c' & E & Hi & Hf & Ho).
      exists c'; rewrite E; repeat split; auto.
Qed.

(** The refill loop: it always returns; on success the line came from the
    frame [f] that is now on top, over the frames that were beneath it. *)
Lemma GetLine_loop_spec (stack : list (ParseFile H)) :
  forall c, currentFile c = stack ->
  exists b c',
    GetLine_loop H stack c = OK b c' /\
    includedFiles c' = includedFiles c /\
    inComment c' = inComment c /\
    mainLineNumber c' = mainLineNumber c /\
    main_freed (trace c') = main_freed (trace c) /\
    (forall name, opens name (trace c') = opens name (trace c)) /\
    (stack_ok stack = true -> stack_ok (currentFile c') = true) /\
    if b then
      exists popped f f' below,
        stack = popped ++ f :: below /\
        currentFile c' = f' :: below /\
        frame_ref f' = frame_ref f /\
        lineNumber_of c' f' = lineNumber_of c f /\
        (main_at_bottom stack = true ->
         main_at_bottom (currentFile c') = true)
    else currentFile c' = [].
Proof.
  induction stack as [|f next IH]; intros c Hc; simpl.
  - exists false, c; simpl; repeat split; auto.
    rewrite Hc; reflexivity.
  - destruct f as [|fp file n]; simpl; monad.
    + destruct (main_getLine H (getLineCookie c)) as [[raw ck']|] eqn:Eg; simpl.
      * eexists true, _; split; [reflexivity|]; simpl; rewrite Hc.
        repeat split; auto.
        exists [], MainFile, MainFile, next; repeat split; auto.
      * destruct (IH (set_currentInclude (include_of next) (set_currentFile next c)))
          as (b & c' & E & Hi & Hm & Hl & Hf & Ho & Hs & Hb); [reflexivity|].
        exists b, c'; rewrite E; repeat split; auto.
        { intro Hok; apply Hs; destruct next; [reflexivity|discriminate]. }
        destruct b; auto.
        destruct Hb as (popped & f & f' & below & E1 & E2 & E3 & E4 & E5).
        exists (MainFile :: popped), f, f', below; rewrite E1.
        repeat split; auto.
        intro Hbot; simpl in Hbot; destruct popped; discriminate Hbot.
    + destruct (xbGetLine H fp) as [[raw fp']|] eqn:Eg; simpl.
      * eexists true, _; split; [reflexivity|]; simpl.
        repeat split; auto.
        exists [], (IncludeFile fp file n), (IncludeFile fp' file n), next.
        repeat split; auto.
      * destruct (IH (log (EvFreeFrame (RefFile file)) (log (EvClose file)
                   (set_currentInclude (include_of next) (set_currentFile next c)))))
          as (b & c' & E & Hi & Hm & Hl & Hf & Ho & Hs & Hb); [reflexivity|].
        exists b, c'; rewrite E; repeat split; auto.
        destruct b; auto.
        destruct Hb as (popped & f & f' & below & E1 & E2 & E3 & E4 & E5).
        exists (IncludeFile fp file n :: popped), f, f', below; rewrite E1.
        repeat split; auto.
        intro Hbot; apply E5; rewrite E1; exact Hbot.
Qed.


Lemma GetLine_returns (c : ParseContext H) :
  exists b c', GetLine H c = OK b c'.
Proof.
  unfold GetLine; monad.
  destruct (GetLine_loop_spec (currentFile c) c eq_refl) as (b & c1 & E & _).
  rewrite E; destruct b; eauto.
Qed.


(** The four ways PushFile can end. *)
Lemma PushFile_cases (name : string) (c : ParseContext H) :
  PushFile H name c =
  if existsb (String.eqb name) (includedFiles c) then OK true c
  else if negb (malloc_ok H (trace c)) then
    Error "insufficient memory" (log EvMalloc c)
  else
    let c1 := set_includedFiles (name :: includedFiles c) (log EvMalloc c) in
    if negb (malloc_ok H (EvMalloc :: trace c)) then
      Error "insufficient memory" (log EvMalloc c1)
    else
      match xbOpenFileInPath H name with
      | None =>
          OK false (log (EvFreeFrame (RefFile name))
                      (log (EvOpen name) (log EvMalloc c1)))
      | Some fp =>
          OK true (set_currentInclude (Some name)
                     (set_currentFile (IncludeFile fp name 0 :: currentFile c)
                        (log (EvOpen name) (log EvMalloc c1))))
      end.
Proof.
  unfold PushFile, malloc; monad; simpl.
  destruct (existsb (String.eqb name) (includedFiles c)); [reflexivity|].
  destruct (malloc_ok H (trace c)); simpl; [|reflexivity].
  destruct (malloc_ok H (EvMalloc :: trace c)); simpl; [|reflexivity].
  destruct (xbOpenFileInPath H name); reflexivity.
Qed.

Lemma free_incs_spec (l : list string) (c : ParseContext H) :
  let c' := fold_left (fun c' name => log (EvFreeInc name) c') l c in
  currentFile c' = currentFile c /\
  main_freed (trace c') = main_freed (trace c) /\
  forall name, opens name (trace c') = opens name (trace c).
Proof.
  revert c; induction l as [|n l IH]; intro c; simpl; [repeat split|].
  destruct (IH (log (EvFreeInc n) c)) as (E1 & E2 & E3).
  repeat split; auto.
Qed.

Lemma bump_lineNumber_spec (c : ParseContext H) :
  trace (bump_lineNumber H c) = trace c /\
  includedFiles (bump_lineNumber H c) = includedFiles c /\
  stack_ok (currentFile (bump_lineNumber H c)) = stack_ok (currentFile c) /\
  main_at_bottom (currentFile (bump_lineNumber H c))
  = main_at_bottom (currentFile c).
Proof.
  unfold bump_lineNumber.
  destruct (currentFile c) as [|[|fp file n] below] eqn:E; simpl;
    rewrite ?E; repeat split.
Qed.

(** No operation frees the main frame or puts a frame beneath it. *)
Lemma step_keeps_main (c : ParseContext H) (op : Op) :
  main_freed (trace (step H c op)) = main_freed (trace c) /\
  (stack_ok (currentFile c) = true ->
   stack_ok (currentFile (step H c op)) = true).
Proof.
  destruct op as [|name| | | | |tkn]; simpl.
  - split; reflexivity.
  - rewrite PushFile_cases.
    destruct (existsb (String.eqb name) (includedFiles c)); [split; auto|].
    destruct (malloc_ok H (trace c)); simpl; [|split; auto].
    destruct (malloc_ok H (EvMalloc :: trace c)); simpl; [|split; auto].
    destruct (xbOpenFileInPath H name); simpl; split; auto.
  - destruct (free_incs_spec (includedFiles c) c) as (E1 & E2 & _).
    split; [exact E2|rewrite E1; auto].
  - unfold CloseParseContext; monad.
    destruct (close_files_spec (currentFile c) c) as (c' & E & _ & Hf & _).
    rewrite E; simpl; split; auto.
  - destruct (GetLine_loop_spec (currentFile c) c eq_refl)
      as (b & c1 & E & _ & _ & _ & Hf & _ & Hs & Hb).
    unfold GetLine; monad; rewrite E; destruct b; simpl; [|split; auto].
    match goal with |- context [bump_lineNumber H ?x] =>
      destruct (bump_lineNumber_spec x) as (B1 & _ & B3 & _) end.
    rewrite B1, B3; simpl; split; auto.
  - pose proof (keeps_GetToken H c) as K.
    destruct (GetToken H c) as [t c'|msg c'| |]; simpl; try (split; auto; fail);
      destruct K as (_ & _ & K3 & _ & _ & _ & K7); rewrite K3, K7; split; auto.
  - split; auto.
Qed.

Lemma run_app (ops1 ops2 : list Op) (c : ParseContext H) :
  run H (ops1 ++ ops2) c = run H ops2 (run H ops1 c).
Proof. unfold run; apply fold_left_app. Qed.

Lemma run_keeps_main (ops : list Op) (c : ParseContext H) :
  stack_ok (currentFile c) = true -> main_freed (trace c) = false ->
  stack_ok (currentFile (run H ops c)) = true /\
  main_freed (trace (run H ops c)) = false.
Proof.
  revert c; induction ops as [|op ops IH]; intros c Hs Hf; [split; assumption|].
  destruct (step_keeps_main c op) as (Ef & Hs').
  apply IH; [auto|rewrite Ef; assumption].
Qed.

(** Every operation keeps the main frame at the bottom of the stack,
    except a refill that returns failure. *)
Lemma step_main_at_bottom (c : ParseContext H) (op : Op) :
  main_at_bottom (currentFile c) = true ->
  main_at_bottom (currentFile (step H c op)) = true \/
  (op = OpGetLine /\ exists c', GetLine H c = OK false c').
Proof.
  intro Hb; destruct op as [|name| | | | |tkn]; simpl.
  - left; reflexivity.
  - left; rewrite PushFile_cases.
    destruct (existsb (String.eqb name) (includedFiles c)); auto.
    destruct (malloc_ok H (trace c)); simpl; auto.
    destruct (malloc_ok H (EvMalloc :: trace c)); simpl; auto.
    destruct (xbOpenFileInPath H name); simpl; auto.
  - left; destruct (free_incs_spec (includedFiles c) c) as (E1 & _).
    rewrite E1; exact Hb.
  - left; unfold CloseParseContext; monad.
    destruct (close_files_spec (currentFile c) c) as (c' & E & _).
    rewrite E; reflexivity.
  - destruct (GetLine_loop_spec (currentFile c) c eq_refl)
      as (b & c1 & E & _ & _ & _ & _ & _ & _ & Hl).
    unfold GetLine; monad; rewrite E; destruct b; simpl; [left|right; eauto].
    destruct Hl as (popped & f & f' & below & _ & E2 & _ & _ & Hm).
    match goal with |- context [bump_lineNumber H ?x] =>
      destruct (bump_lineNumber_spec x) as (_ & _ & _ & B4) end.
    rewrite B4; simpl; auto.
  - left; pose proof (keeps_GetToken H c) as K.
    destruct (GetToken H c) as [t c'|msg c'| |]; simpl; auto;
      destruct K as (_ & _ & K3 & _); rewrite K3; auto.
  - left; exact Hb.
Qed.

Lemma GetLine_failure_empties (c c' : ParseContext H) :
  GetLine H c = OK false c' -> currentFile c' = [].
Proof.
  destruct (GetLine_loop_spec (currentFile c) c eq_refl)
    as (b & c1 & E & _ & _ & _ & _ & _ & _ & Hl).
  unfold GetLine; monad; rewrite E; destruct b; [discriminate|].
  intro Heq; injection Heq as <-; exact Hl.
Qed.


Lemma no_main_frame (stack : list (ParseFile H)) :
  stack_ok stack = true -> main_at_bottom stack = false ->
  existsb is_main stack = false.
Proof.
  induction stack as [|f next IH]; simpl; [reflexivity|].
  destruct (is_main f); simpl; [|exact IH].
  destruct next; intros; congruence.
Qed.

Lemma no_main_not_at_bottom (stack : list (ParseFile H)) :
  existsb is_main stack = false -> main_at_bottom stack = false.
Proof.
  induction stack as [|f next IH]; simpl; [reflexivity|].
  destruct (is_main f); simpl; [discriminate|exact IH].
Qed.

Lemma frame_ref_is_main (f f' : ParseFile H) :
  frame_ref f' = frame_ref f -> is_main f' = is_main f.
Proof. destruct f, f'; simpl; congruence. Qed.

(** Once the main frame is off the stack, only RewindInput and
    CloseParseContext put it back. *)
Lemma step_main_absent (c : ParseContext H) (op : Op) :
  stack_ok (currentFile c) = true ->
  main_at_bottom (currentFile c) = false -> is_reset op = false ->
  main_at_bottom (currentFile (step H c op)) = false.
Proof.
  intros Hs Hb Hop; destruct op as [|name| | | | |tkn]; simpl;
    try discriminate Hop.
  - rewrite PushFile_cases.
    destruct (existsb (String.eqb name) (includedFiles c)); auto.
    destruct (malloc_ok H (trace c)); simpl; auto.
    destruct (malloc_ok H (EvMalloc :: trace c)); simpl; auto.
    destruct (xbOpenFileInPath H name); simpl; auto.
  - destruct (free_incs_spec (includedFiles c) c) as (E1 & _).
    rewrite E1; exact Hb.
  - destruct (GetLine_loop_spec (currentFile c) c eq_refl)
      as (b & c1 & E & _ & _ & _ & _ & _ & Hs1 & Hl).
    unfold GetLine; monad; rewrite E; destruct b; simpl;
      [|rewrite Hl; reflexivity].
    destruct Hl as (popped & f & f' & below & E1 & E2 & Ef & _).
    match goal with |- context [bump_lineNumber H ?x] =>
      destruct (bump_lineNumber_spec x) as (_ & _ & _ & B4) end.
    rewrite B4; simpl; rewrite E2.
    apply no_main_not_at_bottom.
    pose proof (no_main_frame (currentFile c) Hs Hb) as N.
    rewrite E1, existsb_app in N; simpl in N.
    apply orb_false_iff in N; destruct N as (_ & N).
    apply orb_false_iff in N; destruct N as (N1 & N2).
    simpl; rewrite (frame_ref_is_main f f' Ef), N1, N2; reflexivity.
  - pose proof (keeps_GetToken H c) as K.
    destruct (GetToken H c) as [t c'|msg c'| |]; simpl; auto;
      destruct K as (_ & _ & K3 & _); rewrite K3; auto.
  - exact Hb.
Qed.

Lemma run_main_absent (more : list Op) (c : ParseContext H) :
  stack_ok (currentFile c) = true ->
  main_at_bottom (currentFile c) = false ->
  forallb (fun op => negb (is_reset op)) more = true ->
  main_at_bottom (currentFile (run H more c)) = false.
Proof.
  revert c; induction more as [|op more IH]; intros c Hs Hb Hm;
    [exact Hb|].
  simpl in Hm; apply andb_true_iff in Hm; destruct Hm as (Hop & Hm).
  apply negb_true_iff in Hop.
  destruct (step_keeps_main c op) as (_ & Hs').
  apply IH; [auto|apply step_main_absent; assumption|exact Hm].
Qed.

(** C4, amended: the main frame is never freed and no frame is ever beneath
    it; RewindInput and CloseParseContext put it at the bottom of the stack
    and every operation keeps it there, except a line refill that returns
    failure: that refill has popped every frame, the main frame included,
    and leaves the stack empty. Once the main frame is off the stack it
    stays off, whatever is done, until RewindInput or CloseParseContext:
    an include file pushed on the empty stack is alone on it. *)
Theorem C4_main_frame_never_freed (c : ParseContext H) (ops : list Op) :
  stack_ok (currentFile c) = true ->
  main_freed (trace c) = false ->
  main_freed (trace (run H ops c)) = false /\
  stack_ok (currentFile (run H ops c)) = true /\
  main_at_bottom (currentFile (run H (ops ++ [OpRewindInput]) c)) = true /\
  main_at_bottom (currentFile (run H (ops ++ [OpCloseParseContext]) c)) = true /\
  (forall op,
     main_at_bottom (currentFile (run H ops c)) = true ->
     main_at_bottom (currentFile (run H (ops ++ [op]) c)) = true \/
     (op = OpGetLine /\
      exists c',
        GetLine H (run H ops c) = OK false c' /\ currentFile c' = [])) /\
  (forall more,
     main_at_bottom (currentFile (run H ops c)) = false ->
     forallb (fun op => negb (is_reset op)) more = true ->
     main_at_bottom (currentFile (run H (ops ++ more) c)) = false) /\
  (forall name fp,
     currentFile (run H ops c) = [] ->
     existsb (String.eqb name) (includedFiles (run H ops c)) = false ->
     malloc_ok H (trace (run H ops c)) = true ->
     malloc_ok H (EvMalloc :: trace (run H ops c)) = true ->
     xbOpenFileInPath H name = Some fp ->
     currentFile (run H (ops ++ [OpPushFile name]) c)
     = [IncludeFile fp name 0]).
Proof.
  intros Hs Hf.
  destruct (run_keeps_main ops c Hs Hf) as (Hs' & Hf').
  split; [exact Hf'|]. split; [exact Hs'|].
  split; [rewrite run_app; reflexivity|].
  split.
  { rewrite run_app; simpl; unfold CloseParseContext; monad.
    destruct (close_files_spec (currentFile (run H ops c)) (run H ops c))
      as (c' & E & _).
    rewrite E; reflexivity. }
  split.
  { intros op Hb; rewrite run_app; simpl.
    destruct (step_main_at_bottom (run H ops c) op Hb) as [L|(E & c' & G)];
      [left; exact L|right].
    split; [exact E|]. exists c'; split; [exact G|].
    exact (GetLine_failure_empties _ _ G). }
  split.
  { intros more Hb Hm; rewrite run_app.
    apply run_main_absent; assumption. }
  intros name fp He Hn Hm1 Hm2 Ho.
  rewrite run_app; simpl; rewrite PushFile_cases, Hn, Hm1, Hm2, Ho; simpl.
  rewrite He; reflexivity.
Qed.

Lemma step_include_once (c : ParseContext H) (op : Op) (name : string) :
  is_clear op = false -> In name (includedFiles c) ->
  In name (includedFiles (step H c op)) /\
  opens name (trace (step H c op)) = opens name (trace c).
Proof.
  intros Hop Hin; destruct op as [|n| | | | |tkn]; simpl; try discriminate.
  - split; auto.
  - rewrite PushFile_cases.
    destruct (existsb (String.eqb n) (includedFiles c)) eqn:Ex; [split; auto|].
    assert (Hne : String.eqb name n = false).
    { apply String.eqb_neq; intros ->.
      apply existsb_eqb_In in Hin; congruence. }
    destruct (malloc_ok H (trace c)); simpl; [|split; auto].
    destruct (malloc_ok H (EvMalloc :: trace c)); simpl; [|split; auto].
    unfold opens.
    destruct (xbOpenFileInPath H n); simpl; rewrite Hne; split; auto.
  - unfold CloseParseContext; monad.
    destruct (close_files_spec (currentFile c) c) as (c' & E & Hi & _ & Ho).
    rewrite E; simpl; rewrite Hi, Ho; split; auto.
  - destruct (GetLine_loop_spec (currentFile c) c eq_refl)
      as (b & c1 & E & Hi & _ & _ & _ & Ho & _).
    unfold GetLine; monad; rewrite E; destruct b; simpl;
      [|rewrite Hi, Ho; split; auto].
    match goal with |- context [bump_lineNumber H ?x] =>
      destruct (bump_lineNumber_spec x) as (B1 & B2 & _) end.
    rewrite B1, B2; simpl; rewrite Hi, Ho; split; auto.
  - pose proof (keeps_GetToken H c) as K.
    destruct (GetToken H c) as [t c'|msg c'| |]; simpl; auto;
      destruct K as (_ & _ & _ & K4 & _ & _ & K7); rewrite K4, K7; auto.
  - split; auto.
Qed.

(** C5: PushFile on a name that is in the included-files set returns
    success and changes nothing: no file is opened, no frame is pushed.
    From then on, until the set is cleared, no sequence of operations
    opens that file again, so its lines enter the token stream once. *)
Theorem C5_PushFile_include_once (c : ParseContext H) (name : string) :
  In name (includedFiles c) ->
  PushFile H name c = OK true c /\
  forall ops,
    forallb (fun op => negb (is_clear op)) ops = true ->
    In name (includedFiles (run H ops c)) /\
    opens name (trace (run H ops c)) = opens name (trace c).
Proof.
  intro Hin; split.
  - rewrite PushFile_cases.
    apply existsb_eqb_In in Hin; rewrite Hin; reflexivity.
  - intro ops; revert c Hin.
    induction ops as [|op ops IH]; intros c Hin Hops; [split; auto|].
    simpl in Hops; apply andb_true_iff in Hops; destruct Hops as (Hop & Hops).
    apply negb_true_iff in Hop.
    destruct (step_include_once c op name Hop Hin) as (Hin' & Ho).
    destruct (IH (step H c op) Hin' Hops) as (Hin'' & Ho').
    simpl; split; [exact Hin''|congruence].
Qed.

(** A second PushFile of the same name is always the silent success. *)
Lemma PushFile_twice (c c1 : ParseContext H) (name : string) (b : bool) :
  PushFile H name c = OK b c1 -> PushFile H name c1 = OK true c1.
Proof.
  intro E; rewrite PushFile_cases in E; rewrite PushFile_cases.
  destruct (existsb (String.eqb name) (includedFiles c)) eqn:Ex.
  - injection E as _ <-; rewrite Ex; reflexivity.
  - destruct (malloc_ok H (trace c)); simpl in E; [|discriminate].
    destruct (malloc_ok H (EvMalloc :: trace c)); simpl in E; [|discriminate].
    destruct (xbOpenFileInPath H name); injection E as _ <-; simpl;
      rewrite String.eqb_refl; reflexivity.
Qed.

(** C6: PushFile on a name that is not in the included-files set, when the
    file cannot be opened (and both allocations succeed), returns failure
    with the input stack and the current include unchanged; the name is in
    the included-files set all the same, so that a later PushFile of it is
    the silent success. *)
Theorem C6_PushFile_open_failure (c : ParseContext H) (name : string) :
  ~ In name (includedFiles c) ->
  xbOpenFileInPath H name = None ->
  malloc_ok H (trace c) = true ->
  malloc_ok H (EvMalloc :: trace c) = true ->
  exists c',
    PushFile H name c = OK false c' /\
    currentFile c' = currentFile c /\
    currentInclude c' = currentInclude c /\
    includedFiles c' = name :: includedFiles c /\
    trace c' =
      EvFreeFrame (RefFile name) :: EvOpen name :: EvMalloc :: EvMalloc
      :: trace c /\
    PushFile H name c' = OK true c'.
Proof.
  intros Hnot Hopen Hm1 Hm2.
  assert (Ex : existsb (String.eqb name) (includedFiles c) = false).
  { destruct (existsb (String.eqb name) (includedFiles c)) eqn:Ex; auto.
    apply existsb_eqb_In in Ex; contradiction. }
  rewrite PushFile_cases, Ex, Hm1, Hm2, Hopen; simpl.
  eexists; split; [reflexivity|]; simpl; repeat split.
  rewrite PushFile_cases; simpl; rewrite String.eqb_refl; reflexivity.
Qed.

End InputStack.


(** C4 as stated fails: when the main source is exhausted the refill pops
    the main frame too. *)
Lemma C4_counterexample :
  ~ (forall ops,
       main_at_bottom
         (currentFile
            (run (demoHost no_files) ops
               (demo_context no_files [chars "END"]))) = true).
Proof.
  intro A.
  specialize (A [OpRewindInput; OpGetLine; OpGetToken; OpGetLine]).
  vm_compute in A; discriminate A.
Qed.

Lemma C4_witness :
  main_freed
    (trace (run (demoHost no_files)
              [OpRewindInput; OpGetLine; OpGetToken; OpGetLine]
              (demo_context no_files [chars "END"]))) = false.
Proof.
  apply (C4_main_frame_never_freed (demoHost no_files)
           (demo_context no_files [chars "END"])
           [OpRewindInput; OpGetLine; OpGetToken; OpGetLine]);
    reflexivity.
Defined.

Lemma C5_witness :
  PushFile (demoHost no_files) "B"
    (set_includedFiles ["B"%string] (demo_context no_files []))
  = OK true (set_includedFiles ["B"%string] (demo_context no_files [])).
Proof.
  apply (C5_PushFile_include_once (demoHost no_files)
           (set_includedFiles ["B"%string] (demo_context no_files [])) "B").
  simpl; left; reflexivity.
Defined.

Lemma C6_witness :
  exists c',
    PushFile (demoHost no_files) "B" (demo_context no_files []) = OK false c' /\
    currentFile c' = [MainFile].
Proof.
  destruct (C6_PushFile_open_failure (demoHost no_files)
              (demo_context no_files []) "B")
    as (c' & E & Hs & _);
    [simpl; tauto|reflexivity|reflexivity|reflexivity|].
  exists c'; split; [exact E|exact Hs].
Defined.

(** A main source that includes B twice: B is opened once, its line is
    read once, and the second PushFile changes nothing. *)
Example include_twice_scenario :
  let c0 := demo_context files_B [chars "A1"; chars "A2"] in
  let ops1 := [OpRewindInput; OpGetLine] in
  let ops2 := ops1 ++ [OpPushFile "B"; OpGetLine] in
  let ops3 := ops2 ++ [OpGetToken; OpGetLine] in
  let ops4 := ops3 ++ [OpPushFile "B"] in
  lineBuf (run _ ops1 c0) = chars "A1" ++ [NL] /\
  lineBuf (run _ ops2 c0) = chars "END" ++ [NL] /\
  lineBuf (run _ ops3 c0) = chars "A2" ++ [NL] /\
  currentFile (run _ ops3 c0) = [MainFile] /\
  PushFile _ "B" (run _ ops3 c0) = OK true (run _ ops3 c0) /\
  opens "B" (trace (run _ ops4 c0)) = 1%nat /\
  exists c', GetLine _ (run _ ops4 c0) = OK false c'.
Proof.
  vm_compute; repeat split; eexists; reflexivity.
Qed.

(** ** String and character literals *)

Section Literals.

Variable H : Host.

Lemma is_plain_spec (ch : Z) : is_plain ch = true -> ch <> 0 /\ ch <> EOF.
Proof.
  unfold is_plain; intro E; apply andb_true_iff in E; destruct E as (A & B).
  apply negb_true_iff in A, B; split; apply Z.eqb_neq; assumption.
Qed.

Lemma LiteralChar_escape (c : ParseContext H) (e : Z) (r : list Z) :
  0 <= linePtr c -> rest c = e :: r -> is_plain e = true ->
  LiteralChar H c = OK (unescape e) (seek 1 c).
Proof.
  intros Hp Hr He; destruct (is_plain_spec e He) as (H0 & HE).
  unfold LiteralChar; monad; rewrite (XGetC_char H c e r Hp Hr H0).
  unfold unescape.
  destruct (e =? chr "n"); [reflexivity|].
  destruct (e =? chr "r"); [reflexivity|].
  destruct (e =? chr "t"); [reflexivity|].
  destruct (Z.eqb_spec e EOF); [contradiction|reflexivity].
Qed.

Lemma LiteralChar_at_end (c : ParseContext H) :
  0 <= linePtr c -> rest c = [] -> LiteralChar H c = OK BACKSLASH c.
Proof.
  intros Hp Hr; unfold LiteralChar; monad.
  rewrite (XGetC_end H c Hp) by (rewrite Hr; reflexivity); reflexivity.
Qed.

Lemma decode_string_quote (s : list Z) :
  decode_string (DQUOTE :: s) = ([], true).
Proof. reflexivity. Qed.

Lemma decode_string_escape (e : Z) (s : list Z) :
  decode_string (BACKSLASH :: e :: s)
  = (unescape e :: fst (decode_string s), snd (decode_string s)).
Proof.
  change (decode_string (BACKSLASH :: e :: s))
    with (let (d, closed) := decode_string s in (unescape e :: d, closed)).
  destruct (decode_string s); reflexivity.
Qed.

Lemma decode_string_char (ch : Z) (s : list Z) :
  ch <> DQUOTE -> ch <> BACKSLASH ->
  decode_string (ch :: s)
  = (ch :: fst (decode_string s), snd (decode_string s)).
Proof.
  intros Hq Hb; simpl.
  destruct (Z.eqb_spec ch DQUOTE); [contradiction|].
  destruct (Z.eqb_spec ch BACKSLASH); [contradiction|].
  destruct (decode_string s); reflexivity.
Qed.

(** The collecting loop of StringToken against [decode_string]. *)
Lemma StringToken_loop_spec (fuel : nat) :
  forall (r : list Z) (c : ParseContext H) (p : list Z) (len : Z),
    0 <= linePtr c -> rest c = r -> forallb is_plain r = true ->
    (List.length r < fuel)%nat ->
    len = Z.of_nat (List.length p) -> len <= MAXTOKEN H ->
    if Z.of_nat (List.length (p ++ fst (decode_string r))) >? MAXTOKEN H then
      exists c', StringToken_loop H fuel p len c = Error "String too long" c'
    else
      exists c',
        StringToken_loop H fuel p len c
        = OK (if snd (decode_string r) then DQUOTE else EOF,
              p ++ fst (decode_string r)) c'.
Proof.
  induction fuel as [|k IH]; intros r c p len Hp Hr Hpl Hf Hlen Hfit; [lia|].
  simpl StringToken_loop; monad.
  destruct r as [|ch r'].
  { rewrite (XGetC_end H c Hp) by (rewrite Hr; reflexivity); simpl.
    rewrite app_nil_r.
    destruct (Z.gtb_spec (Z.of_nat (List.length p)) (MAXTOKEN H)); [lia|].
    eexists; reflexivity. }
  simpl in Hpl; apply andb_true_iff in Hpl; destruct Hpl as (Hch & Hpl).
  destruct (is_plain_spec ch Hch) as (H0 & HE).
  rewrite (XGetC_char H c ch r' Hp Hr H0).
  destruct (Z.eqb_spec ch EOF); [contradiction|].
  assert (Hp1 : 0 <= linePtr (seek 1 c)) by (simpl; lia).
  assert (Hr1 : rest (seek 1 c) = r')
    by (rewrite rest_seek1, Hr by assumption; reflexivity).
  destruct (Z.eqb_spec ch DQUOTE) as [->|Hq]; cbn [negb andb]; cbv beta iota.
  { rewrite decode_string_quote; simpl; rewrite app_nil_r.
    destruct (Z.gtb_spec (Z.of_nat (List.length p)) (MAXTOKEN H)); [lia|].
    eexists; reflexivity. }
  destruct (Z.eqb_spec ch BACKSLASH) as [->|Hb].
  - (* an escape *)
    destruct r' as [|e r''].
    + change (decode_string [BACKSLASH]) with ([BACKSLASH], false); simpl fst; simpl snd.
      rewrite length_app; simpl List.length.
      destruct (Z.gtb_spec (len + 1) (MAXTOKEN H)) as [G|G].
      * destruct (Z.gtb_spec (Z.of_nat (List.length p + 1)) (MAXTOKEN H)); [|lia].
        eexists; reflexivity.
      * destruct (Z.gtb_spec (Z.of_nat (List.length p + 1)) (MAXTOKEN H)); [lia|].
        cbv iota; rewrite (LiteralChar_at_end _ Hp1 Hr1).
        specialize (IH [] (seek 1 c) (p ++ [BACKSLASH]) (len + 1) Hp1 Hr1
                      eq_refl).
        simpl in IH; rewrite app_nil_r, length_app in IH; simpl in IH.
        destruct (Z.gtb_spec (Z.of_nat (List.length p + 1)) (MAXTOKEN H)); [lia|].
        apply IH; simpl in Hf; lia.
    + simpl in Hpl; apply andb_true_iff in Hpl; destruct Hpl as (He & Hpl).
      rewrite decode_string_escape; simpl fst; simpl snd.
      destruct (Z.gtb_spec (len + 1) (MAXTOKEN H)) as [G|G].
      * rewrite length_app; simpl List.length.
        destruct (Z.gtb_spec
          (Z.of_nat (List.length p + S (List.length (fst (decode_string r'')))))
          (MAXTOKEN H)); [|lia].
        eexists; reflexivity.
      * cbv iota; rewrite (LiteralChar_escape _ e r'' Hp1 Hr1 He).
        assert (Hp2 : 0 <= linePtr (seek 1 (seek 1 c))) by (simpl; lia).
        assert (Hr2 : rest (seek 1 (seek 1 c)) = r'')
          by (rewrite rest_seek1, Hr1 by assumption; reflexivity).
        specialize (IH r'' (seek 1 (seek 1 c)) (p ++ [unescape e]) (len + 1)
                      Hp2 Hr2 Hpl).
        rewrite <- app_assoc in IH; simpl app in IH.
        apply IH; [simpl in Hf; lia| |lia].
        rewrite length_app; simpl; lia.
  - (* an ordinary character *)
    rewrite (decode_string_char ch r' Hq Hb); simpl fst; simpl snd.
    destruct (Z.gtb_spec (len + 1) (MAXTOKEN H)) as [G|G].
    + rewrite length_app; simpl List.length.
      destruct (Z.gtb_spec
        (Z.of_nat (List.length p + S (List.length (fst (decode_string r')))))
        (MAXTOKEN H)); [|lia].
      eexists; reflexivity.
    + cbv iota; monad.
      specialize (IH r' (seek 1 c) (p ++ [ch]) (len + 1) Hp1 Hr1 Hpl).
      rewrite <- app_assoc in IH; simpl app in IH.
      apply IH; [simpl in Hf; lia| |lia].
      rewrite length_app; simpl; lia.
Qed.


Lemma StringToken_spec (c : ParseContext H) :
  0 <= MAXTOKEN H -> 0 <= linePtr c -> forallb is_plain (rest c) = true ->
  exists c',
    StringToken H c =
    (if Z.of_nat (List.length (fst (decode_string (rest c)))) >? MAXTOKEN H
     then Error "String too long" c'
     else if snd (decode_string (rest c)) then OK T_STRING c'
     else Error "unterminated string" c') /\
    (Z.of_nat (List.length (fst (decode_string (rest c)))) <= MAXTOKEN H ->
     token c' = fst (decode_string (rest c))).
Proof.
  intros HM Hp Hpl.
  pose proof (StringToken_loop_spec (lineFuel c) (rest c) c [] 0 Hp eq_refl Hpl)
    as L.
  simpl app in L.
  assert (Hfuel : (List.length (rest c) < lineFuel c)%nat).
  { unfold lineFuel, rest. rewrite length_skipn; lia. }
  specialize (L Hfuel eq_refl HM).
  unfold StringToken; monad.
  destruct (Z.gtb_spec (Z.of_nat (List.length (fst (decode_string (rest c)))))
              (MAXTOKEN H)) as [G|G].
  - destruct L as (c' & E); rewrite E; exists c'; split; [reflexivity|lia].
  - destruct L as (c' & E); rewrite E; simpl.
    destruct (snd (decode_string (rest c))); simpl;
      eexists; split; reflexivity.
Qed.

(** The three ways StringToken can end. *)
Lemma StringToken_outcomes (c : ParseContext H) :
  0 <= MAXTOKEN H -> 0 <= linePtr c -> forallb is_plain (rest c) = true ->
  let d := fst (decode_string (rest c)) in
  let closed := snd (decode_string (rest c)) in
  (MAXTOKEN H < Z.of_nat (List.length d) ->
   exists c', StringToken H c = Error "String too long" c') /\
  (Z.of_nat (List.length d) <= MAXTOKEN H ->
   (closed = true ->
    exists c', StringToken H c = OK T_STRING c' /\ token c' = d) /\
   (closed = false ->
    exists c', StringToken H c = Error "unterminated string" c' /\
               token c' = d) /\
   ((exists c', StringToken H c = Error "unterminated string" c')
    <-> closed = false)).
Proof.
  intros HM Hp Hpl d closed.
  destruct (StringToken_spec c HM Hp Hpl) as (c' & E & Ht).
  fold d in E, Ht; fold closed in E.
  destruct (Z.gtb_spec (Z.of_nat (List.length d)) (MAXTOKEN H)) as [G|G].
  - split; [intros _; exists c'; exact E|intro; lia].
  - split; [intro; lia|intros _].
    destruct closed.
    + repeat split; try discriminate.
      * intros _; exists c'; split; [exact E|exact (Ht G)].
      * intros (c'' & E'); congruence.
    + repeat split; try discriminate.
      * intros _; exists c'; split; [exact E|exact (Ht G)].
      * intros _; exists c'; exact E.
Qed.

(** C7, amended: a string literal decodes as [decode_string] says, with
    [\n], [\r], [\t] standing for newline, carriage return and tab, any
    other escaped character for itself and a backslash at the end of the
    input for a backslash. When more than MAXTOKEN characters are decoded
    the scan fails with "String too long", closed or not; otherwise it
    fails with "unterminated string" if and only if the line ends before
    an unescaped closing double quote, and else yields a string token. *)
Theorem C7_string_literal (c : ParseContext H) :
  0 <= MAXTOKEN H -> 0 <= linePtr c -> forallb is_plain (rest c) = true ->
  let d := fst (decode_string (rest c)) in
  let closed := snd (decode_string (rest c)) in
  (MAXTOKEN H < Z.of_nat (List.length d) ->
   exists c', StringToken H c = Error "String too long" c') /\
  (Z.of_nat (List.length d) <= MAXTOKEN H ->
   (closed = true ->
    exists c', StringToken H c = OK T_STRING c' /\ token c' = d) /\
   (closed = false ->
    exists c', StringToken H c = Error "unterminated string" c' /\
               token c' = d) /\
   ((exists c', StringToken H c = Error "unterminated string" c')
    <-> closed = false)).
Proof. exact (StringToken_outcomes c). Qed.

(** The two literals of the specification. *)
Lemma string_literal_a_newline_b (c : ParseContext H) :
  3 <= MAXTOKEN H ->
  exists c',
    NextToken H (start_line ([DQUOTE] ++ chars "a\nb" ++ [DQUOTE]) c)
    = OK T_STRING c' /\
    token c' = [chr "a"; NL; chr "b"].
Proof.
  intro HM.
  set (c0 := start_line ([DQUOTE] ++ chars "a\nb" ++ [DQUOTE]) c).
  unfold NextToken; monad.
  rewrite (SkipSpaces_nonspace H c0 DQUOTE (chars "a\nb" ++ [DQUOTE; NL]))
    by (try reflexivity; try discriminate; simpl; lia).
  change (DQUOTE =? EOF) with false; change (DQUOTE =? DQUOTE) with true;
    cbv iota.
  destruct (StringToken_outcomes
              (set_tokenOffset (linePtr (seek 1 c0)) (seek 1 c0)))
    as (_ & A); [lia|simpl; lia|reflexivity|].
  destruct A as (A & _); [simpl; lia|].
  apply A; reflexivity.
Qed.

Lemma string_literal_backslash_at_line_end (c : ParseContext H) :
  2 <= MAXTOKEN H ->
  (exists c',
     NextToken H (start_line ([DQUOTE] ++ chars "a\") c)
     = Error "unterminated string" c' /\
     token c' = [chr "a"; NL]) /\
  (exists c',
     NextToken H
       (set_inComment false
          (set_linePtr 0 (set_lineBuf ([DQUOTE] ++ chars "a\") c)))
     = Error "unterminated string" c' /\
     token c' = [chr "a"; BACKSLASH]).
Proof.
  intro HM; split.
  - set (c0 := start_line ([DQUOTE] ++ chars "a\") c).
    unfold NextToken; monad.
    rewrite (SkipSpaces_nonspace H c0 DQUOTE (chars "a\" ++ [NL]))
      by (try reflexivity; try discriminate; simpl; lia).
    change (DQUOTE =? EOF) with false; change (DQUOTE =? DQUOTE) with true;
      cbv iota.
    destruct (StringToken_outcomes
                (set_tokenOffset (linePtr (seek 1 c0)) (seek 1 c0)))
      as (_ & A); [lia|simpl; lia|reflexivity|].
    destruct A as (_ & A & _); [simpl; lia|].
    apply A; reflexivity.
  - set (c0 := set_inComment false
                 (set_linePtr 0 (set_lineBuf ([DQUOTE] ++ chars "a\") c))).
    unfold NextToken; monad.
    rewrite (SkipSpaces_nonspace H c0 DQUOTE (chars "a\"))
      by (try reflexivity; try discriminate; simpl; lia).
    change (DQUOTE =? EOF) with false; change (DQUOTE =? DQUOTE) with true;
      cbv iota.
    destruct (StringToken_outcomes
                (set_tokenOffset (linePtr (seek 1 c0)) (seek 1 c0)))
      as (_ & A); [lia|simpl; lia|reflexivity|].
    destruct A as (_ & A & _); [simpl; lia|].
    apply A; reflexivity.
Qed.

(** Whatever the capacity, a literal one character longer than it that is
    never closed fails with "String too long", not "unterminated". *)
Lemma unterminated_but_too_long (c : ParseContext H) :
  0 <= MAXTOKEN H ->
  let body := repeat (chr "a") (S (Z.to_nat (MAXTOKEN H))) in
  snd (decode_string body) = false /\
  exists c',
    StringToken H (set_linePtr 0 (set_lineBuf body c))
    = Error "String too long" c'.
Proof.
  intros HM body.
  assert (Hd : forall n, decode_string (repeat (chr "a") n)
                         = (repeat (chr "a") n, false)).
  { induction n as [|n IHn]; [reflexivity|].
    simpl repeat; rewrite decode_string_char by discriminate.
    rewrite IHn; reflexivity. }
  split; [unfold body; rewrite Hd; reflexivity|].
  apply StringToken_outcomes; try assumption; simpl; try lia.
  - change (forallb is_plain body = true).
    unfold body; apply forallb_forall; intros x Hx.
    apply repeat_spec in Hx; subst; reflexivity.
  - change (MAXTOKEN H < Z.of_nat (List.length (fst (decode_string body)))).
    unfold body; rewrite Hd; cbn [fst]; rewrite repeat_length; lia.
Qed.

End Literals.

(** C7 as stated fails: a literal that the line leaves unclosed, but that
    is longer than the token buffer, fails with "String too long"; here 33
    characters against a capacity of 32. *)
Lemma C7_counterexample :
  let c := start_line (DQUOTE :: repeat (chr "a") 33)
             (demo_context no_files []) in
  ~ ((exists c', NextToken (demoHost no_files) c
                 = Error "unterminated string" c')
     <-> snd (decode_string (tl (rest c))) = false).
Proof.
  intros c (_ & A).
  destruct (A eq_refl) as (c' & E).
  vm_compute in E; discriminate E.
Qed.

Lemma C7_witness :
  exists c',
    StringToken (demoHost no_files)
      (set_lineBuf (chars "a\nb" ++ [DQUOTE; NL]) (demo_context no_files []))
    = OK T_STRING c' /\ token c' = [chr "a"; NL; chr "b"].
Proof.
  destruct (C7_string_literal (demoHost no_files)
              (set_lineBuf (chars "a\nb" ++ [DQUOTE; NL])
                 (demo_context no_files [])))
    as (_ & A); [simpl; lia|simpl; lia|reflexivity|].
  destruct A as (A & _); [simpl; lia|].
  apply A; reflexivity.
Defined.

(** ** Runs of characters: blanks, words and digits *)

Section Runs.

Variable H : Host.

Lemma seek_unget (n : Z) (c : ParseContext H) :
  seek (-1) (seek (n + 1) c) = seek n c.
Proof. rewrite seek_seek; unfold seek; f_equal; lia. Qed.

Lemma seek_0 (c : ParseContext H) : seek 0 c = c.
Proof.
  unfold seek, set_linePtr; destruct c; simpl; f_equal; lia.
Qed.

Lemma rest_seek_app (pre r : list Z) (c : ParseContext H) :
  0 <= linePtr c -> rest c = pre ++ r ->
  rest (seek (Z.of_nat (List.length pre)) c) = r.
Proof.
  revert c; induction pre as [|x pre IH]; intros c Hp Hr.
  - simpl; rewrite seek_0; exact Hr.
  - replace (Z.of_nat (List.length (x :: pre)))
      with (1 + Z.of_nat (List.length pre)) by (simpl List.length; lia).
    rewrite <- seek_seek; apply IH; [simpl; lia|].
    rewrite rest_seek1, Hr by assumption; reflexivity.
Qed.

Lemma fuel_covers_rest (c : ParseContext H) (pre r : list Z) :
  rest c = pre ++ r -> (List.length pre < lineFuel c)%nat.
Proof.
  intro Hr; unfold lineFuel.
  assert (E : List.length (rest c) = (List.length pre + List.length r)%nat)
    by (rewrite Hr; apply length_app).
  unfold rest in E; rewrite length_skipn in E; lia.
Qed.

Lemma IdentifierCharP_plain (ch : Z) :
  IdentifierCharP ch = true -> is_plain ch = true /\ ch <> SLASH.
Proof.
  unfold IdentifierCharP, isupper, islower, isdigit, between, is_plain,
    UNDERSCORE, SLASH, EOF; intro E.
  split; [|lia]. apply andb_true_iff; split; apply negb_true_iff; lia.
Qed.

Lemma isspace_plain (ch : Z) :
  isspace ch = true -> is_plain ch = true /\ ch <> SLASH.
Proof.
  unfold isspace, between, is_plain, SLASH, EOF; intro E.
  split; [|lia]. apply andb_true_iff; split; apply negb_true_iff; lia.
Qed.

Lemma GetChar_plain' (c : ParseContext H) (ch : Z) (r : list Z) :
  0 <= linePtr c -> inComment c = false -> rest c = ch :: r ->
  is_plain ch = true -> ch <> SLASH ->
  GetChar H c = OK ch (seek 1 c).
Proof.
  intros Hp Hc Hr Hpl Hs; destruct (is_plain_spec ch Hpl).
  eapply GetChar_plain; eauto.
Qed.

(** SkipSpaces over blanks up to a character that is not one. *)
Lemma SkipSpaces_loop_run (sp : list Z) :
  forall (fuel : nat) (c : ParseContext H) (ch : Z) (tail : list Z),
    0 <= linePtr c -> inComment c = false -> rest c = sp ++ ch :: tail ->
    forallb isspace sp = true -> isspace ch = false ->
    is_plain ch = true -> ch <> SLASH ->
    (List.length sp < fuel)%nat ->
    SkipSpaces_loop H fuel c
    = OK ch (seek (Z.of_nat (List.length sp) + 1) c).
Proof.
  induction sp as [|s sp IH]; intros fuel c ch tail Hp Hc Hr Hsp Hch Hpl Hs Hf;
    (destruct fuel as [|k]; [simpl in Hf; lia|]); simpl SkipSpaces_loop; monad.
  - rewrite (GetChar_plain' c ch tail Hp Hc Hr Hpl Hs).
    destruct (is_plain_spec ch Hpl) as (_ & HE).
    destruct (Z.eqb_spec ch EOF); [contradiction|]. rewrite Hch; reflexivity.
  - simpl in Hsp; apply andb_true_iff in Hsp; destruct Hsp as (Hs1 & Hsp).
    destruct (isspace_plain s Hs1) as (Hpl1 & Hns).
    rewrite (GetChar_plain' c s (sp ++ ch :: tail) Hp Hc Hr Hpl1 Hns).
    destruct (is_plain_spec s Hpl1) as (_ & HE).
    destruct (Z.eqb_spec s EOF); [contradiction|]. rewrite Hs1; simpl.
    rewrite (IH k (seek 1 c) ch tail); try assumption.
    + rewrite seek_seek; f_equal; unfold seek; f_equal; simpl List.length; lia.
    + simpl; lia.
    + rewrite rest_seek1, Hr by assumption; reflexivity.
    + simpl in Hf; lia.
Qed.

Lemma SkipSpaces_run (sp : list Z) (c : ParseContext H) (ch : Z)
    (tail : list Z) :
  0 <= linePtr c -> inComment c = false -> rest c = sp ++ ch :: tail ->
  forallb isspace sp = true -> isspace ch = false ->
  is_plain ch = true -> ch <> SLASH ->
  SkipSpaces H c = OK ch (seek (Z.of_nat (List.length sp) + 1) c).
Proof.
  intros Hp Hc Hr Hsp Hch Hpl Hs; unfold SkipSpaces, with_fuel.
  eapply SkipSpaces_loop_run; eauto using fuel_covers_rest.
Qed.

(** IdentifierToken over a word up to a character that ends it. *)
Lemma IdentifierToken_loop_run (w : list Z) :
  forall (fuel : nat) (c : ParseContext H) (p : list Z) (len t : Z)
         (tail : list Z),
    0 <= linePtr c -> inComment c = false -> rest c = w ++ t :: tail ->
    forallb IdentifierCharP w = true -> IdentifierCharP t = false ->
    is_plain t = true -> t <> SLASH ->
    (List.length w < fuel)%nat ->
    len + Z.of_nat (List.length w) <= MAXTOKEN H ->
    IdentifierToken_loop H fuel p len c
    = OK (p ++ w) (seek (Z.of_nat (List.length w) + 1) c).
Proof.
  induction w as [|x w IH]; intros fuel c p len t tail Hp Hc Hr Hw Ht Hpl Hs Hf HM;
    (destruct fuel as [|k]; [simpl in Hf; lia|]);
    simpl IdentifierToken_loop; monad.
  - rewrite (GetChar_plain' c t tail Hp Hc Hr Hpl Hs).
    rewrite Ht, andb_false_r, app_nil_r; reflexivity.
  - simpl in Hw; apply andb_true_iff in Hw; destruct Hw as (Hx & Hw).
    destruct (IdentifierCharP_plain x Hx) as (Hpl1 & Hns).
    rewrite (GetChar_plain' c x (w ++ t :: tail) Hp Hc Hr Hpl1 Hns).
    destruct (is_plain_spec x Hpl1) as (_ & HE).
    destruct (Z.eqb_spec x EOF); [contradiction|]. rewrite Hx; simpl.
    simpl List.length in HM.
    destruct (Z.gtb_spec (len + 1) (MAXTOKEN H)); [lia|].
    rewrite (IH k (seek 1 c) (p ++ [x]) (len + 1) t tail); try assumption.
    + rewrite <- app_assoc, seek_seek; f_equal.
      unfold seek; f_equal; simpl List.length; lia.
    + simpl; lia.
    + rewrite rest_seek1, Hr by assumption; reflexivity.
    + simpl in Hf; lia.
    + lia.
Qed.

Lemma IdentifierToken_word (w : list Z) (c : ParseContext H) (ch t : Z)
    (tail : list Z) :
  0 <= linePtr c -> inComment c = false -> rest c = w ++ t :: tail ->
  forallb IdentifierCharP w = true -> IdentifierCharP t = false ->
  is_plain t = true -> t <> SLASH ->
  1 + Z.of_nat (List.length w) <= MAXTOKEN H ->
  IdentifierToken H ch c
  = OK (lookup_keyword ktab (ch :: w))
       (set_token (ch :: w) (seek (Z.of_nat (List.length w)) c)).
Proof.
  intros Hp Hc Hr Hw Ht Hpl Hs HM; unfold IdentifierToken; monad.
  rewrite (IdentifierToken_loop_run w (lineFuel c) c [ch] 1 t tail);
    eauto using fuel_covers_rest.
  unfold UngetC; monad; simpl app.
  change (set_linePtr (linePtr (seek (Z.of_nat (List.length w) + 1) c) - 1)
            (seek (Z.of_nat (List.length w) + 1) c))
    with (seek (-1) (seek (Z.of_nat (List.length w) + 1) c)).
  rewrite seek_unget; reflexivity.
Qed.

(** The number loops over digits and underscores up to a character that
    is neither. *)
Lemma number_loop_run (digit : Z -> bool) (ds : list Z) :
  (forall ch, digit ch = true -> is_plain ch = true /\ ch <> SLASH) ->
  forall (fuel : nat) (c : ParseContext H) (p : list Z) (t : Z)
         (tail : list Z),
    0 <= linePtr c -> inComment c = false -> rest c = ds ++ t :: tail ->
    forallb (fun ch => digit ch || (ch =? UNDERSCORE)) ds = true ->
    digit t = false -> t <> UNDERSCORE -> is_plain t = true -> t <> SLASH ->
    (List.length ds < fuel)%nat ->
    Z.of_nat (List.length (p ++ filter digit ds)) <= MAXTOKEN H ->
    number_loop H digit fuel p c
    = OK (p ++ filter digit ds) (seek (Z.of_nat (List.length ds) + 1) c).
Proof.
  intro Hd.
  induction ds as [|x ds IH];
    intros fuel c p t tail Hp Hc Hr Hds Ht Hu Hpl Hs Hf HM;
    (destruct fuel as [|k]; [simpl in Hf; lia|]);
    simpl number_loop; monad.
  - rewrite (GetChar_plain' c t tail Hp Hc Hr Hpl Hs).
    destruct (is_plain_spec t Hpl) as (_ & HE).
    destruct (Z.eqb_spec t EOF); [contradiction|]. rewrite Ht.
    destruct (Z.eqb_spec t UNDERSCORE); [contradiction|].
    simpl; rewrite app_nil_r; reflexivity.
  - simpl in Hds; apply andb_true_iff in Hds; destruct Hds as (Hx & Hds).
    assert (Hx' : is_plain x = true /\ x <> SLASH).
    { apply orb_true_iff in Hx; destruct Hx as [Hx|Hx]; [apply Hd; exact Hx|].
      apply Z.eqb_eq in Hx; subst; split; [reflexivity|discriminate]. }
    destruct Hx' as (Hpl1 & Hns).
    rewrite (GetChar_plain' c x (ds ++ t :: tail) Hp Hc Hr Hpl1 Hns).
    destruct (is_plain_spec x Hpl1) as (_ & HE).
    destruct (Z.eqb_spec x EOF); [contradiction|].
    assert (Hp1 : 0 <= linePtr (seek 1 c)) by (simpl; lia).
    assert (Hr1 : rest (seek 1 c) = ds ++ t :: tail)
      by (rewrite rest_seek1, Hr by assumption; reflexivity).
    assert (Hseek : seek (Z.of_nat (List.length ds) + 1) (seek 1 c)
                    = seek (Z.of_nat (List.length (x :: ds)) + 1) c).
    { rewrite seek_seek; unfold seek; f_equal; simpl List.length; lia. }
    simpl filter in HM |- *; destruct (digit x) eqn:Dx.
    + unfold store; monad.
      destruct (Z.gtb_spec (Z.of_nat (List.length p) + 1) (MAXTOKEN H)) as [G|_].
      { rewrite !length_app in HM; simpl List.length in HM; lia. }
      rewrite (IH k (seek 1 c) (p ++ [x]) t tail); try assumption.
      * rewrite <- app_assoc, Hseek; reflexivity.
      * simpl in Hf; lia.
      * rewrite <- app_assoc; exact HM.
    + simpl in Hx; rewrite Hx; simpl.
      rewrite (IH k (seek 1 c) p t tail); try assumption.
      * rewrite Hseek; reflexivity.
      * simpl in Hf; lia.
Qed.

(** The same loop over a run with more digits than the token buffer has
    room for: the store of the first digit that does not fit is past the
    end of the buffer. *)
Lemma number_loop_overrun (digit : Z -> bool) (ds : list Z) :
  (forall ch, digit ch = true -> is_plain ch = true /\ ch <> SLASH) ->
  forall (fuel : nat) (c : ParseContext H) (p tail : list Z),
    0 <= linePtr c -> inComment c = false -> rest c = ds ++ tail ->
    forallb (fun ch => digit ch || (ch =? UNDERSCORE)) ds = true ->
    (List.length ds <= fuel)%nat ->
    Z.of_nat (List.length p) <= MAXTOKEN H ->
    MAXTOKEN H < Z.of_nat (List.length (p ++ filter digit ds)) ->
    number_loop H digit fuel p c = Overrun.
Proof.
  intro Hd.
  induction ds as [|x ds IH]; intros fuel c p tail Hp Hc Hr Hds Hf Hlen HM.
  { simpl in HM; rewrite app_nil_r in HM; lia. }
  destruct fuel as [|k]; [simpl in Hf; lia|].
  simpl number_loop; monad.
  simpl in Hds; apply andb_true_iff in Hds; destruct Hds as (Hx & Hds).
  assert (Hx' : is_plain x = true /\ x <> SLASH).
  { apply orb_true_iff in Hx; destruct Hx as [Hx|Hx]; [apply Hd; exact Hx|].
    apply Z.eqb_eq in Hx; subst; split; [reflexivity|discriminate]. }
  destruct Hx' as (Hpl1 & Hns).
  rewrite (GetChar_plain' c x (ds ++ tail) Hp Hc Hr Hpl1 Hns).
  destruct (is_plain_spec x Hpl1) as (_ & HE).
  destruct (Z.eqb_spec x EOF); [contradiction|].
  assert (Hp1 : 0 <= linePtr (seek 1 c)) by (simpl; lia).
  assert (Hr1 : rest (seek 1 c) = ds ++ tail)
    by (rewrite rest_seek1, Hr by assumption; reflexivity).
  simpl filter in HM; destruct (digit x) eqn:Dx.
  - destruct (store_cases H p x (seek 1 c)) as [(_ & ->)|(G & ->)];
      [reflexivity|].
    apply (IH k (seek 1 c) (p ++ [x]) tail); try assumption.
    + simpl in Hf; lia.
    + rewrite length_app; simpl List.length; lia.
    + rewrite <- app_assoc; exact HM.
  - simpl in Hx; rewrite Hx; simpl.
    apply (IH k (seek 1 c) p tail); try assumption.
    simpl in Hf; lia.
Qed.

End Runs.

(** ** Numeric literals *)

Section Numbers.

Variable H : Host.

Lemma digit_of_nonneg (ch v : Z) : digit_of ch = Some v -> 0 <= v.
Proof.
  unfold digit_of, isdigit, islower, isupper, between.
  destruct ((48 <=? ch) && (ch <=? 57)) eqn:E1;
    [intro E; injection E as <-; lia|].
  destruct ((97 <=? ch) && (ch <=? 122)) eqn:E2;
    [intro E; injection E as <-; lia|].
  destruct ((65 <=? ch) && (ch <=? 90)) eqn:E3;
    [intro E; injection E as <-; lia|discriminate].
Qed.

Lemma digits_value_positional (base : Z) (s : list Z) :
  0 <= base -> forallb (valid_digit base) s = true ->
  forall acc, 0 <= acc ->
    digits_value base acc s
    = fold_left (fun a ch => a * base + digit_val ch) s acc /\
    0 <= digits_value base acc s.
Proof.
  intro Hb; induction s as [|d s IH]; intros Hv acc Ha; simpl; [split; auto|].
  simpl in Hv; apply andb_true_iff in Hv; destruct Hv as (Hd & Hv).
  unfold valid_digit in Hd; unfold digit_val.
  destruct (digit_of d) as [v|] eqn:Ed; [|discriminate].
  rewrite Hd; apply (IH Hv).
  pose proof (digit_of_nonneg d v Ed); nia.
Qed.

Lemma filter_all (digit : Z -> bool) (ds : list Z) :
  forallb digit (filter digit ds) = true.
Proof.
  apply forallb_forall; intros x Hx; apply filter_In in Hx; tauto.
Qed.

Lemma forallb_impl (f g : Z -> bool) (l : list Z) :
  (forall x, f x = true -> g x = true) ->
  forallb f l = true -> forallb g l = true.
Proof.
  intros Hfg Hf; apply forallb_forall; intros x Hx.
  apply Hfg; revert x Hx; apply forallb_forall; exact Hf.
Qed.

Lemma isdigit_valid (ch : Z) : isdigit ch = true -> valid_digit 10 ch = true.
Proof.
  unfold valid_digit, digit_of; intro E; rewrite E.
  unfold isdigit, between in E; lia.
Qed.

Lemma isxdigit_valid (ch : Z) : isxdigit ch = true -> valid_digit 16 ch = true.
Proof.
  unfold valid_digit, digit_of, isxdigit, isdigit, islower, isupper, between.
  intro E.
  destruct ((48 <=? ch) && (ch <=? 57)) eqn:E1; [lia|].
  destruct ((97 <=? ch) && (ch <=? 122)) eqn:E2; [lia|].
  destruct ((65 <=? ch) && (ch <=? 90)) eqn:E3; lia.
Qed.

Lemma isbdigit_valid (ch : Z) : isbdigit ch = true -> valid_digit 2 ch = true.
Proof.
  unfold valid_digit, digit_of, isbdigit, isdigit, between; intro E.
  destruct ((48 <=? ch) && (ch <=? 57)) eqn:E1; lia.
Qed.

Lemma isdigit_plain (ch : Z) :
  isdigit ch = true -> is_plain ch = true /\ ch <> SLASH.
Proof.
  unfold isdigit, between, is_plain, SLASH, EOF; intro E.
  split; [|lia]. apply andb_true_iff; split; apply negb_true_iff; lia.
Qed.

Lemma isxdigit_plain (ch : Z) :
  isxdigit ch = true -> is_plain ch = true /\ ch <> SLASH.
Proof.
  unfold isxdigit, isdigit, between, is_plain, SLASH, EOF; intro E.
  split; [|lia]. apply andb_true_iff; split; apply negb_true_iff; lia.
Qed.

Lemma isbdigit_plain (ch : Z) :
  isbdigit ch = true -> is_plain ch = true /\ ch <> SLASH.
Proof.
  unfold isbdigit, is_plain, SLASH, EOF; intro E.
  split; [|lia]. apply andb_true_iff; split; apply negb_true_iff; lia.
Qed.

(** What the three number functions leave behind on a digit run. *)
Lemma NumberToken_run (c : ParseContext H) (d0 : Z) (ds : list Z) (t : Z)
    (tail : list Z) :
  digit_run isdigit c ds t tail ->
  let tok := d0 :: filter isdigit ds in
  Z.of_nat (List.length tok) <= MAXTOKEN H ->
  NumberToken H d0 c
  = OK T_NUMBER
      (set_value (to_VMVALUE H (atol H tok))
         (set_token tok (seek (Z.of_nat (List.length ds)) c))).
Proof.
  intros (Hp & Hc & Hr & Hds & Ht & Hu & Hpl & Hs) tok HM.
  unfold NumberToken, store; monad.
  destruct (Z.gtb_spec (Z.of_nat (List.length (@nil Z)) + 1) (MAXTOKEN H))
    as [G|_].
  { unfold tok in HM; simpl List.length in HM, G; lia. }
  simpl app.
  rewrite (number_loop_run H isdigit ds isdigit_plain (lineFuel c) c [d0] t tail);
    eauto using fuel_covers_rest.
  unfold UngetC; monad; simpl app.
  change (set_linePtr (linePtr (seek (Z.of_nat (List.length ds) + 1) c) - 1)
            (seek (Z.of_nat (List.length ds) + 1) c))
    with (seek (-1) (seek (Z.of_nat (List.length ds) + 1) c)).
  rewrite seek_unget; reflexivity.
Qed.

Lemma HexNumberToken_run (c : ParseContext H) (ds : list Z) (t : Z)
    (tail : list Z) :
  digit_run isxdigit c ds t tail ->
  let tok := filter isxdigit ds in
  Z.of_nat (List.length tok) <= MAXTOKEN H ->
  HexNumberToken H c
  = OK T_NUMBER
      (set_value (to_VMVALUE H (strtoul H tok 16))
         (set_token tok (seek (Z.of_nat (List.length ds)) c))).
Proof.
  intros (Hp & Hc & Hr & Hds & Ht & Hu & Hpl & Hs) tok HM.
  unfold HexNumberToken; monad.
  rewrite (number_loop_run H isxdigit ds isxdigit_plain (lineFuel c) c [] t tail);
    eauto using fuel_covers_rest.
  unfold UngetC; monad; simpl app.
  change (set_linePtr (linePtr (seek (Z.of_nat (List.length ds) + 1) c) - 1)
            (seek (Z.of_nat (List.length ds) + 1) c))
    with (seek (-1) (seek (Z.of_nat (List.length ds) + 1) c)).
  rewrite seek_unget; reflexivity.
Qed.

Lemma BinaryNumberToken_run (c : ParseContext H) (ds : list Z) (t : Z)
    (tail : list Z) :
  digit_run isbdigit c ds t tail ->
  let tok := filter isbdigit ds in
  Z.of_nat (List.length tok) <= MAXTOKEN H ->
  BinaryNumberToken H c
  = OK T_NUMBER
      (set_value (to_VMVALUE H (strtoul H tok 2))
         (set_token tok (seek (Z.of_nat (List.length ds)) c))).
Proof.
  intros (Hp & Hc & Hr & Hds & Ht & Hu & Hpl & Hs) tok HM.
  unfold BinaryNumberToken; monad.
  change (fun ch : Z => (ch =? 48) || (ch =? 49)) with isbdigit.
  rewrite (number_loop_run H isbdigit ds isbdigit_plain (lineFuel c) c [] t tail);
    eauto using fuel_covers_rest.
  unfold UngetC; monad; simpl app.
  change (set_linePtr (linePtr (seek (Z.of_nat (List.length ds) + 1) c) - 1)
            (seek (Z.of_nat (List.length ds) + 1) c))
    with (seek (-1) (seek (Z.of_nat (List.length ds) + 1) c)).
  rewrite seek_unget; reflexivity.
Qed.

(** The three number functions on a run with more digits than the token
    buffer has room for. *)
Lemma NumberToken_overrun (c : ParseContext H) (d0 : Z) (ds : list Z) (t : Z)
    (tail : list Z) :
  digit_run isdigit c ds t tail ->
  MAXTOKEN H < Z.of_nat (List.length (d0 :: filter isdigit ds)) ->
  NumberToken H d0 c = Overrun.
Proof.
  intros (Hp & Hc & Hr & Hds & _) HM.
  unfold NumberToken; unfold bind at 1.
  destruct (store_cases H [] d0 c) as [(_ & ->)|(G & ->)]; [reflexivity|].
  monad; simpl app.
  rewrite (number_loop_overrun H isdigit ds isdigit_plain (lineFuel c) c [d0]
             (t :: tail)); try assumption; try reflexivity;
    try (apply Nat.lt_le_incl, (fuel_covers_rest H c ds (t :: tail) Hr));
    simpl List.length in G |- *; lia.
Qed.

Lemma HexNumberToken_overrun (c : ParseContext H) (ds : list Z) (t : Z)
    (tail : list Z) :
  digit_run isxdigit c ds t tail ->
  MAXTOKEN H < Z.of_nat (List.length (filter isxdigit ds)) ->
  0 <= MAXTOKEN H ->
  HexNumberToken H c = Overrun.
Proof.
  intros (Hp & Hc & Hr & Hds & _) HM H0.
  unfold HexNumberToken; monad.
  rewrite (number_loop_overrun H isxdigit ds isxdigit_plain (lineFuel c) c []
             (t :: tail)); try assumption; try reflexivity;
    try (apply Nat.lt_le_incl, (fuel_covers_rest H c ds (t :: tail) Hr)).
Qed.

Lemma BinaryNumberToken_overrun (c : ParseContext H) (ds : list Z) (t : Z)
    (tail : list Z) :
  digit_run isbdigit c ds t tail ->
  MAXTOKEN H < Z.of_nat (List.length (filter isbdigit ds)) ->
  0 <= MAXTOKEN H ->
  BinaryNumberToken H c = Overrun.
Proof.
  intros (Hp & Hc & Hr & Hds & _) HM H0.
  unfold BinaryNumberToken; monad.
  change (fun ch : Z => (ch =? 48) || (ch =? 49)) with isbdigit.
  rewrite (number_loop_overrun H isbdigit ds isbdigit_plain (lineFuel c) c []
             (t :: tail)); try assumption; try reflexivity;
    try (apply Nat.lt_le_incl, (fuel_covers_rest H c ds (t :: tail) Hr)).
Qed.

(** The library conversions are the positional conversion on a string of
    valid digits whose value the result types hold. *)
Lemma atol_positional (tok : list Z) :
  forallb isdigit tok = true -> positional 10 tok <= LONG_MAX H ->
  atol H tok = positional 10 tok /\ 0 <= positional 10 tok.
Proof.
  intros Hd Hr; unfold atol, positional in *.
  destruct (digits_value_positional 10 tok) with (acc := 0) as (E & N);
    try lia.
  revert Hd; apply forallb_impl, isdigit_valid.
Qed.



Lemma small_value (z : Z) :
  16 <= VMVALUE_BITS H -> 0 <= z < 32768 -> to_VMVALUE H z = z.
Proof.
  intros Hb Hz; apply to_VMVALUE_small; [lia|].
  assert (Hpow : 2 ^ 15 <= 2 ^ (VMVALUE_BITS H - 1)) by (apply pow2_mono; lia).
  assert (E : 2 ^ 15 = 32768) by reflexivity. lia.
Qed.


Lemma rest_after_run (c : ParseContext H) (ds : list Z) (t : Z)
    (tail : list Z) (tok : list Z) (v : Z) :
  0 <= linePtr c -> rest c = ds ++ t :: tail ->
  rest (set_value v (set_token tok (seek (Z.of_nat (List.length ds)) c)))
  = t :: tail.
Proof.
  intros Hp Hr.
  change (rest (seek (Z.of_nat (List.length ds)) c) = t :: tail).
  apply rest_seek_app; assumption.
Qed.

(** The general part of C8, one number function at a time. *)
Lemma NumberToken_value (c : ParseContext H) (d0 : Z) (ds : list Z) (t : Z)
    (tail : list Z) :
  0 < VMVALUE_BITS H ->
  isdigit d0 = true -> digit_run isdigit c ds t tail ->
  let tok := d0 :: filter isdigit ds in
  Z.of_nat (List.length tok) <= MAXTOKEN H ->
  positional 10 tok <= LONG_MAX H ->
  positional 10 tok < 2 ^ (VMVALUE_BITS H - 1) ->
  exists c',
    NumberToken H d0 c = OK T_NUMBER c' /\ token c' = tok /\
    value c' = positional 10 tok /\ rest c' = t :: tail.
Proof.
  intros Hb Hd0 Hrun tok HM HL HV.
  rewrite (NumberToken_run c d0 ds t tail Hrun HM); fold tok.
  destruct Hrun as (Hp & _ & Hr & _).
  eexists; split; [reflexivity|]; simpl.
  destruct (atol_positional tok) as (E & N); [|exact HL|].
  { simpl; rewrite Hd0; apply filter_all. }
  rewrite E, to_VMVALUE_small by lia.
  repeat split; apply (rest_after_run c ds t tail tok 0 Hp Hr).
Qed.







End Numbers.



(** ** Words and compound keywords *)

Section Words.

Variable H : Host.














Lemma ident_start_tests (a : Z) :
  IdentifierCharP a = true -> isdigit a = false ->
  (a =? EOF) = false /\ (a =? DQUOTE) = false /\ (a =? SQUOTE) = false /\
  (a =? LT) = false /\ (a =? GT) = false /\ (a =? chr "0") = false /\
  isspace a = false.
Proof.
  unfold IdentifierCharP, isupper, islower, isdigit, isspace, between,
    UNDERSCORE, EOF, DQUOTE, SQUOTE, LT, GT.
  change (chr "0") with 48; intros E D.
  repeat split; lia.
Qed.


Lemma GetToken_fresh (c : ParseContext H) :
  savedToken c = T_NONE -> GetToken H c = NextToken H c.
Proof. intro E; unfold GetToken; monad; rewrite E; reflexivity. Qed.







(** C1, on the code: the recognizer rejects the character literal written
    quote, backslash, t, quote with the missing-quote error, as it does the
    unclosed literal: CharToken hands the character after the opening
    quote, here the backslash, to LiteralChar and expects the closing quote
    right after it. *)
Theorem C1_backslash_t_literal_rejected (c : ParseContext H) :
  (exists c',
     NextToken H (start_line (chars "'\t'") c)
     = Error "Expecting a closing single quote" c') /\
  (exists c',
     NextToken H (start_line (chars "'x") c)
     = Error "Expecting a closing single quote" c').
Proof.
  split.
  - exists (set_tokenOffset 1 (seek 3 (start_line (chars "'\t'") c))).
    vm_compute; reflexivity.
  - exists (set_tokenOffset 1 (seek 3 (start_line (chars "'x") c))).
    vm_compute; reflexivity.
Qed.

(** A refill from the main source. *)
Lemma GetLine_main (c : ParseContext H) (raw : list Z) (k : Cookie H)
    (below : list (ParseFile H)) :
  currentFile c = MainFile :: below ->
  main_getLine H (getLineCookie c) = Some (raw, k) ->
  exists c',
    GetLine H c = OK true c' /\
    lineBuf c' = terminate_line (c_string raw) /\ linePtr c' = 0 /\
    savedToken c' = T_NONE /\ inComment c' = inComment c /\
    currentFile c' = MainFile :: below /\ getLineCookie c' = k /\
    mainLineNumber c' = mainLineNumber c + 1.
Proof.
  destruct c; cbn [currentFile getLineCookie]; intros -> Hg.
  unfold GetLine; monad; simpl; monad; simpl; rewrite Hg.
  eexists; split; [reflexivity|]; simpl; repeat split.
Qed.

(** A refill never touches the in-comment flag. *)
Lemma GetLine_keeps_inComment (c c' : ParseContext H) (b : bool) :
  GetLine H c = OK b c' -> inComment c' = inComment c.
Proof.
  unfold GetLine; monad.
  destruct (GetLine_loop_spec H (currentFile c) c eq_refl)
    as (b1 & c1 & E & _ & Hi & _).
  rewrite E; destruct b1; intro Heq; injection Heq as _ <-; [|exact Hi].
  unfold bump_lineNumber; simpl.
  destruct (currentFile c1) as [|[|fp file n] below]; simpl; exact Hi.
Qed.

(** The first line of the example: a comment is opened and not closed; the
    character reader returns EOF with the flag set. *)
Lemma comment_line_opened (c : ParseContext H) :
  lineBuf c = chars "/* line1" ++ [NL] -> linePtr c = 0 ->
  inComment c = false -> savedToken c = T_NONE ->
  (exists r, GetChar H c = OK EOF r /\ inComment r = true) /\
  exists c',
    GetToken H c = OK T_EOL c' /\ inComment c' = true /\
    currentFile c' = currentFile c /\ getLineCookie c' = getLineCookie c.
Proof.
  destruct c; cbn [lineBuf linePtr inComment savedToken]; intros -> -> -> ->.
  split; eexists; (split; [lazy; reflexivity|]); repeat split.
Qed.

(** The second line: the comment is closed, IF follows. *)
Lemma comment_line_closed (c : ParseContext H) :
  2 <= MAXTOKEN H ->
  lineBuf c = chars "line2 */ IF" ++ [NL] -> linePtr c = 0 ->
  inComment c = true -> savedToken c = T_NONE ->
  exists c' c'',
    GetToken H c = OK T_IF c' /\ inComment c' = false /\
    GetToken H c' = OK T_EOL c'' /\ inComment c'' = false.
Proof.
  intro HM; destruct c; cbn [lineBuf linePtr inComment savedToken];
    intros -> -> -> ->.
  match goal with |- context [GetToken H ?x] => set (c0 := x) end.
  assert (E0 : SkipSpaces H c0
               = OK (chr "I") (set_inComment false (set_linePtr 10 c0)))
    by reflexivity.
  set (c1 := set_tokenOffset 10 (set_inComment false (set_linePtr 10 c0))).
  assert (E1 : IdentifierToken H (chr "I") c1
               = OK T_IF (set_token (chars "IF") (seek 1 c1))).
  { rewrite (IdentifierToken_word H [chr "F"] c1 (chr "I") NL []);
      try reflexivity; try discriminate; simpl; lia. }
  assert (E2 : GetToken H c0 = OK T_IF (set_token (chars "IF") (seek 1 c1))).
  { rewrite GetToken_fresh by reflexivity.
    unfold NextToken; monad.
    rewrite E0; eval_tests.
    change (set_tokenOffset
              (linePtr (set_inComment false (set_linePtr 10 c0)))
              (set_inComment false (set_linePtr 10 c0))) with c1.
    rewrite E1; reflexivity. }
  exists (set_token (chars "IF") (seek 1 c1)); eexists.
  split; [exact E2|]. split; [reflexivity|].
  split; reflexivity.
Qed.

(** C3: a block comment over two lines of the main source. On the first
    line the terminator is not found: the character reader returns EOF with
    the in-comment flag set and GetToken returns end-of-line; the refill
    leaves the flag as it is (it always does); on the second line the
    comment is closed, the flag cleared, and IF is the one token before the
    end of the line. *)
Theorem C3_block_comment_across_lines (c : ParseContext H)
    (k1 k2 : Cookie H) (below : list (ParseFile H)) :
  2 <= MAXTOKEN H ->
  currentFile c = MainFile :: below ->
  inComment c = false ->
  main_getLine H (getLineCookie c) = Some (chars "/* line1" ++ [NL], k1) ->
  main_getLine H k1 = Some (chars "line2 */ IF", k2) ->
  (forall (x x' : ParseContext H) (b : bool),
     GetLine H x = OK b x' -> inComment x' = inComment x) /\
  exists c1 r c2 c3 c4 c5,
    GetLine H c = OK true c1 /\
    GetChar H c1 = OK EOF r /\ inComment r = true /\
    GetToken H c1 = OK T_EOL c2 /\ inComment c2 = true /\
    GetLine H c2 = OK true c3 /\ inComment c3 = true /\
    GetToken H c3 = OK T_IF c4 /\ inComment c4 = false /\
    GetToken H c4 = OK T_EOL c5 /\ inComment c5 = false.
Proof.
  intros HM Hcf Hic Hg1 Hg2.
  split; [exact GetLine_keeps_inComment|].
  destruct (GetLine_main c _ k1 below Hcf Hg1)
    as (c1 & E1 & Hb1 & Hp1 & Hs1 & Hc1 & Hf1 & Hk1 & _).
  destruct (comment_line_opened c1)
    as ((r & Er & Hr) & c2 & E2 & Hc2 & Hf2 & Hk2);
    [exact Hb1|exact Hp1|congruence|exact Hs1|].
  destruct (GetLine_main c2 (chars "line2 */ IF") k2 below)
    as (c3 & E3 & Hb3 & Hp3 & Hs3 & Hc3 & _); [congruence|congruence|].
  destruct (comment_line_closed c3 HM) as (c4 & c5 & E4 & Hc4 & E5 & Hc5);
    [exact Hb3|exact Hp3|congruence|exact Hs3|].
  exists c1, r, c2, c3, c4, c5; repeat split; try assumption; congruence.
Qed.

End Words.

Lemma C3_witness :
  exists c1 r c2 c3 c4 c5,
    GetLine (demoHost no_files)
      (demo_context no_files [chars "/* line1" ++ [NL]; chars "line2 */ IF"])
    = OK true c1 /\
    GetChar _ c1 = OK EOF r /\ inComment r = true /\
    GetToken _ c1 = OK T_EOL c2 /\ inComment c2 = true /\
    GetLine _ c2 = OK true c3 /\ inComment c3 = true /\
    GetToken _ c3 = OK T_IF c4 /\ inComment c4 = false /\
    GetToken _ c4 = OK T_EOL c5 /\ inComment c5 = false.
Proof.
  apply (C3_block_comment_across_lines (demoHost no_files)
           (demo_context no_files
              [chars "/* line1" ++ [NL]; chars "line2 */ IF"])
           ([chars "/* line1" ++ [NL]; chars "line2 */ IF"],
            [chars "line2 */ IF"])
           ([chars "/* line1" ++ [NL]; chars "line2 */ IF"], [])
           []);
    [simpl; lia|reflexivity|reflexivity|reflexivity|reflexivity].
Defined.

Lemma C10_witness :
  exists c',
    NextToken (demoHost no_files)
      (start_line (chars "'n'") (demo_context no_files []))
    = OK T_NUMBER c' /\ value c' = NL.
Proof.
  destruct (C10_char_literal_escape_without_backslash (demoHost no_files)
              (start_line (chars "'n'") (demo_context no_files []))
              (chr "n") [NL])
    as (c' & E & _ & _ & Hn & _);
    [simpl; lia|simpl; lia|reflexivity|reflexivity
    |vm_compute; discriminate|vm_compute; discriminate
    |vm_compute; split; discriminate|].
  exists c'; split; [exact E|apply Hn; reflexivity].
Defined.

(** ** Totality: the fuel of the loops never runs out *)

Section Totality.

Variable H : Host.

Lemma avail_lt_fuel (c : ParseContext H) : (avail c < lineFuel c)%nat.
Proof.
  unfold avail, lineFuel, rest.
  destruct (linePtr c <? 0); [lia|]. rewrite length_skipn; lia.
Qed.

Lemma XGetC_progress (c : ParseContext H) :
  exists ch c',
    XGetC H c = OK ch c' /\ lineBuf c' = lineBuf c /\
    (avail c' <= avail c)%nat /\
    (ch <> EOF -> (avail c' < avail c)%nat).
Proof.
  unfold XGetC, peek.
  destruct (Z.ltb_spec (linePtr c) 0) as [Hn|Hp]; simpl.
  { exists EOF, c; repeat split; [apply Nat.le_refl|congruence]. }
  rewrite nth_hd_skipn; fold (rest c).
  destruct (Z.eqb_spec (hd 0 (rest c)) 0) as [E|N].
  { exists EOF, c; repeat split; [apply Nat.le_refl|congruence]. }
  exists (hd 0 (rest c)), (seek 1 c); split; [reflexivity|].
  split; [reflexivity|].
  unfold avail; rewrite rest_seek1 by assumption.
  change (linePtr (seek 1 c)) with (linePtr c + 1).
  destruct (Z.ltb_spec (linePtr c + 1) 0); [lia|].
  destruct (Z.ltb_spec (linePtr c) 0); [lia|].
  destruct (rest c) as [|x r]; [simpl in N; congruence|simpl; lia].
Qed.

Lemma SkipComment_loop_reads (fuel : nat) :
  forall (lastch : Z) (c : ParseContext H),
    (avail c < fuel)%nat ->
    exists b c',
      SkipComment_loop H fuel lastch c = OK b c' /\
      lineBuf c' = lineBuf c /\ (avail c' <= avail c)%nat.
Proof.
  induction fuel as [|k IH]; intros lastch c Hf; [lia|].
  simpl; monad.
  destruct (XGetC_progress c) as (ch & c1 & E & Hb & Hle & Hlt); rewrite E.
  destruct (Z.eqb_spec ch EOF) as [_|N]; [exists false, c1; repeat split; auto|].
  destruct ((lastch =? STAR) && (ch =? SLASH)); [exists true, c1; repeat split; auto|].
  specialize (Hlt N).
  destruct (IH ch c1) as (b & c' & E' & Hb' & Hle'); [lia|].
  exists b, c'; repeat split; [exact E'|congruence|lia].
Qed.

Lemma SkipComment_reads : reads_on (SkipComment H).
Proof.
  intro c; unfold SkipComment, with_fuel.
  apply SkipComment_loop_reads, avail_lt_fuel.
Qed.

Lemma skip_to_eol_reads (fuel : nat) :
  forall c : ParseContext H,
    (avail c < fuel)%nat ->
    exists c',
      skip_to_eol H fuel c = OK tt c' /\
      lineBuf c' = lineBuf c /\ (avail c' <= avail c)%nat.
Proof.
  induction fuel as [|k IH]; intros c Hf; [lia|].
  simpl; monad.
  destruct (XGetC_progress c) as (ch & c1 & E & Hb & Hle & Hlt); rewrite E.
  destruct (Z.eqb_spec ch EOF) as [_|N]; [exists c1; repeat split; auto|].
  specialize (Hlt N).
  destruct (IH c1) as (c' & E' & Hb' & Hle'); [lia|].
  exists c'; repeat split; [exact E'|congruence|lia].
Qed.

Lemma avail_unget (c : ParseContext H) :
  (avail (seek (-1) c) <= S (avail c))%nat.
Proof.
  unfold avail, rest; simpl.
  destruct (Z.ltb_spec (linePtr c + -1) 0); [lia|].
  destruct (Z.ltb_spec (linePtr c) 0); [lia|].
  replace (Z.to_nat (linePtr c)) with (S (Z.to_nat (linePtr c + -1))) by lia.
  rewrite skipn_S_tl.
  destruct (skipn (Z.to_nat (linePtr c + -1)) (lineBuf c)); simpl; lia.
Qed.

(** GetChar returns; what it returns other than EOF and a lone slash was
    read from the line. *)
Lemma GetChar_loop_progress (fuel : nat) :
  forall c : ParseContext H,
    (avail c < fuel)%nat ->
    exists ch c',
      GetChar_loop H fuel c = OK ch c' /\ lineBuf c' = lineBuf c /\
      (avail c' <= avail c)%nat /\
      (ch <> EOF -> ch <> SLASH -> (avail c' < avail c)%nat).
Proof.
  induction fuel as [|k IH]; intros c Hf; [lia|].
  simpl; monad.
  destruct (XGetC_progress c) as (ch & c1 & E & Hb & Hle & Hlt); rewrite E.
  destruct (Z.eqb_spec ch EOF) as [->|N].
  { exists EOF, c1; repeat split; auto; congruence. }
  specialize (Hlt N).
  destruct (Z.eqb_spec ch SLASH) as [->|Ns].
  2:{ exists ch, c1; repeat split; auto. }
  destruct (XGetC_progress c1) as (ch2 & c2 & E2 & Hb2 & Hle2 & _); rewrite E2.
  destruct (ch2 =? SLASH).
  { destruct (skip_to_eol_reads (lineFuel c2) c2 (avail_lt_fuel c2))
      as (c3 & E3 & Hb3 & Hle3); rewrite E3.
    destruct (IH c3) as (ch' & c' & E' & Hb' & Hle' & Hlt'); [lia|].
    exists ch', c'; repeat split; [exact E'|congruence|lia|].
    intros A B; specialize (Hlt' A B); lia. }
  destruct (ch2 =? STAR).
  { destruct (SkipComment_reads c2) as (b & c3 & E3 & Hb3 & Hle3); rewrite E3.
    destruct b.
    - destruct (IH c3) as (ch' & c' & E' & Hb' & Hle' & Hlt'); [lia|].
      exists ch', c'; repeat split; [exact E'|congruence|lia|].
      intros A B; specialize (Hlt' A B); lia.
    - exists EOF, (set_inComment true c3); repeat split;
        [simpl; congruence
        |change (avail (set_inComment true c3)) with (avail c3); lia
        |congruence]. }
  unfold UngetC; monad.
  change (set_linePtr (linePtr c2 - 1) c2) with (seek (-1) c2).
  pose proof (avail_unget c2).
  exists SLASH, (seek (-1) c2); repeat split;
    [simpl; congruence|lia|congruence].
Qed.

Lemma GetChar_progress (c : ParseContext H) :
  exists ch c',
    GetChar H c = OK ch c' /\ lineBuf c' = lineBuf c /\
    (avail c' <= avail c)%nat /\
    (ch <> EOF -> ch <> SLASH -> (avail c' < avail c)%nat).
Proof.
  unfold GetChar; monad.
  destruct (inComment c).
  - destruct (SkipComment_reads c) as (b & c1 & E & Hb & Hle); rewrite E.
    destruct b; [|exists EOF, c1; repeat split; auto; congruence].
    destruct (GetChar_loop_progress (lineFuel (set_inComment false c1))
                (set_inComment false c1) (avail_lt_fuel _))
      as (ch & c' & E' & Hb' & Hle' & Hlt').
    change (avail (set_inComment false c1)) with (avail c1) in Hle', Hlt'.
    change (lineBuf (set_inComment false c1)) with (lineBuf c1) in Hb'.
    exists ch, c'; repeat split; [exact E'|congruence|lia|].
    intros A B; specialize (Hlt' A B); lia.
  - apply GetChar_loop_progress, avail_lt_fuel.
Qed.

Lemma terminates_ret {A} (a : A) : terminates (ret H a).
Proof. intro c; discriminate. Qed.

Lemma terminates_gets {A} (f : ParseContext H -> A) : terminates (gets H f).
Proof. intro c; discriminate. Qed.

Lemma terminates_modify (f : ParseContext H -> ParseContext H) :
  terminates (modify H f).
Proof. intro c; discriminate. Qed.

Lemma terminates_error {A} (msg : string) : terminates (@ParseError H A msg).
Proof. intro c; discriminate. Qed.

Lemma terminates_bind {A B} (m : M H A) (k : A -> M H B) :
  terminates m -> (forall a, terminates (k a)) -> terminates (bind H m k).
Proof.
  intros Hm Hk c; unfold bind; specialize (Hm c).
  destruct (m c) as [a c1|msg c1| |];
    [apply Hk|discriminate|contradiction|discriminate].
Qed.

Lemma terminates_XGetC : terminates (XGetC H).
Proof.
  intro c; destruct (XGetC_progress c) as (ch & c' & E & _); rewrite E.
  discriminate.
Qed.

Lemma terminates_UngetC : terminates (UngetC H).
Proof. apply terminates_modify. Qed.

Lemma terminates_GetChar : terminates (GetChar H).
Proof.
  intro c; destruct (GetChar_progress c) as (ch & c' & E & _); rewrite E.
  discriminate.
Qed.

Lemma terminates_LiteralChar : terminates (LiteralChar H).
Proof.
  unfold LiteralChar; apply terminates_bind; [apply terminates_XGetC|].
  intro ch; repeat match goal with
    | |- terminates (if ?b then _ else _) => destruct b
    end; apply terminates_ret.
Qed.

Ltac term_step :=
  first
    [ apply terminates_ret | apply terminates_gets | apply terminates_modify
    | apply terminates_error | apply terminates_XGetC
    | apply terminates_UngetC | apply terminates_GetChar
    | apply terminates_LiteralChar
    | apply terminates_bind; [|intro]
    | match goal with
      | |- terminates (if ?b then _ else _) => destruct b
      | |- terminates (match ?x with _ => _ end) => destruct x
      end
    | assumption ].

Lemma SkipSpaces_loop_total (fuel : nat) :
  forall c : ParseContext H,
    (avail c < fuel)%nat -> SkipSpaces_loop H fuel c <> OutOfFuel.
Proof.
  induction fuel as [|k IH]; intros c Hf; [lia|].
  simpl; monad.
  destruct (GetChar_progress c) as (ch & c1 & E & _ & Hle & Hlt); rewrite E.
  destruct (Z.eqb_spec ch EOF); [discriminate|].
  destruct (isspace ch) eqn:Es; simpl; [|discriminate].
  apply IH.
  destruct (isspace_plain ch Es) as (_ & Hs); specialize (Hlt n Hs); lia.
Qed.

Lemma terminates_SkipSpaces : terminates (SkipSpaces H).
Proof.
  intro c; unfold SkipSpaces, with_fuel.
  apply SkipSpaces_loop_total, avail_lt_fuel.
Qed.

Lemma IdentifierToken_loop_total (fuel : nat) :
  forall (c : ParseContext H) (p : list Z) (len : Z),
    (avail c < fuel)%nat -> IdentifierToken_loop H fuel p len c <> OutOfFuel.
Proof.
  induction fuel as [|k IH]; intros c p len Hf; [lia|].
  simpl; monad.
  destruct (GetChar_progress c) as (ch & c1 & E & _ & Hle & Hlt); rewrite E.
  destruct (Z.eqb_spec ch EOF); simpl; [discriminate|].
  destruct (IdentifierCharP ch) eqn:Ei; [|discriminate].
  destruct (len + 1 >? MAXTOKEN H); [discriminate|].
  apply IH.
  destruct (IdentifierCharP_plain ch Ei) as (_ & Hs); specialize (Hlt n Hs); lia.
Qed.

Lemma terminates_IdentifierToken (ch : Z) : terminates (IdentifierToken H ch).
Proof.
  unfold IdentifierToken; apply terminates_bind; [|intro; repeat term_step].
  intro c; unfold with_fuel; apply IdentifierToken_loop_total, avail_lt_fuel.
Qed.

Lemma number_loop_total (digit : Z -> bool) (fuel : nat) :
  (forall ch, digit ch = true -> ch <> SLASH) ->
  forall (c : ParseContext H) (p : list Z),
    (avail c < fuel)%nat -> number_loop H digit fuel p c <> OutOfFuel.
Proof.
  intro Hd; induction fuel as [|k IH]; intros c p Hf; [lia|].
  simpl; monad.
  destruct (GetChar_progress c) as (ch & c1 & E & _ & Hle & Hlt); rewrite E.
  destruct (Z.eqb_spec ch EOF); [discriminate|].
  destruct (digit ch) eqn:Ed.
  { destruct (store_cases H p ch c1) as [(_ & ->)|(_ & ->)]; [discriminate|].
    apply IH; specialize (Hlt n (Hd ch Ed)); lia. }
  destruct (Z.eqb_spec ch UNDERSCORE) as [->|]; simpl; [|discriminate].
  apply IH.
  assert (Hs : UNDERSCORE <> SLASH) by discriminate.
  specialize (Hlt n Hs); lia.
Qed.

Lemma terminates_store (p : list Z) (ch : Z) : terminates (store H p ch).
Proof.
  intro c; destruct (store_cases H p ch c) as [(_ & ->)|(_ & ->)]; discriminate.
Qed.

Lemma terminates_NumberToken (ch : Z) : terminates (NumberToken H ch).
Proof.
  unfold NumberToken; apply terminates_bind; [apply terminates_store|intro p0].
  apply terminates_bind; [|intro; repeat term_step].
  intro c; unfold with_fuel; apply number_loop_total; [|apply avail_lt_fuel].
  intros x Hx; apply isdigit_plain; exact Hx.
Qed.

Lemma terminates_HexNumberToken : terminates (HexNumberToken H).
Proof.
  unfold HexNumberToken; apply terminates_bind; [|intro; repeat term_step].
  intro c; unfold with_fuel; apply number_loop_total; [|apply avail_lt_fuel].
  intros x Hx; apply isxdigit_plain; exact Hx.
Qed.

Lemma terminates_BinaryNumberToken : terminates (BinaryNumberToken H).
Proof.
  unfold BinaryNumberToken; apply terminates_bind; [|intro; repeat term_step].
  intro c; unfold with_fuel; apply number_loop_total; [|apply avail_lt_fuel].
  intros x Hx; apply isbdigit_plain; exact Hx.
Qed.

Lemma LiteralChar_reads : reads_on (LiteralChar H).
Proof.
  intro c; unfold LiteralChar; monad.
  destruct (XGetC_progress c) as (ch & c1 & E & Hb & Hle & _); rewrite E.
  repeat match goal with
    | |- context [if ?b then _ else _] => destruct b
    end; eexists _, c1; repeat split; auto.
Qed.

Lemma StringToken_loop_total (fuel : nat) :
  forall (c : ParseContext H) (p : list Z) (len : Z),
    (avail c < fuel)%nat -> StringToken_loop H fuel p len c <> OutOfFuel.
Proof.
  induction fuel as [|k IH]; intros c p len Hf; [lia|].
  simpl; monad.
  destruct (XGetC_progress c) as (ch & c1 & E & _ & Hle & Hlt); rewrite E.
  destruct (Z.eqb_spec ch EOF); simpl; [discriminate|].
  destruct (negb (ch =? DQUOTE)); [|discriminate].
  destruct (len + 1 >? MAXTOKEN H); [discriminate|].
  specialize (Hlt n).
  destruct (ch =? BACKSLASH).
  - destruct (LiteralChar_reads c1) as (x & c2 & E2 & _ & Hle2); rewrite E2.
    apply IH; lia.
  - monad; apply IH; lia.
Qed.

Lemma terminates_StringToken : terminates (StringToken H).
Proof.
  unfold StringToken; apply terminates_bind; [|intro; repeat term_step].
  intro c; unfold with_fuel; apply StringToken_loop_total, avail_lt_fuel.
Qed.

Lemma terminates_CharToken : terminates (CharToken H).
Proof. unfold CharToken; repeat term_step. Qed.

Lemma terminates_merge_lookahead (first : Token)
    (compound : Token -> option Token) :
  terminates (merge_lookahead H first compound).
Proof.
  unfold merge_lookahead.
  apply terminates_bind; [term_step|intro].
  apply terminates_bind; [apply terminates_SkipSpaces|intro ch].
  destruct (negb (ch =? EOF) && IdentifierCharP ch); [|repeat term_step].
  apply terminates_bind; [apply terminates_IdentifierToken|intro].
  repeat term_step.
Qed.

(** NextToken and GetToken always return or end in ParseError. *)
Theorem NextToken_terminates : terminates (NextToken H).
Proof.
  unfold NextToken.
  apply terminates_bind; [apply terminates_SkipSpaces|intro ch].
  apply terminates_bind; [term_step|intro].
  destruct (ch =? EOF); [term_step|].
  destruct (ch =? DQUOTE); [apply terminates_StringToken|].
  destruct (ch =? SQUOTE); [apply terminates_CharToken|].
  destruct (ch =? LT); [repeat term_step|].
  destruct (ch =? GT); [repeat term_step|].
  destruct (ch =? chr "0").
  { apply terminates_bind; [term_step|intro ch2].
    destruct ((ch2 =? chr "x") || (ch2 =? chr "X"));
      [apply terminates_HexNumberToken|].
    destruct ((ch2 =? chr "b") || (ch2 =? chr "B"));
      [apply terminates_BinaryNumberToken|].
    apply terminates_bind; [term_step|intro; apply terminates_NumberToken]. }
  destruct (isdigit ch); [apply terminates_NumberToken|].
  destruct (IdentifierCharP ch); [|term_step].
  apply terminates_bind; [apply terminates_IdentifierToken|intro tkn].
  unfold merge_second.
  destruct tkn; try apply terminates_merge_lookahead; term_step.
Qed.

Theorem GetToken_terminates : terminates (GetToken H).
Proof.
  unfold GetToken; apply terminates_bind; [term_step|intro tkn].
  destruct (negb (is_T_NONE tkn)); [repeat term_step|].
  apply NextToken_terminates.
Qed.

End Totality.

(** ** More on the input stream manager *)

Section InputStackMore.

Variable H : Host.

Lemma same_scan_refl (c : ParseContext H) : same_scan c c.
Proof. repeat split. Qed.

(** The refill loop, exactly: it pops the frames that are at their end,
    releasing the include files among them, and stops at the first frame
    that gives a line, or at the empty stack. *)
Lemma GetLine_loop_exact (stack : list (ParseFile H)) :
  forall c, currentFile c = stack ->
  exists popped remaining c1,
    stack = popped ++ remaining /\
    forallb (exhausted c) popped = true /\
    currentFile c1 = remaining /\
    trace c1 = released popped (trace c) /\
    same_scan c c1 /\
    getLineCookie c1 = getLineCookie c /\
    mainLineNumber c1 = mainLineNumber c /\
    includedFiles c1 = includedFiles c /\
    (popped = [] -> c1 = c) /\
    (popped <> [] -> currentInclude c1 = include_of remaining) /\
    match remaining with
    | [] => GetLine_loop H stack c = OK false c1
    | f :: below =>
        exists raw f' ck' c2,
          delivers c f raw f' ck' /\
          GetLine_loop H stack c = OK true c2 /\
          lineBuf c2 = c_string raw /\
          currentFile c2 = f' :: below /\
          getLineCookie c2 = ck' /\
          trace c2 = trace c1 /\
          mainLineNumber c2 = mainLineNumber c /\
          includedFiles c2 = includedFiles c /\
          currentInclude c2 = currentInclude c1 /\
          linePtr c2 = linePtr c /\ savedToken c2 = savedToken c /\
          inComment c2 = inComment c /\ token c2 = token c /\
          value c2 = value c /\ tokenOffset c2 = tokenOffset c
    end.
Proof.
  induction stack as [|f next IH]; intros c Hc.
  - exists [], [], c; simpl; repeat split; auto; congruence.
  - destruct (exhausted c f) eqn:Ex.
    + (* popped *)
      set (c0 := set_currentInclude (include_of next) (set_currentFile next c)).
      assert (Hstep : exists c0',
                currentFile c0' = next /\ getLineCookie c0' = getLineCookie c /\
                trace c0' = released [f] (trace c) /\ same_scan c c0' /\
                mainLineNumber c0' = mainLineNumber c /\
                includedFiles c0' = includedFiles c /\
                currentInclude c0' = include_of next /\
                GetLine_loop H (f :: next) c = GetLine_loop H next c0').
      { destruct f as [|fp file n]; simpl in Ex; simpl; monad.
        - destruct (main_getLine H (getLineCookie c)) as [[raw ck']|];
            [discriminate|].
          exists c0; repeat split.
        - destruct (xbGetLine H fp) as [[raw fp']|]; [discriminate|].
          exists (log (EvFreeFrame (RefFile file)) (log (EvClose file) c0)).
          repeat split. }
      destruct Hstep as (c0' & Hf0 & Hk0 & Ht0 & Hs0 & Hm0 & Hi0 & Hci0 & E0).
      destruct (IH c0' Hf0)
        as (popped & remaining & c1 & E1 & Hex & Hf1 & Ht1 & Hs1 & Hk1 & Hm1
            & Hi1 & Hnil & Hne & Hres).
      exists (f :: popped), remaining, c1.
      assert (Hexh : forall g, exhausted c0' g = exhausted c g).
      { intro g; destruct g; simpl; [rewrite Hk0|]; reflexivity. }
      split; [simpl; rewrite E1; reflexivity|].
      split.
      { simpl; rewrite Ex; simpl.
        rewrite <- Hex; clear - Hexh.
        induction popped as [|g l IHl]; simpl; [reflexivity|].
        rewrite Hexh, IHl; reflexivity. }
      split; [exact Hf1|].
      split.
      { rewrite Ht1, Ht0; destruct f; reflexivity. }
      split.
      { destruct Hs0 as (A1&A2&A3&A4&A5&A6&A7).
        destruct Hs1 as (B1&B2&B3&B4&B5&B6&B7).
        repeat split; congruence. }
      split; [congruence|]. split; [congruence|]. split; [congruence|].
      split; [discriminate|].
      split.
      { intros _; destruct popped as [|g popped'].
        - rewrite (Hnil eq_refl); simpl in E1; subst remaining; exact Hci0.
        - apply Hne; discriminate. }
      rewrite E0.
      destruct remaining as [|g below]; [exact Hres|].
      destruct Hres as (raw & f' & ck' & c2 & Hd & E2 & R).
      exists raw, f', ck', c2.
      split.
      { unfold delivers in *; destruct g; [rewrite <- Hk0|rewrite <- Hk0];
          exact Hd. }
      split; [exact E2|].
      destruct Hs0 as (A1&A2&A3&A4&A5&A6&A7).
      destruct R as (R1&R2&R3&R4&R5&R6&R7&R8&R9&R10&R11&R12&R13).
      repeat split; congruence.
    + (* the frame gives a line *)
      exists [], (f :: next), c; simpl.
      repeat split; auto; try congruence.
      destruct f as [|fp file n]; simpl in Ex; simpl; monad.
      * destruct (main_getLine H (getLineCookie c)) as [[raw ck']|] eqn:Eg;
          [|discriminate].
        exists raw, MainFile, ck'; eexists.
        split; [split; [reflexivity|first [exact Eg|reflexivity]]|].
        split; [reflexivity|]; simpl; repeat split; auto.
      * destruct (xbGetLine H fp) as [[raw fp']|] eqn:Eg; [|discriminate].
        exists raw, (IncludeFile fp' file n), (getLineCookie c); eexists.
        split; [split; [reflexivity|exists fp'; split; [first [exact Eg|reflexivity]|reflexivity]]|].
        split; [reflexivity|]; simpl; repeat split; auto.
Qed.


Lemma terminate_line_cases (l : list Z) :
  (exists body, l = body ++ [NL] /\ terminate_line l = l) \/
  ((l = [] \/ last l 0 <> NL) /\ terminate_line l = l ++ [NL]).
Proof.
  unfold terminate_line.
  destruct l as [|x l'] eqn:El; [right; split; auto|rewrite <- El].
  assert (Hne : l <> []) by (rewrite El; discriminate).
  replace (Z.of_nat (List.length l) =? 0) with false
    by (rewrite El; reflexivity).
  simpl orb; destruct (Z.eqb_spec (last l 0) NL) as [E|N]; simpl.
  - left; exists (removelast l); split; [|reflexivity].
    rewrite <- E; apply app_removelast_last; assumption.
  - right; split; auto.
Qed.

Lemma c_string_no_NUL (raw : list Z) : Forall (fun ch => ch <> 0) (c_string raw).
Proof.
  induction raw as [|x r IH]; simpl; [constructor|].
  destruct (Z.eqb_spec x 0); constructor; assumption.
Qed.

Lemma c_string_prefix (raw : list Z) :
  exists junk, raw = c_string raw ++ junk /\
               (junk = [] \/ exists r, junk = 0 :: r).
Proof.
  induction raw as [|x r (junk & E & Hj)]; simpl.
  - exists []; auto.
  - destruct (Z.eqb_spec x 0) as [->|N].
    + exists (0 :: r); split; [reflexivity|right; eauto].
    + exists junk; split; [simpl; congruence|exact Hj].
Qed.

Lemma GetLine_pops_spec (c c' : ParseContext H) (b : bool) :
  GetLine H c = OK b c' ->
  exists popped remaining,
    currentFile c = popped ++ remaining /\
    forallb (exhausted c) popped = true /\
    trace c' = released popped (trace c) /\
    includedFiles c' = includedFiles c /\
    if b then
      exists f f' below raw ck',
        remaining = f :: below /\ delivers c f raw f' ck' /\
        currentFile c' = match f' with
                         | MainFile => MainFile
                         | IncludeFile fp file n => IncludeFile fp file (n + 1)
                         end :: below /\
        getLineCookie c' = ck'
    else remaining = [] /\ currentFile c' = [].
Proof.
  unfold GetLine; monad.
  destruct (GetLine_loop_exact (currentFile c) c eq_refl)
    as (popped & remaining & c1 & E1 & Hex & Hf1 & Ht1 & Hs1 & Hk1 & Hm1 & Hi1
        & _ & _ & Hres).
  destruct remaining as [|f below].
  - rewrite Hres; intro Heq; injection Heq as <- <-.
    exists popped, []; repeat split; assumption.
  - destruct Hres as (raw & f' & ck' & c2 & Hd & E2 & R1 & R2 & R3 & R4 & R5
                      & R6 & _).
    rewrite E2; intro Heq; injection Heq as <- <-.
    exists popped, (f :: below).
    split; [exact E1|]. split; [exact Hex|].
    unfold bump_lineNumber; simpl; rewrite R2.
    destruct f' as [|fp file n]; simpl;
      (split; [congruence|]); (split; [congruence|]);
      eexists f, _, below, raw, ck'; repeat split; eauto.
Qed.


(** X2: a refill that returns failure leaves the scanner's own state as it
    was: the old line stays in the buffer, the cursor and the saved token
    are not reset; and every further refill fails again and changes
    nothing. *)
Theorem GetLine_failure_is_stable (c c' : ParseContext H) :
  GetLine H c = OK false c' ->
  same_scan c c' /\ currentFile c' = [] /\
  mainLineNumber c' = mainLineNumber c /\
  getLineCookie c' = getLineCookie c /\
  GetLine H c' = OK false c'.
Proof.
  unfold GetLine at 1; monad.
  destruct (GetLine_loop_exact (currentFile c) c eq_refl)
    as (popped & remaining & c1 & E1 & Hex & Hf1 & Ht1 & Hs1 & Hk1 & Hm1 & Hi1
        & _ & _ & Hres).
  destruct remaining as [|f below].
  - rewrite Hres; intro Heq; injection Heq as <-.
    repeat split; try apply Hs1; try assumption.
    unfold GetLine; monad; rewrite Hf1; reflexivity.
  - destruct Hres as (raw & f' & ck' & c2 & Hd & E2 & _).
    rewrite E2; discriminate.
Qed.

(** X3: after a successful refill the line buffer holds the C string the
    frame's line source wrote, with one newline added unless that string
    already ends in one (the empty string becomes the newline alone); it
    holds no NUL, and the cursor is at its first character. *)
Theorem GetLine_line_buffer (c c' : ParseContext H) :
  GetLine H c = OK true c' ->
  exists popped f below raw f' ck',
    currentFile c = popped ++ f :: below /\
    delivers c f raw f' ck' /\
    ((exists body, c_string raw = body ++ [NL] /\
                   lineBuf c' = c_string raw) \/
     ((c_string raw = [] \/ last (c_string raw) 0 <> NL) /\
      lineBuf c' = c_string raw ++ [NL])) /\
    Forall (fun ch => ch <> 0) (lineBuf c') /\
    rest c' = lineBuf c'.
Proof.
  unfold GetLine; monad.
  destruct (GetLine_loop_exact (currentFile c) c eq_refl)
    as (popped & remaining & c1 & E1 & _ & _ & _ & _ & _ & _ & _ & _ & _
        & Hres).
  destruct remaining as [|f below]; [rewrite Hres; discriminate|].
  destruct Hres as (raw & f' & ck' & c2 & Hd & E2 & R1 & R2 & _).
  rewrite E2; intro Heq; injection Heq as <-.
  exists popped, f, below, raw, f', ck'.
  split; [exact E1|]. split; [exact Hd|].
  assert (Hb : lineBuf
                 (set_savedToken T_NONE
                    (bump_lineNumber H
                       (set_linePtr 0
                          (set_lineBuf (terminate_line (lineBuf c2)) c2))))
               = terminate_line (c_string raw)).
  { unfold bump_lineNumber; simpl; rewrite R2, R1.
    destruct f'; reflexivity. }
  assert (Hp : linePtr
                 (set_savedToken T_NONE
                    (bump_lineNumber H
                       (set_linePtr 0
                          (set_lineBuf (terminate_line (lineBuf c2)) c2))))
               = 0).
  { unfold bump_lineNumber; simpl; rewrite R2; destruct f'; reflexivity. }
  unfold rest; rewrite Hp, Hb; simpl skipn.
  split; [|split; [|reflexivity]].
  - destruct (terminate_line_cases (c_string raw)) as [(body & Eb & Et)|(Hc & Et)];
      rewrite Et; [left; exists body; auto|right; auto].
  - destruct (terminate_line_cases (c_string raw)) as [(body & Eb & Et)|(Hc & Et)];
      rewrite Et; [apply c_string_no_NUL|].
    apply Forall_app; split; [apply c_string_no_NUL|].
    constructor; [discriminate|constructor].
Qed.


Lemma close_files_exact (stack : list (ParseFile H)) :
  forall c, exists files below c',
    stack = files ++ below /\
    forallb (fun f => negb (is_main f)) files = true /\
    match below with [] => True | f :: _ => is_main f = true end /\
    close_files H stack c = OK tt c' /\
    trace c' = released files (trace c) /\
    same_scan c c' /\
    currentFile c' = currentFile c /\
    currentInclude c' = currentInclude c /\
    includedFiles c' = includedFiles c /\
    getLineCookie c' = getLineCookie c /\
    mainLineNumber c' = mainLineNumber c.
Proof.
  induction stack as [|f next IH]; intro c.
  - exists [], [], c; simpl; repeat split.
  - destruct f as [|fp file n].
    + exists [], (MainFile :: next), c; simpl; repeat split.
    + simpl; monad; simpl.
      destruct (IH (log (EvFreeFrame (RefFile file)) (log (EvClose file) c)))
        as (files & below & c' & E & Hfi & Hb & Ec & Ht & Hs & R).
      exists (IncludeFile fp file n :: files), below, c'.
      split; [simpl; congruence|]. split; [exact Hfi|]. split; [exact Hb|].
      split; [exact Ec|]. split; [exact Ht|]. split; [exact Hs|exact R].
Qed.

Lemma CloseParseContext_spec (c : ParseContext H) :
  exists files below c',
    currentFile c = files ++ below /\
    forallb (fun f => negb (is_main f)) files = true /\
    match below with [] => True | f :: _ => is_main f = true end /\
    CloseParseContext H c = OK tt c' /\
    trace c' = released files (trace c) /\
    currentFile c' = [MainFile] /\ currentInclude c' = None /\
    same_scan c c' /\ includedFiles c' = includedFiles c /\
    getLineCookie c' = getLineCookie c /\
    mainLineNumber c' = mainLineNumber c /\
    CloseParseContext H c' = OK tt c'.
Proof.
  destruct (close_files_exact (currentFile c) c)
    as (files & below & c1 & E & Hfi & Hb & Ec & Ht & Hs & R1 & R2 & R3
        & R4 & R5).
  exists files, below; eexists.
  split; [exact E|]. split; [exact Hfi|]. split; [exact Hb|].
  unfold CloseParseContext; monad; rewrite Ec.
  split; [reflexivity|]; simpl.
  repeat split; try apply Hs; assumption.
Qed.

(** X4: CloseParseContext closes and frees, once each and top first, every
    include file above the main frame (or all of them when the main frame
    is not on the stack), leaves the main frame alone on the stack with no
    current include, and touches neither the scanner's state nor the
    included-files set. A second call does nothing. *)
Theorem CloseParseContext_releases_includes (c : ParseContext H) :
  exists files below c',
    currentFile c = files ++ below /\
    forallb (fun f => negb (is_main f)) files = true /\
    match below with [] => True | f :: _ => is_main f = true end /\
    CloseParseContext H c = OK tt c' /\
    trace c' = released files (trace c) /\
    currentFile c' = [MainFile] /\ currentInclude c' = None /\
    same_scan c c' /\ includedFiles c' = includedFiles c /\
    getLineCookie c' = getLineCookie c /\
    mainLineNumber c' = mainLineNumber c /\
    CloseParseContext H c' = OK tt c'.
Proof. exact (CloseParseContext_spec c). Qed.

Lemma frames_app (name : string) (l1 l2 : list (ParseFile H)) :
  frames name (l1 ++ l2) = (frames name l1 + frames name l2)%nat.
Proof. unfold frames; rewrite filter_app, length_app; reflexivity. Qed.

Lemma released_counts (name : string) (popped : list (ParseFile H)) :
  forall tr,
    closes name (released popped tr)
    = (closes name tr + frames name popped)%nat /\
    frees name (released popped tr)
    = (frees name tr + frames name popped)%nat /\
    opens name (released popped tr) = opens name tr.
Proof.
  induction popped as [|f l IH]; intro tr; simpl.
  - unfold frames; simpl; repeat split; lia.
  - destruct f as [|fp file n].
    + destruct (IH tr) as (A & B & C).
      change (frames name (MainFile :: l)) with (frames name l).
      repeat split; assumption.
    + destruct (IH (EvFreeFrame (RefFile file) :: EvClose file :: tr))
        as (A & B & C).
      rewrite A, B, C.
      unfold closes, frees, opens, frames; simpl.
      destruct (String.eqb name file); simpl; repeat split; lia.
Qed.

Lemma frames_of_main_below (name : string) (below : list (ParseFile H)) :
  stack_ok below = true ->
  match below with [] => True | f :: _ => is_main f = true end ->
  frames name below = O.
Proof.
  destruct below as [|f l]; [reflexivity|].
  simpl; intros Hs Hm; rewrite Hm in Hs.
  destruct l; [|discriminate].
  destruct f; [reflexivity|discriminate].
Qed.

Lemma stack_ok_app (l1 l2 : list (ParseFile H)) :
  stack_ok (l1 ++ l2) = true -> stack_ok l2 = true.
Proof.
  induction l1 as [|f l IH]; simpl; [auto|].
  destruct (is_main f); [|exact IH].
  destruct (l ++ l2) eqn:E; [|discriminate].
  apply app_eq_nil in E; destruct E as (_ & ->); reflexivity.
Qed.

Lemma frames_bump (name : string) (c : ParseContext H) :
  frames name (currentFile (bump_lineNumber H c))
  = frames name (currentFile c) /\
  trace (bump_lineNumber H c) = trace c.
Proof.
  unfold bump_lineNumber, frames.
  destruct (currentFile c) as [|[|fp file n] below] eqn:E; simpl;
    rewrite ?E; simpl; try destruct (String.eqb name file);
    split; reflexivity.
Qed.


Lemma free_incs_counts (name : string) (l : list string) (c : ParseContext H) :
  let c' := fold_left (fun c' n => log (EvFreeInc n) c') l c in
  closes name (trace c') = closes name (trace c) /\
  frees name (trace c') = frees name (trace c).
Proof.
  revert c; induction l as [|n l IH]; intro c; simpl; [split; reflexivity|].
  destruct (IH (log (EvFreeInc n) c)) as (A & B); split; assumption.
Qed.

(** What an operation does to the counts of a file name: it releases [k]
    frames of it (closed and freed), frees [e] frames whose file could not
    be opened, pushes [p] frames, and drops [d] frames unreleased; it drops
    none unless it is RewindInput or frames lie beneath the main frame. *)
Lemma step_counts (c : ParseContext H) (op : Op) (name : string) :
  exists k e p d : nat,
    closes name (trace (step H c op)) = (closes name (trace c) + k)%nat /\
    frees name (trace (step H c op)) = (frees name (trace c) + k + e)%nat /\
    opens name (trace (step H c op)) = (opens name (trace c) + e + p)%nat /\
    (frames name (currentFile c) + p
     = frames name (currentFile (step H c op)) + k + d)%nat /\
    (is_rewind op = false -> stack_ok (currentFile c) = true -> d = O).
Proof.
  destruct op as [|n| | | | |tkn]; simpl.
  - exists O, O, O, (frames name (currentFile c)).
    unfold closes, frees, opens; simpl.
    repeat split; try lia; try discriminate.
  - rewrite PushFile_cases.
    destruct (existsb (String.eqb n) (includedFiles c));
      [exists O, O, O, O; simpl; repeat split; lia|].
    destruct (malloc_ok H (trace c)); simpl;
      [|exists O, O, O, O; unfold closes, frees, opens; simpl;
        repeat split; lia].
    destruct (malloc_ok H (EvMalloc :: trace c)); simpl;
      [|exists O, O, O, O; unfold closes, frees, opens; simpl;
        repeat split; lia].
    destruct (xbOpenFileInPath H n) as [fp|]; simpl.
    + unfold closes, frees, opens, frames; simpl.
      destruct (String.eqb name n); simpl;
        [exists O, O, 1%nat, O|exists O, O, O, O]; repeat split; lia.
    + unfold closes, frees, opens, frames; simpl.
      destruct (String.eqb name n); simpl;
        [exists O, 1%nat, O, O|exists O, O, O, O]; repeat split; lia.
  - destruct (free_incs_spec H (includedFiles c) c) as (E1 & _ & E3).
    destruct (free_incs_counts name (includedFiles c) c) as (E4 & E5).
    exists O, O, O, O; rewrite E1, E3, E4, E5; repeat split; lia.
  - destruct (CloseParseContext_spec c)
      as (files & below & c' & E & _ & Hb & Ec & Ht & Hf & _).
    rewrite Ec; simpl.
    destruct (released_counts name files (trace c)) as (A & B & C).
    exists (frames name files), O, O, (frames name below).
    rewrite Ht, Hf, A, B, C, E, frames_app.
    repeat split; try lia; try (unfold frames; simpl; lia).
    intros _ Hs.
    apply frames_of_main_below; [exact (stack_ok_app _ _ Hs)|exact Hb].
  - destruct (GetLine_returns H c) as (b & c' & Eg); rewrite Eg; simpl.
    destruct (GetLine_pops_spec c c' b Eg)
      as (popped & remaining & E & _ & Ht & _ & Hr).
    destruct (released_counts name popped (trace c)) as (A & B & C).
    exists (frames name popped), O, O, O.
    rewrite Ht, A, B, C, E, frames_app.
    repeat split; try lia.
    destruct b.
    + destruct Hr as (f & f' & below & raw & ck' & -> & Hd & Hc & _).
      rewrite Hc; unfold frames; simpl.
      destruct f as [|fp file n]; simpl in Hd.
      * destruct Hd as (-> & _); simpl; lia.
      * destruct Hd as (_ & fp' & _ & ->); simpl.
        destruct (String.eqb name file); simpl; lia.
    + destruct Hr as (-> & ->); unfold frames; simpl; lia.
  - pose proof (keeps_GetToken H c) as K.
    exists O, O, O, O.
    destruct (GetToken H c) as [t c'|msg c'| |]; simpl;
      try (destruct K as (_ & _ & K3 & _ & _ & _ & K7); rewrite K3, K7);
      repeat split; lia.
  - exists O, O, O, O; repeat split; lia.
Qed.

(** X5: whatever the operations, an include file is never closed more often
    than a frame of it was freed, and the frames of it freed or still on
    the stack never exceed the times it was opened: no handle is closed
    twice, no frame freed twice. *)
Theorem no_double_release (ops : list Op) (c : ParseContext H) :
  handles_ok c -> handles_ok (run H ops c).
Proof.
  revert c; induction ops as [|op ops IH]; intros c Hc; [exact Hc|].
  simpl; apply IH; intro name.
  destruct (Hc name) as (A & B).
  destruct (step_counts c op name) as (k & e & p & d & E1 & E2 & E3 & E4 & _).
  split; lia.
Qed.

(** X6: as long as RewindInput is not among the operations, every frame
    allocated for an include file is on the stack or has been freed; so
    after CloseParseContext all of them have been freed. RewindInput is
    the exception: it unlinks the frames above the main frame without
    closing or freeing them. *)
Theorem no_leak_without_rewind (ops : list Op) (c : ParseContext H) :
  forallb (fun op => negb (is_rewind op)) ops = true ->
  stack_ok (currentFile c) = true -> no_leak c ->
  no_leak (run H ops c) /\
  forall name,
    frees name (trace (run H (ops ++ [OpCloseParseContext]) c))
    = opens name (trace (run H (ops ++ [OpCloseParseContext]) c)).
Proof.
  assert (Hrun : forall ops c,
            forallb (fun op => negb (is_rewind op)) ops = true ->
            stack_ok (currentFile c) = true -> no_leak c ->
            no_leak (run H ops c) /\ stack_ok (currentFile (run H ops c)) = true).
  { clear ops c; induction ops as [|op ops IH]; intros c Hops Hs Hc;
      [split; assumption|].
    simpl in Hops; apply andb_true_iff in Hops; destruct Hops as (Hop & Hops).
    apply negb_true_iff in Hop.
    simpl; apply IH; [exact Hops|apply step_keeps_main; exact Hs|].
    intro name; specialize (Hc name).
    destruct (step_counts c op name)
      as (k & e & p & d & E1 & E2 & E3 & E4 & E5).
    specialize (E5 Hop Hs); lia. }
  intros Hops Hs Hc.
  destruct (Hrun ops c Hops Hs Hc) as (Hn & Hs').
  split; [exact Hn|].
  intro name.
  destruct (Hrun (ops ++ [OpCloseParseContext]) c) as (Hn2 & _);
    [rewrite forallb_app, Hops; reflexivity|exact Hs|exact Hc|].
  specialize (Hn2 name).
  assert (Hf : currentFile (run H (ops ++ [OpCloseParseContext]) c)
               = [MainFile]).
  { rewrite run_app; simpl.
    destruct (CloseParseContext_spec (run H ops c))
      as (files & below & c' & _ & _ & _ & Ec & _ & Hf & _).
    rewrite Ec; exact Hf. }
  rewrite Hf in Hn2; unfold frames in Hn2; simpl in Hn2; lia.
Qed.

End InputStackMore.

Lemma no_double_release_witness :
  handles_ok
    (run (demoHost files_B)
       [OpRewindInput; OpGetLine; OpPushFile "B"; OpGetLine; OpGetLine;
        OpCloseParseContext]
       (demo_context files_B [chars "A1"; chars "A2"])).
Proof.
  apply (no_double_release (demoHost files_B)).
  intro name; split; [apply Nat.le_refl|apply Nat.le_refl].
Defined.

Lemma no_leak_without_rewind_witness :
  no_leak
    (run (demoHost files_B)
       [OpGetLine; OpPushFile "B"; OpGetLine; OpGetLine]
       (demo_context files_B [chars "A1"; chars "A2"])).
Proof.
  apply (no_leak_without_rewind (demoHost files_B));
    [reflexivity|reflexivity|intro name; reflexivity].
Defined.


Lemma GetLine_failure_is_stable_witness :
  exists c',
    GetLine (demoHost no_files) (demo_context no_files []) = OK false c' /\
    GetLine (demoHost no_files) c' = OK false c'.
Proof.
  eexists; split; [reflexivity|].
  apply (GetLine_failure_is_stable (demoHost no_files)
           (demo_context no_files [])).
  reflexivity.
Defined.

Lemma GetLine_line_buffer_witness :
  exists c',
    GetLine (demoHost no_files) (demo_context no_files [chars "END"])
    = OK true c' /\ rest c' = lineBuf c'.
Proof.
  eexists; split; [reflexivity|].
  destruct (GetLine_line_buffer (demoHost no_files)
              (demo_context no_files [chars "END"]) _ eq_refl)
    as (popped & f & below & raw & f' & ck' & _ & _ & _ & _ & E).
  exact E.
Defined.

(** ** The included-files set and the saved token *)

Section IncludeSet.

Variable H : Host.

Lemma free_incs_trace (l : list string) (c : ParseContext H) :
  let c' := fold_left (fun c' n => log (EvFreeInc n) c') l c in
  trace c' = rev (map EvFreeInc l) ++ trace c /\
  same_scan c c' /\ includedFiles c' = includedFiles c /\
  currentInclude c' = currentInclude c /\
  getLineCookie c' = getLineCookie c /\
  mainLineNumber c' = mainLineNumber c.
Proof.
  revert c; induction l as [|n l IH]; intro c; simpl; [repeat split|].
  destruct (IH (log (EvFreeInc n) c)) as (A & B & C & D & E & F).
  rewrite A; simpl; rewrite <- app_assoc; simpl.
  repeat split; try apply B; assumption.
Qed.

Lemma step_includedFiles_NoDup (c : ParseContext H) (op : Op) :
  NoDup (includedFiles c) -> NoDup (includedFiles (step H c op)).
Proof.
  intro Hn; destruct op as [|n| | | | |tkn]; simpl; auto.
  - rewrite PushFile_cases.
    destruct (existsb (String.eqb n) (includedFiles c)) eqn:Ex; [exact Hn|].
    assert (Hnot : ~ In n (includedFiles c)).
    { intro Hin; apply existsb_eqb_In in Hin; congruence. }
    destruct (malloc_ok H (trace c)); simpl; [|exact Hn].
    destruct (malloc_ok H (EvMalloc :: trace c)); simpl;
      [|constructor; assumption].
    destruct (xbOpenFileInPath H n); simpl; constructor; assumption.
  - constructor.
  - destruct (CloseParseContext_spec H c)
      as (files & below & c' & _ & _ & _ & Ec & _ & _ & _ & _ & Hi & _).
    rewrite Ec; simpl; rewrite Hi; exact Hn.
  - destruct (GetLine_returns H c) as (b & c' & Eg); rewrite Eg; simpl.
    destruct (GetLine_pops_spec H c c' b Eg)
      as (popped & remaining & _ & _ & _ & Hi & _).
    rewrite Hi; exact Hn.
  - pose proof (keeps_GetToken H c) as K.
    destruct (GetToken H c) as [t c'|msg c'| |]; simpl; auto;
      destruct K as (_ & _ & _ & K4 & _); rewrite K4; exact Hn.
Qed.

(** X7: the included-files list never holds a name twice, whatever the
    operations; so ClearIncludedFiles, which frees one record for each
    entry of the list and empties it, frees no record twice. *)
Theorem included_files_distinct (ops : list Op) (c : ParseContext H) :
  NoDup (includedFiles c) ->
  NoDup (includedFiles (run H ops c)) /\
  exists c',
    ClearIncludedFiles H (run H ops c) = OK tt c' /\
    includedFiles c' = [] /\ currentInclude c' = None /\
    currentFile c' = currentFile (run H ops c) /\
    trace c'
    = rev (map EvFreeInc (includedFiles (run H ops c)))
      ++ trace (run H ops c) /\
    NoDup (map EvFreeInc (includedFiles (run H ops c))).
Proof.
  intro Hn.
  assert (Hrun : NoDup (includedFiles (run H ops c))).
  { revert c Hn; induction ops as [|op ops IH]; intros c Hn; [exact Hn|].
    simpl; apply IH, step_includedFiles_NoDup, Hn. }
  split; [exact Hrun|].
  set (c1 := run H ops c) in *.
  destruct (free_incs_trace (includedFiles c1) c1) as (A & _).
  destruct (free_incs_spec H (includedFiles c1) c1) as (B & _).
  eexists; split; [reflexivity|]; simpl.
  repeat split; try assumption.
  clear -Hrun; induction Hrun as [|x l Hx Hl IH]; simpl; constructor; auto.
  rewrite in_map_iff; intros (y & E & Hy); injection E as ->; contradiction.
Qed.

(** X8: after ClearIncludedFiles a file included before is opened again by
    PushFile (the two allocations succeeding): the silent success of a
    repeated include lasts only until the set is cleared. *)
Theorem ClearIncludedFiles_allows_reinclude (c : ParseContext H)
    (name : string) :
  let c1 := step H c OpClearIncludedFiles in
  In name (includedFiles c) ->
  malloc_ok H (trace c1) = true ->
  malloc_ok H (EvMalloc :: trace c1) = true ->
  opens name (trace (step H c (OpPushFile name))) = opens name (trace c) /\
  opens name (trace (step H c1 (OpPushFile name)))
  = S (opens name (trace c)) /\
  (forall fp, xbOpenFileInPath H name = Some fp ->
     currentFile (step H c1 (OpPushFile name))
     = IncludeFile fp name 0 :: currentFile c).
Proof.
  intros c1 Hin Hm1 Hm2.
  destruct (free_incs_spec H (includedFiles c) c) as (E1 & _ & E3).
  split.
  { simpl; rewrite PushFile_cases.
    apply existsb_eqb_In in Hin; rewrite Hin; reflexivity. }
  assert (Ei : includedFiles c1 = []) by reflexivity.
  assert (Ef : currentFile c1 = currentFile c) by exact E1.
  assert (Eo : opens name (trace c1) = opens name (trace c)) by apply E3.
  change (step H c1 (OpPushFile name))
    with (after (PushFile H name c1) c1).
  rewrite PushFile_cases, Ei, Hm1, Hm2; simpl.
  destruct (xbOpenFileInPath H name) as [fp|]; simpl.
  - split.
    + unfold opens in *; simpl; rewrite String.eqb_refl; simpl.
      f_equal; exact Eo.
    + intros fp' E; injection E as <-; f_equal; exact Ef.
  - split; [|discriminate].
    unfold opens in *; simpl; rewrite String.eqb_refl; simpl.
    f_equal; exact Eo.
Qed.

(** X9: a successful PushFile puts the file on top of the stack at line
    number 0 and makes it the current include; the next refill then gives
    the first line of that file, at line number 1, with the frames beneath
    left as they were. *)
Theorem PushFile_then_GetLine (c c1 : ParseContext H) (name : string)
    (fp fp' : FILE H) (raw : list Z) :
  ~ In name (includedFiles c) ->
  xbOpenFileInPath H name = Some fp ->
  xbGetLine H fp = Some (raw, fp') ->
  PushFile H name c = OK true c1 ->
  currentFile c1 = IncludeFile fp name 0 :: currentFile c /\
  currentInclude c1 = Some name /\
  exists c2,
    GetLine H c1 = OK true c2 /\
    lineBuf c2 = terminate_line (c_string raw) /\
    currentFile c2 = IncludeFile fp' name 1 :: currentFile c /\
    currentInclude c2 = Some name /\
    getLineCookie c2 = getLineCookie c /\
    mainLineNumber c2 = mainLineNumber c.
Proof.
  intros Hnot Hopen Hget E.
  rewrite PushFile_cases in E.
  destruct (existsb (String.eqb name) (includedFiles c)) eqn:Ex.
  { apply existsb_eqb_In in Ex; contradiction. }
  destruct (malloc_ok H (trace c)); simpl in E; [|discriminate].
  destruct (malloc_ok H (EvMalloc :: trace c)); simpl in E; [|discriminate].
  rewrite Hopen in E; injection E as <-.
  split; [reflexivity|]. split; [reflexivity|].
  unfold GetLine; monad; simpl; monad; simpl; rewrite Hget.
  eexists; split; [reflexivity|]; simpl; repeat split.
Qed.

(** X10: SaveToken followed by GetToken gives the saved token back and
    clears it, reading nothing from the line; a second SaveToken before
    the GetToken replaces the first; and saving T_NONE saves nothing:
    GetToken then scans the line. *)
Theorem SaveToken_then_GetToken (c : ParseContext H) (k k0 : Token) :
  k <> T_NONE ->
  bind H (SaveToken H k) (fun _ => GetToken H) c
  = OK k (set_savedToken T_NONE c) /\
  bind H (SaveToken H k0) (fun _ => bind H (SaveToken H k)
                                      (fun _ => GetToken H)) c
  = OK k (set_savedToken T_NONE c) /\
  bind H (SaveToken H T_NONE) (fun _ => GetToken H) c
  = NextToken H (set_savedToken T_NONE c) /\
  (savedToken c = T_NONE -> set_savedToken T_NONE c = c).
Proof.
  intro Hk; unfold SaveToken, GetToken; monad; simpl.
  destruct k; try contradiction; repeat split;
    intro E; destruct c; simpl in E; subst; reflexivity.
Qed.

End IncludeSet.

Lemma included_files_distinct_witness :
  NoDup
    (includedFiles
       (run (demoHost files_B) [OpPushFile "B"; OpPushFile "B"]
          (demo_context files_B []))).
Proof.
  apply (included_files_distinct (demoHost files_B)
           [OpPushFile "B"; OpPushFile "B"] (demo_context files_B [])).
  constructor.
Defined.

Lemma ClearIncludedFiles_allows_reinclude_witness :
  opens "B"
    (trace
       (step (demoHost files_B)
          (step (demoHost files_B)
             (set_includedFiles ["B"%string] (demo_context files_B []))
             OpClearIncludedFiles)
          (OpPushFile "B")))
  = 1%nat.
Proof.
  apply (ClearIncludedFiles_allows_reinclude (demoHost files_B)
           (set_includedFiles ["B"%string] (demo_context files_B [])) "B");
    [simpl; auto|reflexivity|reflexivity].
Defined.

Lemma PushFile_then_GetLine_witness :
  exists c1 c2,
    PushFile (demoHost files_B) "B" (demo_context files_B []) = OK true c1 /\
    GetLine (demoHost files_B) c1 = OK true c2 /\
    lineBuf c2 = chars "END" ++ [NL].
Proof.
  pose (c1 := after (PushFile (demoHost files_B) "B"
                      (demo_context files_B [])) (demo_context files_B [])).
  destruct (PushFile_then_GetLine (demoHost files_B)
              (demo_context files_B []) c1 "B" [chars "END"] [] (chars "END"))
    as (_ & _ & c2 & E & Hb & _);
    [simpl; tauto|reflexivity|reflexivity|reflexivity|].
  exists c1, c2; split; [reflexivity|]. split; [exact E|exact Hb].
Defined.

Lemma SaveToken_then_GetToken_witness :
  bind (demoHost no_files) (SaveToken _ T_IF) (fun _ => GetToken _)
    (demo_context no_files [])
  = OK T_IF (set_savedToken T_NONE (demo_context no_files [])).
Proof.
  apply (SaveToken_then_GetToken (demoHost no_files)
           (demo_context no_files []) T_IF T_IF).
  discriminate.
Defined.

(** ** Comments in the character reader *)

Section Comments.

Variable H : Host.

Lemma plain_not_0 (ch : Z) : is_plain ch = true -> ch <> 0.
Proof. intro E; apply (is_plain_spec ch E). Qed.

Lemma plain_not_EOF (ch : Z) : is_plain ch = true -> (ch =? EOF) = false.
Proof. intro E; apply Z.eqb_neq, (is_plain_spec ch E). Qed.

Lemma seek_S (n : nat) (c : ParseContext H) :
  seek (Z.of_nat n) (seek 1 c) = seek (Z.of_nat (S n)) c.
Proof. rewrite seek_seek; unfold seek; f_equal; lia. Qed.

Lemma rest_nil_end (c : ParseContext H) :
  0 <= linePtr c -> rest c = [] -> XGetC H c = OK EOF c.
Proof. intros Hp Hr; apply XGetC_end; [exact Hp|rewrite Hr; reflexivity]. Qed.

(** SkipComment over a text that does not close the comment. *)
Lemma SkipComment_loop_open (s : list Z) :
  forall (fuel : nat) (c : ParseContext H) (lastch : Z),
    0 <= linePtr c -> rest c = s -> forallb is_plain s = true ->
    has_close (lastch :: s) = false -> (List.length s < fuel)%nat ->
    SkipComment_loop H fuel lastch c
    = OK false (seek (Z.of_nat (List.length s)) c).
Proof.
  induction s as [|x s IH]; intros fuel c lastch Hp Hr Hpl Hn Hf;
    (destruct fuel as [|k]; [simpl in Hf; lia|]);
    simpl SkipComment_loop; monad.
  - rewrite (rest_nil_end c Hp Hr); simpl; rewrite seek_0; reflexivity.
  - simpl in Hpl; apply andb_true_iff in Hpl; destruct Hpl as (Hx & Hpl).
    rewrite (XGetC_char H c x s Hp Hr (plain_not_0 x Hx)).
    rewrite (plain_not_EOF x Hx).
    change (has_close (lastch :: x :: s))
      with (((lastch =? STAR) && (x =? SLASH)) || has_close (x :: s)) in Hn.
    apply orb_false_iff in Hn; destruct Hn as (Hn1 & Hn2); rewrite Hn1.
    rewrite (IH k (seek 1 c) x); try assumption.
    + rewrite seek_S; reflexivity.
    + simpl; lia.
    + rewrite rest_seek1, Hr by assumption; reflexivity.
    + simpl in Hf; lia.
Qed.

(** SkipComment up to the first place where the comment is closed. *)
Lemma SkipComment_loop_close (body : list Z) :
  forall (fuel : nat) (c : ParseContext H) (lastch : Z) (r : list Z),
    0 <= linePtr c -> rest c = body ++ STAR :: SLASH :: r ->
    forallb is_plain body = true ->
    has_close (lastch :: body) = false ->
    (List.length body + 1 < fuel)%nat ->
    SkipComment_loop H fuel lastch c
    = OK true (seek (Z.of_nat (List.length body) + 2) c).
Proof.
  induction body as [|x body IH]; intros fuel c lastch r Hp Hr Hpl Hn Hf;
    (destruct fuel as [|k]; [simpl in Hf; lia|]);
    simpl SkipComment_loop; monad.
  - simpl in Hr.
    rewrite (XGetC_char H c STAR (SLASH :: r) Hp Hr) by discriminate.
    change (STAR =? EOF) with false; change (STAR =? SLASH) with false.
    rewrite andb_false_r.
    destruct k as [|k]; [simpl in Hf; lia|]; simpl SkipComment_loop; monad.
    rewrite (XGetC_char H (seek 1 c) SLASH r);
      [|simpl; lia|rewrite rest_seek1, Hr by assumption; reflexivity
       |discriminate].
    change (SLASH =? EOF) with false; change (STAR =? STAR) with true.
    change (SLASH =? SLASH) with true; simpl.
    rewrite seek_seek; reflexivity.
  - simpl in Hpl; apply andb_true_iff in Hpl; destruct Hpl as (Hx & Hpl).
    simpl in Hr.
    rewrite (XGetC_char H c x _ Hp Hr (plain_not_0 x Hx)).
    rewrite (plain_not_EOF x Hx).
    change (has_close (lastch :: x :: body))
      with (((lastch =? STAR) && (x =? SLASH)) || has_close (x :: body)) in Hn.
    apply orb_false_iff in Hn; destruct Hn as (Hn1 & Hn2); rewrite Hn1.
    rewrite (IH k (seek 1 c) x r); try assumption.
    + rewrite seek_seek.
      replace (1 + (Z.of_nat (List.length body) + 2))
        with (Z.of_nat (List.length (x :: body)) + 2)
        by (simpl List.length; lia).
      reflexivity.
    + simpl; lia.
    + rewrite rest_seek1, Hr by assumption; reflexivity.
    + simpl in Hf; lia.
Qed.

Lemma has_close_from_0 (s : list Z) : has_close (0 :: s) = has_close s.
Proof. destruct s; reflexivity. Qed.

Lemma skip_to_eol_run (s : list Z) :
  forall (fuel : nat) (c : ParseContext H),
    0 <= linePtr c -> rest c = s -> forallb is_plain s = true ->
    (List.length s < fuel)%nat ->
    skip_to_eol H fuel c = OK tt (seek (Z.of_nat (List.length s)) c).
Proof.
  induction s as [|x s IH]; intros fuel c Hp Hr Hpl Hf;
    (destruct fuel as [|k]; [simpl in Hf; lia|]);
    simpl skip_to_eol; monad.
  - rewrite (rest_nil_end c Hp Hr); simpl; rewrite seek_0; reflexivity.
  - simpl in Hpl; apply andb_true_iff in Hpl; destruct Hpl as (Hx & Hpl).
    rewrite (XGetC_char H c x s Hp Hr (plain_not_0 x Hx)).
    rewrite (plain_not_EOF x Hx).
    rewrite (IH k (seek 1 c)); try assumption.
    + rewrite seek_S; reflexivity.
    + simpl; lia.
    + rewrite rest_seek1, Hr by assumption; reflexivity.
    + simpl in Hf; lia.
Qed.

Lemma rest_length_fuel (c : ParseContext H) :
  (List.length (rest c) < lineFuel c)%nat.
Proof.
  unfold lineFuel, rest; rewrite length_skipn; lia.
Qed.

Lemma rest_seek_all (c : ParseContext H) (s : list Z) :
  0 <= linePtr c -> rest c = s ->
  rest (seek (Z.of_nat (List.length s)) c) = [].
Proof.
  intros Hp Hr; apply rest_seek_app; [exact Hp|].
  rewrite app_nil_r; exact Hr.
Qed.

Lemma lineBuf_nonempty (c : ParseContext H) (x : Z) (r : list Z) :
  rest c = x :: r -> exists k, List.length (lineBuf c) = S k.
Proof.
  intro Hr; pose proof (rest_length_fuel c) as L; rewrite Hr in L.
  unfold lineFuel in L; simpl in L.
  destruct (List.length (lineBuf c)) as [|k]; [lia|exists k; reflexivity].
Qed.

Lemma XGetC_two (c : ParseContext H) (a b : Z) (r : list Z) :
  0 <= linePtr c -> rest c = a :: b :: r -> a <> 0 -> b <> 0 ->
  XGetC H c = OK a (seek 1 c) /\ XGetC H (seek 1 c) = OK b (seek 2 c) /\
  0 <= linePtr (seek 2 c) /\ rest (seek 2 c) = r /\
  inComment (seek 2 c) = inComment c /\ lineBuf (seek 2 c) = lineBuf c.
Proof.
  intros Hp Hr Ha Hb.
  assert (R1 : rest (seek 1 c) = b :: r)
    by (rewrite rest_seek1, Hr by assumption; reflexivity).
  assert (P1 : 0 <= linePtr (seek 1 c)) by (simpl; lia).
  split; [apply (XGetC_char H c a (b :: r)); assumption|].
  split.
  { rewrite (XGetC_char H (seek 1 c) b r P1 R1 Hb), seek_seek; reflexivity. }
  split; [simpl; lia|]. split; [|split; reflexivity].
  change 2 with (1 + 1); rewrite <- seek_seek, rest_seek1, R1 by assumption.
  reflexivity.
Qed.

Lemma GetChar_comment_spec (c : ParseContext H) (s : list Z) :
  0 <= linePtr c -> forallb is_plain s = true ->
  (inComment c = false -> rest c = SLASH :: SLASH :: s ->
   exists c',
     GetChar H c = OK EOF c' /\ rest c' = [] /\ inComment c' = false /\
     0 <= linePtr c' /\ lineBuf c' = lineBuf c) /\
  (inComment c = false -> rest c = SLASH :: STAR :: s ->
   has_close s = false ->
   exists c',
     GetChar H c = OK EOF c' /\ rest c' = [] /\ inComment c' = true /\
     0 <= linePtr c' /\ lineBuf c' = lineBuf c) /\
  (inComment c = true -> rest c = s -> has_close s = false ->
   exists c',
     GetChar H c = OK EOF c' /\ rest c' = [] /\ inComment c' = true /\
     0 <= linePtr c' /\ lineBuf c' = lineBuf c).
Proof.
  intros Hp Hpl; split; [|split].
  - intros Hc Hr.
    destruct (XGetC_two c SLASH SLASH s Hp Hr) as (X1 & X2 & P2 & R2 & C2 & B2);
      try discriminate.
    destruct (lineBuf_nonempty c _ _ Hr) as (k & Ek).
    unfold GetChar; monad; rewrite Hc; unfold lineFuel; rewrite Ek.
    simpl GetChar_loop; monad; rewrite X1.
    change (SLASH =? EOF) with false; change (SLASH =? SLASH) with true.
    cbv beta iota; rewrite X2.
    change (SLASH =? SLASH) with true; cbv beta iota.
    rewrite (skip_to_eol_run s (lineFuel (seek 2 c)) (seek 2 c) P2 R2 Hpl)
      by (rewrite <- R2 at 1; apply rest_length_fuel).
    set (c3 := seek (Z.of_nat (List.length s)) (seek 2 c)).
    assert (R3 : rest c3 = []) by (apply rest_seek_all; assumption).
    assert (P3 : 0 <= linePtr c3) by (simpl; lia).
    simpl GetChar_loop; monad; rewrite (rest_nil_end c3 P3 R3).
    exists c3; repeat split; try assumption.
  - intros Hc Hr Hn.
    destruct (XGetC_two c SLASH STAR s Hp Hr) as (X1 & X2 & P2 & R2 & C2 & B2);
      try discriminate.
    unfold GetChar; monad; rewrite Hc; unfold lineFuel.
    simpl GetChar_loop; monad; rewrite X1.
    change (SLASH =? EOF) with false; change (SLASH =? SLASH) with true.
    cbv beta iota; rewrite X2.
    change (STAR =? SLASH) with false; change (STAR =? STAR) with true.
    cbv beta iota; unfold SkipComment; monad.
    rewrite (SkipComment_loop_open s (lineFuel (seek 2 c)) (seek 2 c) 0 P2 R2 Hpl)
      by (first [rewrite has_close_from_0; exact Hn
                |rewrite <- R2 at 1; apply rest_length_fuel]).
    set (c3 := seek (Z.of_nat (List.length s)) (seek 2 c)).
    exists (set_inComment true c3); repeat split.
    + change (rest c3 = []); apply rest_seek_all; assumption.
    + simpl; lia.
  - intros Hc Hr Hn.
    unfold GetChar; monad; rewrite Hc; unfold SkipComment; monad.
    rewrite (SkipComment_loop_open s (lineFuel c) c 0 Hp Hr Hpl)
      by (first [rewrite has_close_from_0; exact Hn
                |rewrite <- Hr at 1; apply rest_length_fuel]).
    exists (seek (Z.of_nat (List.length s)) c); repeat split.
    + apply rest_seek_all; assumption.
    + exact Hc.
    + simpl; lia.
Qed.

(** X11: what the character reader makes of a comment that runs to the
    end of the line. Two slashes: the rest of the line is skipped and the
    reader is at the end of the line, outside any comment. A slash and a
    star with no closing star-slash after them, or a line read inside a
    comment that holds no star-slash: the rest of the line is skipped and
    the reader is at the end of the line, inside the comment. *)
Theorem GetChar_comment_to_end_of_line (c : ParseContext H) (s : list Z) :
  0 <= linePtr c -> forallb is_plain s = true ->
  (inComment c = false -> rest c = SLASH :: SLASH :: s ->
   exists c',
     GetChar H c = OK EOF c' /\ rest c' = [] /\ inComment c' = false /\
     0 <= linePtr c' /\ lineBuf c' = lineBuf c) /\
  (inComment c = false -> rest c = SLASH :: STAR :: s ->
   has_close s = false ->
   exists c',
     GetChar H c = OK EOF c' /\ rest c' = [] /\ inComment c' = true /\
     0 <= linePtr c' /\ lineBuf c' = lineBuf c) /\
  (inComment c = true -> rest c = s -> has_close s = false ->
   exists c',
     GetChar H c = OK EOF c' /\ rest c' = [] /\ inComment c' = true /\
     0 <= linePtr c' /\ lineBuf c' = lineBuf c).
Proof. exact (GetChar_comment_spec c s). Qed.

Lemma GetChar_closed_comment_spec (c : ParseContext H) (body : list Z)
    (ch : Z) (r : list Z) :
  0 <= linePtr c -> forallb is_plain body = true ->
  has_close body = false ->
  is_plain ch = true -> ch <> SLASH ->
  (inComment c = false ->
   rest c = SLASH :: STAR :: body ++ STAR :: SLASH :: ch :: r ->
   exists c',
     GetChar H c = OK ch c' /\ rest c' = r /\ inComment c' = false /\
     0 <= linePtr c' /\ lineBuf c' = lineBuf c) /\
  (inComment c = true ->
   rest c = body ++ STAR :: SLASH :: ch :: r ->
   exists c',
     GetChar H c = OK ch c' /\ rest c' = r /\ inComment c' = false /\
     0 <= linePtr c' /\ lineBuf c' = lineBuf c).
Proof.
  intros Hp Hpl Hn Hch Hs.
  assert (Step : forall c2 : ParseContext H,
            0 <= linePtr c2 -> lineBuf c2 = lineBuf c ->
            rest c2 = body ++ STAR :: SLASH :: ch :: r ->
            exists c3,
              SkipComment_loop H (lineFuel c2) 0 c2 = OK true c3 /\
              0 <= linePtr c3 /\ rest c3 = ch :: r /\
              lineBuf c3 = lineBuf c /\ inComment c3 = inComment c2 /\
              XGetC H c3 = OK ch (seek 1 c3) /\ rest (seek 1 c3) = r).
  { intros c2 P2 B2 R2.
    rewrite (SkipComment_loop_close body (lineFuel c2) c2 0 (ch :: r) P2 R2 Hpl).
    - set (c3 := seek (Z.of_nat (List.length body) + 2) c2).
      assert (P3 : 0 <= linePtr c3) by (simpl; lia).
      assert (R3 : rest c3 = ch :: r).
      { unfold c3.
        replace (Z.of_nat (List.length body) + 2)
          with (Z.of_nat (List.length (body ++ [STAR; SLASH])))
          by (rewrite length_app; simpl; lia).
        apply rest_seek_app; [exact P2|].
        rewrite R2, <- app_assoc; reflexivity. }
      exists c3; repeat split; try assumption.
      + apply (XGetC_char H c3 ch r P3 R3 (plain_not_0 ch Hch)).
      + rewrite rest_seek1, R3 by assumption; reflexivity.
    - rewrite has_close_from_0; exact Hn.
    - pose proof (rest_length_fuel c2) as L; rewrite R2, length_app in L.
      simpl in L; lia. }
  split.
  - intros Hc Hr.
    destruct (XGetC_two c SLASH STAR _ Hp Hr) as (X1 & X2 & P2 & R2 & C2 & B2);
      try discriminate.
    destruct (Step (seek 2 c) P2 B2 R2) as (c3 & E3 & P3 & R3 & B3 & C3 & X3 & R4).
    assert (Ek : exists k, List.length (lineBuf c) = S (S k)).
    { pose proof (rest_length_fuel c) as L; rewrite Hr in L.
      unfold lineFuel in L; simpl in L.
      destruct (List.length (lineBuf c)) as [|[|k]]; try lia.
      exists k; reflexivity. }
    destruct Ek as (k & Ek).
    unfold GetChar; monad; rewrite Hc; unfold lineFuel; rewrite Ek.
    simpl GetChar_loop; monad; rewrite X1.
    change (SLASH =? EOF) with false; change (SLASH =? SLASH) with true.
    cbv beta iota; rewrite X2.
    change (STAR =? SLASH) with false; change (STAR =? STAR) with true.
    cbv beta iota; unfold SkipComment; monad; rewrite E3, X3.
    rewrite (plain_not_EOF ch Hch).
    destruct (Z.eqb_spec ch SLASH); [contradiction|].
    exists (seek 1 c3); repeat split; try assumption.
    + simpl; congruence.
    + simpl; lia.
  - intros Hc Hr.
    destruct (Step c Hp eq_refl Hr) as (c3 & E3 & P3 & R3 & B3 & C3 & X3 & R4).
    unfold GetChar; monad; rewrite Hc; unfold SkipComment; monad; rewrite E3.
    assert (Ek : exists k, lineFuel (set_inComment false c3) = S k)
      by (eexists; reflexivity).
    destruct Ek as (k & Ek); rewrite Ek.
    simpl GetChar_loop; monad.
    rewrite (XGetC_char H (set_inComment false c3) ch r P3 R3
               (plain_not_0 ch Hch)).
    rewrite (plain_not_EOF ch Hch).
    destruct (Z.eqb_spec ch SLASH); [contradiction|].
    exists (seek 1 (set_inComment false c3)); repeat split; try assumption.
    simpl; lia.
Qed.

(** X12: a block comment that is closed on the line is no character at
    all: the reader returns the character after the closing star-slash,
    whether the comment was opened on this line or on an earlier one; in
    the second case the in-comment flag is cleared. The comment ends at
    the first star-slash; the star of the opening slash-star is not the
    star of a closing one. *)
Theorem GetChar_closed_block_comment (c : ParseContext H) (body : list Z)
    (ch : Z) (r : list Z) :
  0 <= linePtr c -> forallb is_plain body = true ->
  has_close body = false ->
  is_plain ch = true -> ch <> SLASH ->
  (inComment c = false ->
   rest c = SLASH :: STAR :: body ++ STAR :: SLASH :: ch :: r ->
   exists c',
     GetChar H c = OK ch c' /\ rest c' = r /\ inComment c' = false /\
     0 <= linePtr c' /\ lineBuf c' = lineBuf c) /\
  (inComment c = true ->
   rest c = body ++ STAR :: SLASH :: ch :: r ->
   exists c',
     GetChar H c = OK ch c' /\ rest c' = r /\ inComment c' = false /\
     0 <= linePtr c' /\ lineBuf c' = lineBuf c).
Proof. exact (GetChar_closed_comment_spec c body ch r). Qed.

(** Where the reader stands after a block comment closed on the line. *)
Lemma GetChar_closed_comment_exact (c : ParseContext H) (body : list Z)
    (ch : Z) (r : list Z) :
  0 <= linePtr c -> inComment c = false ->
  forallb is_plain body = true -> has_close body = false ->
  is_plain ch = true -> ch <> SLASH ->
  rest c = SLASH :: STAR :: body ++ STAR :: SLASH :: ch :: r ->
  GetChar H c = OK ch (seek (Z.of_nat (List.length body) + 5) c).
Proof.
  intros Hp Hc Hpl Hn Hch Hs Hr.
  destruct (XGetC_two c SLASH STAR _ Hp Hr) as (X1 & X2 & P2 & R2 & C2 & B2);
    try discriminate.
  set (c3 := seek (Z.of_nat (List.length body) + 2) (seek 2 c)).
  assert (E3 : SkipComment_loop H (lineFuel (seek 2 c)) 0 (seek 2 c)
               = OK true c3).
  { apply (SkipComment_loop_close body _ _ 0 (ch :: r)); try assumption.
    - rewrite has_close_from_0; exact Hn.
    - pose proof (rest_length_fuel (seek 2 c)) as L.
      rewrite R2, length_app in L; simpl in L; lia. }
  assert (P3 : 0 <= linePtr c3) by (simpl; lia).
  assert (R3 : rest c3 = ch :: r).
  { unfold c3.
    replace (Z.of_nat (List.length body) + 2)
      with (Z.of_nat (List.length (body ++ [STAR; SLASH])))
      by (rewrite length_app; simpl; lia).
    apply rest_seek_app; [exact P2|].
    rewrite R2, <- app_assoc; reflexivity. }
  assert (Ek : exists k, List.length (lineBuf c) = S (S k)).
  { pose proof (rest_length_fuel c) as L; rewrite Hr in L.
    unfold lineFuel in L; simpl in L.
    destruct (List.length (lineBuf c)) as [|[|k]]; try lia.
    exists k; reflexivity. }
  destruct Ek as (k & Ek).
  unfold GetChar; monad; rewrite Hc; unfold lineFuel; rewrite Ek.
  simpl GetChar_loop; monad; rewrite X1.
  change (SLASH =? EOF) with false; change (SLASH =? SLASH) with true.
  cbv beta iota; rewrite X2.
  change (STAR =? SLASH) with false; change (STAR =? STAR) with true.
  cbv beta iota; unfold SkipComment; monad; rewrite E3.
  rewrite (XGetC_char H c3 ch r P3 R3 (plain_not_0 ch Hch)).
  rewrite (plain_not_EOF ch Hch).
  destruct (Z.eqb_spec ch SLASH); [contradiction|].
  unfold c3; rewrite !seek_seek.
  replace (2 + (Z.of_nat (List.length body) + 2 + 1))
    with (Z.of_nat (List.length body) + 5) by lia.
  reflexivity.
Qed.

(** A character after a gap is the next character of the reader. *)
Lemma GetChar_gap (c : ParseContext H) (mid : list Z) (ch : Z)
    (r : list Z) :
  0 <= linePtr c -> inComment c = false -> rest c = mid ++ ch :: r ->
  gap mid -> is_plain ch = true -> ch <> SLASH ->
  let c' := seek (Z.of_nat (List.length mid) + 1) c in
  GetChar H c = OK ch c' /\ rest c' = r /\ inComment c' = false /\
  0 <= linePtr c' /\ lineBuf c' = lineBuf c.
Proof.
  intros Hp Hc Hr Hg Hch Hs c'.
  split; [|split; [|split; [exact Hc|split; [simpl; lia|reflexivity]]]].
  - destruct Hg as [-> |(body & -> & Hpl & Hn)].
    + apply (GetChar_plain' H c ch r); assumption.
    + unfold c'.
      replace (Z.of_nat (List.length (SLASH :: STAR :: body ++ [STAR; SLASH]))
               + 1)
        with (Z.of_nat (List.length body) + 5)
        by (simpl List.length; rewrite length_app; simpl List.length; lia).
      apply (GetChar_closed_comment_exact c body ch r); try assumption.
      rewrite Hr; simpl; rewrite <- app_assoc; reflexivity.
  - unfold c'.
    replace (Z.of_nat (List.length mid) + 1)
      with (Z.of_nat (List.length (mid ++ [ch])))
      by (rewrite length_app; simpl; lia).
    apply rest_seek_app; [exact Hp|].
    rewrite Hr, <- app_assoc; reflexivity.
Qed.

(** Where the reader stands after a comment of two slashes. *)
Lemma GetChar_line_comment (c : ParseContext H) (s : list Z) :
  0 <= linePtr c -> inComment c = false -> forallb is_plain s = true ->
  rest c = SLASH :: SLASH :: s ->
  GetChar H c = OK EOF (seek (Z.of_nat (List.length s) + 2) c).
Proof.
  intros Hp Hc Hpl Hr.
  destruct (XGetC_two c SLASH SLASH s Hp Hr) as (X1 & X2 & P2 & R2 & C2 & B2);
    try discriminate.
  destruct (lineBuf_nonempty c _ _ Hr) as (k & Ek).
  unfold GetChar; monad; rewrite Hc; unfold lineFuel; rewrite Ek.
  simpl GetChar_loop; monad; rewrite X1.
  change (SLASH =? EOF) with false; change (SLASH =? SLASH) with true.
  cbv beta iota; rewrite X2.
  change (SLASH =? SLASH) with true; cbv beta iota.
  rewrite (skip_to_eol_run s (lineFuel (seek 2 c)) (seek 2 c) P2 R2 Hpl)
    by (rewrite <- R2 at 1; apply rest_length_fuel).
  set (c3 := seek (Z.of_nat (List.length s)) (seek 2 c)).
  assert (R3 : rest c3 = []) by (apply rest_seek_all; assumption).
  assert (P3 : 0 <= linePtr c3) by (simpl; lia).
  simpl GetChar_loop; monad; rewrite (rest_nil_end c3 P3 R3).
  unfold c3; rewrite seek_seek.
  replace (2 + Z.of_nat (List.length s)) with (Z.of_nat (List.length s) + 2)
    by lia.
  reflexivity.
Qed.

End Comments.

(** ** The end of the line *)

Section EndOfLine.

Variable H : Host.

(** SkipSpaces skips the blanks and returns what GetChar gives after
    them, when that is not a blank. *)
Lemma SkipSpaces_loop_skips (sp : list Z) :
  forall (fuel : nat) (c c' : ParseContext H) (ch : Z) (tail : list Z),
    0 <= linePtr c -> inComment c = false -> rest c = sp ++ tail ->
    forallb isspace sp = true ->
    GetChar H (seek (Z.of_nat (List.length sp)) c) = OK ch c' ->
    (ch =? EOF) || negb (isspace ch) = true ->
    (List.length sp < fuel)%nat ->
    SkipSpaces_loop H fuel c = OK ch c'.
Proof.
  induction sp as [|x sp IH]; intros fuel c c' ch tail Hp Hc Hr Hsp Hg Hch Hf;
    (destruct fuel as [|k]; [simpl in Hf; lia|]); simpl SkipSpaces_loop; monad.
  - simpl in Hg; rewrite seek_0 in Hg; rewrite Hg.
    destruct (ch =? EOF); [reflexivity|].
    simpl in Hch; rewrite Hch; reflexivity.
  - simpl in Hsp; apply andb_true_iff in Hsp; destruct Hsp as (Hx & Hsp).
    destruct (isspace_plain x Hx) as (Hpl & Hns).
    rewrite (GetChar_plain' H c x (sp ++ tail) Hp Hc Hr Hpl Hns).
    rewrite (plain_not_EOF x Hpl), Hx; simpl.
    apply (IH k (seek 1 c) c' ch tail); try assumption.
    + simpl; lia.
    + rewrite rest_seek1, Hr by assumption; reflexivity.
    + rewrite seek_S; exact Hg.
    + simpl in Hf; lia.
Qed.

Lemma SkipSpaces_skips (sp : list Z) (c c' : ParseContext H) (ch : Z)
    (tail : list Z) :
  0 <= linePtr c -> inComment c = false -> rest c = sp ++ tail ->
  forallb isspace sp = true ->
  GetChar H (seek (Z.of_nat (List.length sp)) c) = OK ch c' ->
  (ch =? EOF) || negb (isspace ch) = true ->
  SkipSpaces H c = OK ch c'.
Proof.
  intros Hp Hc Hr Hsp Hg Hch; unfold SkipSpaces, with_fuel.
  eapply SkipSpaces_loop_skips; eauto using fuel_covers_rest.
Qed.

Lemma GetChar_at_end (c : ParseContext H) :
  0 <= linePtr c -> rest c = [] -> GetChar H c = OK EOF c.
Proof.
  intros Hp Hr; unfold GetChar; monad.
  destruct (inComment c) eqn:Hc.
  - unfold SkipComment; monad; unfold lineFuel; simpl SkipComment_loop; monad.
    rewrite (rest_nil_end H c Hp Hr); reflexivity.
  - unfold lineFuel; simpl GetChar_loop; monad.
    rewrite (rest_nil_end H c Hp Hr); reflexivity.
Qed.

Lemma NextToken_EOF (c c1 : ParseContext H) :
  SkipSpaces H c = OK EOF c1 ->
  NextToken H c = OK T_EOL (set_tokenOffset (linePtr c1) c1).
Proof. intro E; unfold NextToken; monad; rewrite E; reflexivity. Qed.

Lemma NextToken_at_end (c : ParseContext H) :
  0 <= linePtr c -> rest c = [] ->
  NextToken H c = OK T_EOL (set_tokenOffset (linePtr c) c).
Proof.
  intros Hp Hr; apply NextToken_EOF.
  unfold SkipSpaces; monad; unfold lineFuel; simpl SkipSpaces_loop; monad.
  rewrite (GetChar_at_end c Hp Hr); reflexivity.
Qed.

(** What NextToken gives once GetChar, after the blanks, is at the end of
    the line. *)
Lemma NextToken_line_done (sp : list Z) (c c1 : ParseContext H)
    (tail : list Z) :
  0 <= linePtr c -> inComment c = false -> rest c = sp ++ tail ->
  forallb isspace sp = true ->
  GetChar H (seek (Z.of_nat (List.length sp)) c) = OK EOF c1 ->
  0 <= linePtr c1 -> rest c1 = [] ->
  let c' := set_tokenOffset (linePtr c1) c1 in
  NextToken H c = OK T_EOL c' /\ NextToken H c' = OK T_EOL c' /\
  rest c' = [] /\ inComment c' = inComment c1 /\ lineBuf c' = lineBuf c1.
Proof.
  intros Hp Hc Hr Hsp Hg P1 R1 c'.
  split; [apply NextToken_EOF, (SkipSpaces_skips sp c c1 EOF tail); auto|].
  split; [|repeat split; exact R1].
  exact (NextToken_at_end c' P1 R1).
Qed.

(** X13: a line, or the rest of one, that holds only blanks, or blanks and
    a comment running to its end, scans as the end-of-line token, and so
    does a line inside a block comment that does not close it. The token
    is given again on every further call, until the line is replaced. The
    in-comment flag is set when a block comment was left open, and only
    then. *)
Theorem NextToken_nothing_left (c : ParseContext H) (sp s : list Z) :
  0 <= linePtr c -> forallb isspace sp = true ->
  forallb is_plain s = true ->
  (inComment c = false /\
   (rest c = sp \/
    rest c = sp ++ SLASH :: SLASH :: s \/
    (rest c = sp ++ SLASH :: STAR :: s /\ has_close s = false)) \/
   inComment c = true /\ rest c = s /\ has_close s = false) ->
  exists c',
    NextToken H c = OK T_EOL c' /\ NextToken H c' = OK T_EOL c' /\
    rest c' = [] /\ lineBuf c' = lineBuf c /\
    (inComment c' = false <->
     inComment c = false /\
     (rest c = sp \/ rest c = sp ++ SLASH :: SLASH :: s)).
Proof.
  intros Hp Hsp Hpl Hcase.
  set (c0 := seek (Z.of_nat (List.length sp)) c).
  assert (P0 : 0 <= linePtr c0) by (simpl; lia).
  destruct Hcase as [(Hc & [Hr|[Hr|(Hr & Hn)]])|(Hc & Hr & Hn)].
  - assert (R0 : rest c0 = []) by (apply rest_seek_all; assumption).
    destruct (NextToken_line_done sp c c0 [] Hp Hc) as (E1 & E2 & R & C & B);
      try assumption.
    { rewrite app_nil_r; exact Hr. }
    { apply GetChar_at_end; assumption. }
    eexists; split; [exact E1|]. split; [exact E2|].
    split; [exact R|]. split; [exact B|].
    rewrite C; simpl; rewrite Hc; tauto.
  - assert (R0 : rest c0 = SLASH :: SLASH :: s)
      by (apply rest_seek_app; assumption).
    destruct (GetChar_comment_spec H c0 s P0 Hpl) as (G & _).
    destruct (G Hc R0) as (c1 & Eg & R1 & C1 & P1 & B1).
    destruct (NextToken_line_done sp c c1 _ Hp Hc Hr Hsp Eg P1 R1)
      as (E1 & E2 & R & C & B).
    eexists; split; [exact E1|]. split; [exact E2|].
    split; [exact R|]. split; [rewrite B, B1; reflexivity|].
    rewrite C, C1; tauto.
  - assert (R0 : rest c0 = SLASH :: STAR :: s)
      by (apply rest_seek_app; assumption).
    destruct (GetChar_comment_spec H c0 s P0 Hpl) as (_ & G & _).
    destruct (G Hc R0 Hn) as (c1 & Eg & R1 & C1 & P1 & B1).
    destruct (NextToken_line_done sp c c1 _ Hp Hc Hr Hsp Eg P1 R1)
      as (E1 & E2 & R & C & B).
    eexists; split; [exact E1|]. split; [exact E2|].
    split; [exact R|]. split; [rewrite B, B1; reflexivity|].
    rewrite C, C1; split; [discriminate|].
    intros (_ & [E|E]); rewrite Hr in E.
    + apply (f_equal (@List.length Z)) in E; rewrite length_app in E.
      simpl in E; lia.
    + apply app_inv_head in E; discriminate E.
  - destruct (GetChar_comment_spec H c s Hp Hpl) as (_ & _ & G).
    destruct (G Hc Hr Hn) as (c1 & Eg & R1 & C1 & P1 & B1).
    assert (Es : SkipSpaces H c = OK EOF c1).
    { unfold SkipSpaces; monad; unfold lineFuel; simpl SkipSpaces_loop; monad.
      rewrite Eg; reflexivity. }
    exists (set_tokenOffset (linePtr c1) c1).
    split; [apply NextToken_EOF, Es|].
    split; [exact (NextToken_at_end (set_tokenOffset (linePtr c1) c1) P1 R1)|].
    split; [exact R1|]. split; [exact B1|].
    simpl; rewrite C1, Hc; split; [discriminate|intros (E & _); discriminate].
Qed.

End EndOfLine.

(** ** Operators and other characters *)

Section Operators.

Variable H : Host.

(** The state after the blanks and the first character of a token. *)
Lemma NextToken_first (c : ParseContext H) (sp : list Z) (a : Z)
    (tail : list Z) :
  0 <= linePtr c -> inComment c = false -> rest c = sp ++ a :: tail ->
  forallb isspace sp = true -> isspace a = false ->
  is_plain a = true -> a <> SLASH ->
  let c0 := seek (Z.of_nat (List.length sp) + 1) c in
  let c1 := set_tokenOffset (linePtr c0) c0 in
  SkipSpaces H c = OK a c0 /\
  0 <= linePtr c1 /\ inComment c1 = false /\ rest c1 = tail /\
  lineBuf c1 = lineBuf c /\
  tokenOffset c1 = linePtr c + Z.of_nat (List.length sp) + 1.
Proof.
  intros Hp Hc Hr Hsp Ha Hpl Hs c0 c1.
  split; [apply (SkipSpaces_run H sp c a tail); assumption|].
  split; [simpl; lia|]. split; [exact Hc|].
  split; [|split; [reflexivity|simpl; lia]].
  change (rest c0 = tail); unfold c0.
  replace (Z.of_nat (List.length sp) + 1)
    with (Z.of_nat (List.length (sp ++ [a])))
    by (rewrite length_app; simpl; lia).
  apply rest_seek_app; [assumption|].
  rewrite Hr, <- app_assoc; reflexivity.
Qed.

Lemma unget_seek1 (c : ParseContext H) :
  set_linePtr (linePtr (seek 1 c) - 1) (seek 1 c) = c.
Proof.
  change (seek (-1) (seek (0 + 1) c) = c).
  rewrite seek_unget, seek_0; reflexivity.
Qed.

Lemma NextToken_angle (c : ParseContext H) (sp : list Z) (a t : Z)
    (tail : list Z) :
  0 <= linePtr c -> inComment c = false ->
  rest c = sp ++ a :: t :: tail -> forallb isspace sp = true ->
  a = LT \/ a = GT -> is_plain t = true -> t <> SLASH ->
  exists c1,
    NextToken H c
    = (if t =? EQ then OK (if a =? LT then T_LE else T_GE) (seek 1 c1)
       else if t =? GT then OK (if a =? LT then T_NE else T_SHR) (seek 1 c1)
       else if (t =? LT) && (a =? LT) then OK T_SHL (seek 1 c1)
       else OK (T_CHAR a) c1) /\
    rest c1 = t :: tail /\ rest (seek 1 c1) = tail /\
    lineBuf c1 = lineBuf c /\ inComment c1 = false /\
    tokenOffset c1 = linePtr c + Z.of_nat (List.length sp) + 1.
Proof.
  intros Hp Hc Hr Hsp Ha Ht Hs.
  assert (Hx : isspace a = false /\ is_plain a = true /\ a <> SLASH)
    by (destruct Ha as [-> | ->]; repeat split; discriminate).
  destruct Hx as (A1 & A2 & A3).
  destruct (NextToken_first c sp a (t :: tail) Hp Hc Hr Hsp A1 A2 A3)
    as (Es & P1 & C1 & R1 & B1 & O1).
  set (c1 := set_tokenOffset _ _) in *.
  assert (Eg : GetChar H c1 = OK t (seek 1 c1))
    by (apply (GetChar_plain' H c1 t tail); assumption).
  assert (R2 : rest (seek 1 c1) = tail)
    by (rewrite rest_seek1, R1 by assumption; reflexivity).
  exists c1; split; [|repeat split; assumption].
  unfold NextToken; monad; rewrite Es; fold c1.
  destruct Ha as [-> | ->]; eval_tests; rewrite Eg.
  - destruct (t =? EQ); [reflexivity|]. destruct (t =? GT); [reflexivity|].
    destruct (t =? LT); [reflexivity|].
    unfold UngetC; monad; rewrite unget_seek1; reflexivity.
  - destruct (t =? EQ); [reflexivity|]. destruct (t =? GT); [reflexivity|].
    rewrite andb_false_r.
    unfold UngetC; monad; rewrite unget_seek1; reflexivity.
Qed.

(** A slash that opens no comment is returned as it is. *)
Lemma GetChar_slash (c : ParseContext H) (t : Z) (r : list Z) :
  0 <= linePtr c -> inComment c = false -> rest c = SLASH :: t :: r ->
  t <> SLASH -> t <> STAR -> t <> 0 ->
  GetChar H c = OK SLASH (seek 1 c).
Proof.
  intros Hp Hc Hr T1 T2 T3.
  destruct (XGetC_two H c SLASH t r Hp Hr) as (X1 & X2 & _);
    [discriminate|exact T3|].
  unfold GetChar; monad; rewrite Hc; unfold lineFuel.
  simpl GetChar_loop; monad; rewrite X1.
  change (SLASH =? EOF) with false; change (SLASH =? SLASH) with true.
  cbv beta iota; rewrite X2.
  destruct (Z.eqb_spec t SLASH); [contradiction|].
  destruct (Z.eqb_spec t STAR); [contradiction|].
  unfold UngetC; monad.
  change (set_linePtr (linePtr (seek 2 c) - 1) (seek 2 c))
    with (seek (-1) (seek (1 + 1) c)).
  rewrite seek_unget; reflexivity.
Qed.

(** NextToken on an angle bracket, whatever GetChar reads after it. *)
Lemma NextToken_angle_any (c c0 c2 : ParseContext H) (a t : Z) :
  SkipSpaces H c = OK a c0 -> a = LT \/ a = GT ->
  GetChar H (set_tokenOffset (linePtr c0) c0) = OK t c2 ->
  NextToken H c
  = (if t =? EQ then OK (if a =? LT then T_LE else T_GE) c2
     else if t =? GT then OK (if a =? LT then T_NE else T_SHR) c2
     else if (t =? LT) && (a =? LT) then OK T_SHL c2
     else OK (T_CHAR a) (seek (-1) c2)).
Proof.
  intros Es Ha Eg.
  unfold NextToken; monad; rewrite Es.
  destruct Ha as [-> | ->]; eval_tests; rewrite Eg.
  - destruct (t =? EQ); [reflexivity|]. destruct (t =? GT); [reflexivity|].
    destruct (t =? LT); reflexivity.
  - destruct (t =? EQ); [reflexivity|]. destruct (t =? GT); [reflexivity|].
    rewrite andb_false_r; reflexivity.
Qed.

Lemma not_operator (a b : Z) :
  a = LT \/ a = GT -> (forall tok, ~ In (a, b, tok) operators) ->
  (b =? EQ) = false /\ (b =? GT) = false /\ (b =? LT) && (a =? LT) = false.
Proof.
  intros Ha Hno.
  destruct (Z.eqb_spec b EQ) as [-> | _].
  { exfalso; destruct Ha as [-> | ->];
      [apply (Hno T_LE)|apply (Hno T_GE)]; simpl; auto 6. }
  destruct (Z.eqb_spec b GT) as [-> | _].
  { exfalso; destruct Ha as [-> | ->];
      [apply (Hno T_NE)|apply (Hno T_SHR)]; simpl; auto 6. }
  destruct (Z.eqb_spec b LT) as [-> | _]; [|auto].
  destruct (Z.eqb_spec a LT) as [-> | _]; [|auto].
  exfalso; apply (Hno T_SHL); simpl; auto 6.
Qed.

Lemma rest_same (c c' : ParseContext H) :
  lineBuf c' = lineBuf c -> linePtr c' = linePtr c -> rest c' = rest c.
Proof. intros B P; unfold rest; rewrite B, P; reflexivity. Qed.

Lemma last_cons_default (x : Z) (s : list Z) : last (x :: s) x = last s x.
Proof. destruct s; reflexivity. Qed.

(** X14: the operators of two characters. After blanks, the two
    characters of a pair of the table scan as one token, with the cursor
    after the second character, also when a block comment that is opened
    and closed there stands between them. An angle bracket followed, with
    or without such a comment, by another plain character that is no
    slash scans as the bracket alone, with the cursor on that character;
    so does a bracket followed by a slash that opens no comment, with the
    cursor on the slash. The lookahead is undone by stepping the cursor
    back one place, also where the reader met the end of the line and
    did not advance: after a bracket and a comment of two slashes the
    cursor is on the last character of the line, and after a bracket that
    ends the line it is on the bracket again. *)
Theorem NextToken_operators (c : ParseContext H) (sp : list Z) (a : Z) :
  0 <= linePtr c -> inComment c = false -> forallb isspace sp = true ->
  a = LT \/ a = GT ->
  let off := linePtr c + Z.of_nat (List.length sp) + 1 in
  (forall mid b tail tok,
     rest c = sp ++ a :: mid ++ b :: tail -> gap mid ->
     In (a, b, tok) operators ->
     exists c',
       NextToken H c = OK tok c' /\ rest c' = tail /\
       tokenOffset c' = off) /\
  (forall mid b tail,
     rest c = sp ++ a :: mid ++ b :: tail -> gap mid ->
     is_plain b = true -> b <> SLASH ->
     (forall tok, ~ In (a, b, tok) operators) ->
     exists c',
       NextToken H c = OK (T_CHAR a) c' /\ rest c' = b :: tail /\
       tokenOffset c' = off) /\
  (forall t r,
     rest c = sp ++ a :: SLASH :: t :: r ->
     t <> SLASH -> t <> STAR -> t <> 0 ->
     exists c',
       NextToken H c = OK (T_CHAR a) c' /\ rest c' = SLASH :: t :: r /\
       tokenOffset c' = off) /\
  (forall s,
     rest c = sp ++ a :: SLASH :: SLASH :: s -> forallb is_plain s = true ->
     exists c',
       NextToken H c = OK (T_CHAR a) c' /\ rest c' = [last s SLASH] /\
       inComment c' = false /\ tokenOffset c' = off) /\
  (rest c = sp ++ [a] ->
   exists c',
     NextToken H c = OK (T_CHAR a) c' /\ rest c' = [a] /\
     tokenOffset c' = off).
Proof.
  intros Hp Hc Hsp Ha off.
  assert (Hx : isspace a = false /\ is_plain a = true /\ a <> SLASH)
    by (destruct Ha as [-> | ->]; repeat split; discriminate).
  destruct Hx as (A1 & A2 & A3).
  assert (First : forall tail, rest c = sp ++ a :: tail ->
            exists c0,
              let c1 := set_tokenOffset (linePtr c0) c0 in
              SkipSpaces H c = OK a c0 /\ 0 <= linePtr c1 /\
              inComment c1 = false /\ rest c1 = tail /\
              lineBuf c1 = lineBuf c /\ tokenOffset c1 = off /\
              linePtr c1 = off).
  { intros tail Hr.
    destruct (NextToken_first c sp a tail Hp Hc Hr Hsp A1 A2 A3)
      as (Es & P1 & C1 & R1 & B1 & O1).
    exists (seek (Z.of_nat (List.length sp) + 1) c); cbv zeta.
    repeat split; try assumption. }
  split; [|split; [|split; [|split]]].
  - intros mid b tail tok Hr Hg Hin.
    destruct (First _ Hr) as (c0 & Es & P1 & C1 & R1 & B1 & O1 & L1).
    set (c1 := set_tokenOffset _ _) in *.
    assert (Hb : is_plain b = true /\ b <> SLASH).
    { simpl in Hin; intuition (try congruence);
        match goal with E : (_, _, _) = (_, _, _) |- _ =>
          injection E as _ <- _ end; try reflexivity; discriminate. }
    destruct Hb as (B2 & B3).
    destruct (GetChar_gap H c1 mid b tail P1 C1 R1 Hg B2 B3)
      as (Eg & R2 & _).
    exists (seek (Z.of_nat (List.length mid) + 1) c1).
    split; [|split; [exact R2|exact O1]].
    rewrite (NextToken_angle_any c c0 _ a b Es Ha Eg).
    simpl in Hin.
    destruct Hin as [Ei|[Ei|[Ei|[Ei|[Ei|[]]]]]]; injection Ei as <- <- <-;
      reflexivity.
  - intros mid b tail Hr Hg B2 B3 Hno.
    destruct (First _ Hr) as (c0 & Es & P1 & C1 & R1 & B1 & O1 & L1).
    set (c1 := set_tokenOffset _ _) in *.
    destruct (GetChar_gap H c1 mid b tail P1 C1 R1 Hg B2 B3)
      as (Eg & R2 & _).
    destruct (not_operator a b Ha Hno) as (N1 & N2 & N3).
    exists (seek (-1) (seek (Z.of_nat (List.length mid) + 1) c1)).
    split; [|split; [|exact O1]].
    + rewrite (NextToken_angle_any c c0 _ a b Es Ha Eg), N1, N2, N3.
      reflexivity.
    + rewrite seek_unget.
      apply (rest_seek_app H mid (b :: tail) c1 P1 R1).
  - intros t r Hr T1 T2 T3.
    destruct (First _ Hr) as (c0 & Es & P1 & C1 & R1 & B1 & O1 & L1).
    set (c1 := set_tokenOffset _ _) in *.
    pose proof (GetChar_slash c1 t r P1 C1 R1 T1 T2 T3) as Eg.
    exists c1; split; [|split; [exact R1|exact O1]].
    rewrite (NextToken_angle_any c c0 _ a SLASH Es Ha Eg).
    destruct Ha as [-> | ->]; eval_tests;
      change (seek (-1) (seek 1 c1)) with (seek (-1) (seek (0 + 1) c1));
      rewrite seek_unget, seek_0; reflexivity.
  - intros s Hr Hpl.
    destruct (First _ Hr) as (c0 & Es & P1 & C1 & R1 & B1 & O1 & L1).
    set (c1 := set_tokenOffset _ _) in *.
    pose proof (GetChar_line_comment H c1 s P1 C1 Hpl R1) as Eg.
    exists (seek (-1) (seek (Z.of_nat (List.length s) + 2) c1)).
    split; [|split; [|split; [exact C1|exact O1]]].
    + rewrite (NextToken_angle_any c c0 _ a EOF Es Ha Eg).
      destruct Ha as [-> | ->]; reflexivity.
    + replace (Z.of_nat (List.length s) + 2)
        with (Z.of_nat (List.length (SLASH :: removelast (SLASH :: s))) + 1).
      * rewrite seek_unget; apply (rest_seek_app H _ _ c1 P1).
        rewrite R1, <- (last_cons_default SLASH s).
        change (SLASH :: SLASH :: s
                = SLASH :: (removelast (SLASH :: s) ++ [last (SLASH :: s) SLASH])).
        f_equal; apply app_removelast_last; discriminate.
      * assert (E : List.length (SLASH :: s)
                    = S (List.length (removelast (SLASH :: s)))).
        { rewrite (app_removelast_last SLASH (l := SLASH :: s)) at 1
            by discriminate.
          rewrite length_app; simpl; lia. }
        simpl List.length in E |- *; lia.
  - intro Hr.
    destruct (First _ Hr) as (c0 & Es & P1 & C1 & R1 & B1 & O1 & L1).
    set (c1 := set_tokenOffset _ _) in *.
    pose proof (GetChar_at_end H c1 P1 R1) as Eg.
    exists (seek (-1) c1); split; [|split; [|exact O1]].
    + rewrite (NextToken_angle_any c c0 _ a EOF Es Ha Eg).
      destruct Ha as [-> | ->]; reflexivity.
    + rewrite (rest_same (seek (Z.of_nat (List.length sp)) c) (seek (-1) c1)).
      * apply rest_seek_app; assumption.
      * exact B1.
      * change (linePtr c1 + -1 = linePtr c + Z.of_nat (List.length sp)).
        rewrite L1; unfold off; lia.
Qed.

(** X15: any other character. After blanks, a character of the line that
    is no blank, quote, angle bracket, digit, letter or underscore, and
    no slash before a slash or a star, scans as the token that is the
    character itself; the cursor is after it. *)
Theorem NextToken_single_character (c : ParseContext H) (sp : list Z)
    (a : Z) (tail : list Z) :
  0 <= linePtr c -> inComment c = false ->
  rest c = sp ++ a :: tail -> forallb isspace sp = true ->
  is_plain a = true -> isspace a = false ->
  a <> DQUOTE -> a <> SQUOTE -> a <> LT -> a <> GT ->
  IdentifierCharP a = false ->
  (a = SLASH ->
   exists t r, tail = t :: r /\ t <> SLASH /\ t <> STAR /\ t <> 0) ->
  exists c',
    NextToken H c = OK (T_CHAR a) c' /\ rest c' = tail /\
    tokenOffset c' = linePtr c + Z.of_nat (List.length sp) + 1 /\
    inComment c' = false /\ lineBuf c' = lineBuf c.
Proof.
  intros Hp Hc Hr Hsp Hpl Ha Hq1 Hq2 Hlt Hgt Hid Hslash.
  assert (Hd : isdigit a = false /\ (a =? chr "0") = false).
  { revert Hid; unfold IdentifierCharP, isdigit, isupper, islower, between,
      UNDERSCORE; change (chr "0") with 48; lia. }
  destruct Hd as (Hd & H0).
  set (c0 := seek (Z.of_nat (List.length sp) + 1) c).
  assert (R0 : rest c0 = tail).
  { unfold c0.
    replace (Z.of_nat (List.length sp) + 1)
      with (Z.of_nat (List.length (sp ++ [a])))
      by (rewrite length_app; simpl; lia).
    apply rest_seek_app; [assumption|].
    rewrite Hr, <- app_assoc; reflexivity. }
  assert (Es : SkipSpaces H c = OK a c0).
  { destruct (Z.eq_dec a SLASH) as [-> | Hs].
    - destruct (Hslash eq_refl) as (t & r & -> & T1 & T2 & T3).
      apply (SkipSpaces_skips H sp c c0 SLASH (SLASH :: t :: r));
        try assumption; try reflexivity.
      set (cs := seek (Z.of_nat (List.length sp)) c).
      assert (Ps : 0 <= linePtr cs) by (simpl; lia).
      assert (Rs : rest cs = SLASH :: t :: r)
        by (apply rest_seek_app; assumption).
      rewrite (GetChar_slash cs t r Ps Hc Rs T1 T2 T3).
      unfold cs; rewrite seek_seek; reflexivity.
    - apply (SkipSpaces_run H sp c a tail); assumption. }
  exists (set_tokenOffset (linePtr c0) c0).
  split; [|split; [exact R0|split; [simpl; lia|split; [exact Hc|reflexivity]]]].
  unfold NextToken; monad; rewrite Es, (plain_not_EOF a Hpl).
  destruct (Z.eqb_spec a DQUOTE); [contradiction|].
  destruct (Z.eqb_spec a SQUOTE); [contradiction|].
  destruct (Z.eqb_spec a LT); [contradiction|].
  destruct (Z.eqb_spec a GT); [contradiction|].
  rewrite H0, Hd, Hid; reflexivity.
Qed.

End Operators.

(** ** Keywords and identifiers *)

Section Keywords.

Variable H : Host.

Lemma strcasecmp_fold (k w w' : list Z) :
  map tolower w = map tolower w' -> strcasecmp k w = strcasecmp k w'.
Proof.
  revert w w'; induction k as [|x k IH]; intros [|y w] [|y' w'] E;
    try discriminate E; try reflexivity; simpl in E; injection E as E1 E2;
    simpl; rewrite E1; [reflexivity|].
  destruct (tolower x =? tolower y'); [apply IH; exact E2|reflexivity].
Qed.

Lemma lookup_keyword_fold (tab : list (list Z * Token)) (w w' : list Z) :
  map tolower w = map tolower w' ->
  lookup_keyword tab w = lookup_keyword tab w'.
Proof.
  intro E; induction tab as [|(k, t) tab IH]; [reflexivity|].
  simpl; rewrite (strcasecmp_fold k w w' E), IH; reflexivity.
Qed.

Lemma tolower_0 (x : Z) : tolower x = 0 -> x = 0.
Proof.
  unfold tolower, isupper, between.
  destruct ((65 <=? x) && (x <=? 90)) eqn:U; lia.
Qed.

Lemma strcasecmp_0 (k w : list Z) :
  Forall (fun ch => ch <> 0) k -> Forall (fun ch => ch <> 0) w ->
  strcasecmp k w = 0 -> map tolower k = map tolower w.
Proof.
  revert w; induction k as [|x k IH]; intros [|y w] Hk Hw E; simpl in E.
  - reflexivity.
  - inversion Hw; subst. assert (tolower y = 0) by lia.
    exfalso; auto using tolower_0.
  - inversion Hk; subst. exfalso; auto using tolower_0.
  - inversion Hk; inversion Hw; subst.
    destruct (Z.eqb_spec (tolower x) (tolower y)) as [Exy|Exy]; [|lia].
    simpl; rewrite Exy; f_equal; apply IH; assumption.
Qed.

Lemma lookup_keyword_found (tab : list (list Z * Token)) (w : list Z)
    (t : Token) :
  Forall (fun kt => Forall (fun ch => ch <> 0) (fst kt)) tab ->
  Forall (fun ch => ch <> 0) w ->
  lookup_keyword tab w = t -> t <> T_IDENTIFIER ->
  exists k, In (k, t) tab /\ map tolower k = map tolower w.
Proof.
  intros Htab Hw; induction tab as [|(k, t') tab IH]; simpl; intros E Ht.
  - congruence.
  - inversion Htab; subst.
    destruct (Z.eqb_spec (strcasecmp k w) 0) as [E0|E0].
    + exists k; split; [left; reflexivity|].
      apply strcasecmp_0; assumption.
    + destruct (IH H3 eq_refl Ht) as (k' & Hin & Ek).
      exists k'; split; [right; exact Hin|exact Ek].
Qed.

Lemma ktab_no_NUL :
  Forall (fun kt => Forall (fun ch => ch <> 0) (fst kt)) ktab.
Proof. repeat constructor; discriminate. Qed.

Lemma ktab_self_all :
  Forall (fun kt => lookup_keyword ktab (fst kt) = snd kt) ktab.
Proof.
  unfold ktab at 2.
  repeat (apply Forall_cons; [vm_compute; reflexivity|]); apply Forall_nil.
Qed.

Lemma ktab_self (k : list Z) (t : Token) :
  In (k, t) ktab -> lookup_keyword ktab k = t.
Proof.
  intro Hin; pose proof ktab_self_all as A.
  rewrite Forall_forall in A; exact (A (k, t) Hin).
Qed.

Lemma ident_char_not_0 (w : list Z) :
  forallb IdentifierCharP w = true -> Forall (fun ch => ch <> 0) w.
Proof.
  induction w as [|x w IH]; simpl; intro E; constructor;
    apply andb_true_iff in E; destruct E as (Ex & Ew); auto.
  apply IdentifierCharP_plain in Ex; destruct Ex as (Ex & _).
  apply plain_not_0; exact Ex.
Qed.

(** X16: keywords are recognized in any mix of upper and lower case, and
    nothing else is. The lookup depends on the word only up to the case
    of its letters; a word equal to a keyword of the table up to case is
    that keyword, whatever precedes it in the table; a word of letters,
    digits and underscores that is no keyword up to case is an
    identifier. Through NextToken: such a word, when it is not one of
    ELSE, END, DO, LOOP, scans as the token of the lookup, and the token
    buffer holds the word as it was written. *)
Theorem keywords_any_case :
  (forall w w', map tolower w = map tolower w' ->
     lookup_keyword ktab w = lookup_keyword ktab w') /\
  (forall k t w, In (k, t) ktab -> map tolower w = map tolower k ->
     lookup_keyword ktab w = t) /\
  (forall w, forallb IdentifierCharP w = true ->
     (forall k t, In (k, t) ktab -> map tolower w <> map tolower k) ->
     lookup_keyword ktab w = T_IDENTIFIER) /\
  (forall (c : ParseContext H) sp a w t tail,
     0 <= linePtr c -> inComment c = false ->
     rest c = sp ++ (a :: w) ++ t :: tail ->
     forallb isspace sp = true ->
     IdentifierCharP a = true -> isdigit a = false ->
     forallb IdentifierCharP w = true ->
     IdentifierCharP t = false -> is_plain t = true -> t <> SLASH ->
     1 + Z.of_nat (List.length w) <= MAXTOKEN H ->
     is_first_word (lookup_keyword ktab (a :: w)) = false ->
     exists c',
       NextToken H c = OK (lookup_keyword ktab (a :: w)) c' /\
       token c' = a :: w /\ rest c' = t :: tail /\
       tokenOffset c' = linePtr c + Z.of_nat (List.length sp) + 1).
Proof.
  split; [intros w w'; apply lookup_keyword_fold|].
  split.
  { intros k t w Hin E.
    rewrite (lookup_keyword_fold ktab w k E); apply ktab_self; exact Hin. }
  split.
  { intros w Hw Hno.
    destruct (lookup_keyword ktab w) eqn:E; try reflexivity;
      (destruct (lookup_keyword_found ktab w _ ktab_no_NUL
                   (ident_char_not_0 w Hw) E) as (k & Hin & Ek);
       [discriminate|]; exfalso; apply (Hno _ _ Hin); symmetry; exact Ek). }
  intros c sp a w t tail Hp Hc Hr Hsp Ha Hd Hw Ht Hpl Hs HM Hf.
  destruct (ident_start_tests a Ha Hd) as (T1 & T2 & T3 & T4 & T5 & T6 & T7).
  destruct (IdentifierCharP_plain a Ha) as (Hapl & Has).
  destruct (NextToken_first H c sp a (w ++ t :: tail) Hp Hc Hr Hsp T7 Hapl Has)
    as (Es & P1 & C1 & R1 & B1 & O1).
  set (c1 := set_tokenOffset _ _) in *.
  exists (set_token (a :: w) (seek (Z.of_nat (List.length w)) c1)).
  split; [|split; [reflexivity|split; [|exact O1]]].
  - unfold NextToken; monad; rewrite Es; fold c1.
    rewrite T1, T2, T3, T4, T5, T6, Hd, Ha.
    rewrite (IdentifierToken_word H w c1 a t tail); try assumption.
    destruct (lookup_keyword ktab (a :: w)); try reflexivity;
      discriminate Hf.
  - change (rest (seek (Z.of_nat (List.length w)) c1) = t :: tail).
    apply rest_seek_app; assumption.
Qed.

(** The collecting loop over a run of identifier characters that fits
    the token buffer. *)
Lemma IdentifierToken_loop_prefix (w : list Z) :
  forall (fuel : nat) (c : ParseContext H) (p : list Z) (len : Z)
         (tail : list Z),
    0 <= linePtr c -> inComment c = false -> rest c = w ++ tail ->
    forallb IdentifierCharP w = true ->
    len + Z.of_nat (List.length w) <= MAXTOKEN H ->
    IdentifierToken_loop H (List.length w + fuel) p len c
    = IdentifierToken_loop H fuel (p ++ w)
        (len + Z.of_nat (List.length w)) (seek (Z.of_nat (List.length w)) c).
Proof.
  induction w as [|x w IH]; intros fuel c p len tail Hp Hc Hr Hw HM.
  - simpl; rewrite seek_0, app_nil_r, Z.add_0_r; reflexivity.
  - simpl in Hw; apply andb_true_iff in Hw; destruct Hw as (Hx & Hw).
    destruct (IdentifierCharP_plain x Hx) as (Hpl & Hns).
    simpl List.length in *; simpl Nat.add; simpl IdentifierToken_loop; monad.
    rewrite (GetChar_plain' H c x (w ++ tail) Hp Hc Hr Hpl Hns).
    rewrite (plain_not_EOF x Hpl), Hx; simpl.
    destruct (Z.gtb_spec (len + 1) (MAXTOKEN H)); [lia|].
    rewrite (IH fuel (seek 1 c) (p ++ [x]) (len + 1) tail); try assumption.
    + rewrite <- app_assoc, seek_S; simpl app.
      replace (len + 1 + Z.of_nat (List.length w))
        with (len + Z.of_nat (S (List.length w))) by lia.
      reflexivity.
    + simpl; lia.
    + rewrite rest_seek1, Hr by assumption; reflexivity.
    + lia.
Qed.

(** X17: the length limit of identifiers. A word of identifier
    characters of at most MAXTOKEN characters is collected whole; a longer
    one ends the scan with the error Identifier too long, raised when
    character number MAXTOKEN + 1 is read, whatever follows. *)
Theorem identifier_length_limit (c : ParseContext H) (a : Z) (w : list Z) :
  0 <= linePtr c -> inComment c = false ->
  forallb IdentifierCharP w = true -> 1 <= MAXTOKEN H ->
  (forall t tail,
     rest c = w ++ t :: tail ->
     IdentifierCharP t = false -> is_plain t = true -> t <> SLASH ->
     1 + Z.of_nat (List.length w) <= MAXTOKEN H ->
     exists c',
       IdentifierToken H a c = OK (lookup_keyword ktab (a :: w)) c' /\
       token c' = a :: w /\ rest c' = t :: tail) /\
  (forall tail,
     rest c = w ++ tail ->
     MAXTOKEN H < 1 + Z.of_nat (List.length w) ->
     exists c',
       IdentifierToken H a c = Error "Identifier too long" c' /\
       same_input H c c').
Proof.
  intros Hp Hc Hw HM; split.
  - intros t tail Hr Ht Hpl Hs HL.
    rewrite (IdentifierToken_word H w c a t tail); try assumption.
    eexists; split; [reflexivity|]. split; [reflexivity|].
    change (rest (seek (Z.of_nat (List.length w)) c) = t :: tail).
    apply rest_seek_app; assumption.
  - intros tail Hr HL.
    set (n := Z.to_nat (MAXTOKEN H - 1)).
    assert (Hn : (n < List.length w)%nat) by (unfold n; lia).
    assert (Ew : w = firstn n w ++ skipn n w)
      by (symmetry; apply firstn_skipn).
    destruct (skipn n w) as [|x post] eqn:Es.
    { apply (f_equal (@List.length Z)) in Es; rewrite length_skipn in Es.
      simpl in Es; lia. }
    set (pre := firstn n w) in *.
    assert (Lpre : List.length pre = n)
      by (unfold pre; rewrite length_firstn; lia).
    assert (Hpre : forallb IdentifierCharP pre = true /\
                   IdentifierCharP x = true).
    { rewrite Ew, forallb_app in Hw; apply andb_true_iff in Hw.
      destruct Hw as (W1 & W2); simpl in W2; apply andb_true_iff in W2.
      split; [exact W1|apply W2]. }
    destruct Hpre as (Hpre & Hx).
    assert (Hr' : rest c = pre ++ x :: post ++ tail).
    { rewrite Hr, Ew at 1; rewrite <- app_assoc; reflexivity. }
    assert (Ef : exists k, lineFuel c = (List.length pre + S k)%nat).
    { pose proof (fuel_covers_rest H c (pre ++ [x]) (post ++ tail)) as F.
      rewrite <- app_assoc, length_app in F; simpl in F.
      specialize (F Hr').
      exists (lineFuel c - List.length pre - 1)%nat; lia. }
    destruct Ef as (k & Ef).
    assert (E : exists c',
               IdentifierToken H a c = Error "Identifier too long" c').
    { unfold IdentifierToken; monad; rewrite Ef.
      rewrite (IdentifierToken_loop_prefix pre (S k) c [a] 1
                 (x :: post ++ tail)); try assumption; [|lia].
      set (c1 := seek (Z.of_nat (List.length pre)) c).
      assert (P1 : 0 <= linePtr c1) by (simpl; lia).
      assert (R1 : rest c1 = x :: post ++ tail)
        by (apply rest_seek_app; assumption).
      destruct (IdentifierCharP_plain x Hx) as (Hpl & Hns).
      remember (1 + Z.of_nat (List.length pre)) as len eqn:El.
      simpl IdentifierToken_loop; monad.
      rewrite (GetChar_plain' H c1 x (post ++ tail) P1 Hc R1 Hpl Hns).
      rewrite (plain_not_EOF x Hpl), Hx; cbn [negb andb]; cbv beta iota.
      destruct (Z.gtb_spec (len + 1) (MAXTOKEN H)); [|lia].
      eexists; reflexivity. }
    destruct E as (c' & E); exists c'; split; [exact E|].
    pose proof (keeps_IdentifierToken H a c) as K; rewrite E in K; exact K.
Qed.

End Keywords.

(** ** Compound keywords: every pair of words *)

Section Compound.

Variable H : Host.














End Compound.



(** ** Number literals through NextToken *)

Section Literals2.

Variable H : Host.

Lemma to_VMVALUE_wrap (z : Z) :
  0 < VMVALUE_BITS H ->
  2 ^ (VMVALUE_BITS H - 1) <= z < 2 ^ VMVALUE_BITS H ->
  to_VMVALUE H z = z - 2 ^ VMVALUE_BITS H.
Proof.
  intros Hb Hz; unfold to_VMVALUE.
  assert (E : 2 ^ VMVALUE_BITS H = 2 * 2 ^ (VMVALUE_BITS H - 1)).
  { rewrite <- Z.pow_succ_r by lia; f_equal; lia. }
  rewrite E in *.
  set (h := 2 ^ (VMVALUE_BITS H - 1)) in *.
  assert (M : (z + h) mod (2 * h) = z - h).
  { symmetry; apply Z.mod_unique with 1; lia. }
  rewrite M; lia.
Qed.

Lemma strtoul_min (digit : Z -> bool) (base : Z) (tok : list Z) :
  0 <= base -> (forall ch, digit ch = true -> valid_digit base ch = true) ->
  forallb digit tok = true ->
  strtoul H tok base = Z.min (positional base tok) (ULONG_MAX H) /\
  0 <= positional base tok.
Proof.
  intros Hb Hv Hd; unfold strtoul, positional.
  destruct (digits_value_positional base tok Hb) with (acc := 0) as (E & N);
    [revert Hd; apply forallb_impl, Hv|lia|].
  rewrite <- E; split; [reflexivity|exact N].
Qed.

(** The value of a literal with a base prefix, from its digits. *)
Lemma based_value (digit : Z -> bool) (base : Z) (ds : list Z) :
  0 < VMVALUE_BITS H -> 0 < LONG_BITS H ->
  (digit = isxdigit /\ base = 16) \/ (digit = isbdigit /\ base = 2) ->
  let tok := filter digit ds in
  let v := Z.min (positional base tok) (ULONG_MAX H) in
  let val := to_VMVALUE H (strtoul H tok base) in
  val = to_VMVALUE H v /\
  (v < 2 ^ (VMVALUE_BITS H - 1) -> val = v) /\
  (2 ^ (VMVALUE_BITS H - 1) <= v < 2 ^ VMVALUE_BITS H ->
   val = v - 2 ^ VMVALUE_BITS H) /\
  (ds = [] -> val = 0).
Proof.
  intros HV HL Hx tok v val.
  assert (Ev : strtoul H tok base = v /\ 0 <= positional base tok).
  { destruct Hx as [(-> & ->)|(-> & ->)].
    - apply (strtoul_min isxdigit 16 tok);
        [lia|exact isxdigit_valid|apply filter_all].
    - apply (strtoul_min isbdigit 2 tok);
        [lia|exact isbdigit_valid|apply filter_all]. }
  destruct Ev as (Ev & Npos).
  assert (Nv : 0 <= v).
  { unfold v, ULONG_MAX.
    assert (1 <= 2 ^ LONG_BITS H)
      by (change 1 with (2 ^ 0); apply pow2_mono; lia).
    lia. }
  unfold val; rewrite Ev.
  split; [reflexivity|]. split; [|split].
  - intro Hsmall; apply to_VMVALUE_small; [exact HV|].
    pose proof (Z.pow_nonneg 2 (VMVALUE_BITS H - 1)); lia.
  - intro Hbig; apply to_VMVALUE_wrap; assumption.
  - intro E0; assert (Ez : v = 0).
    { unfold v, tok; rewrite E0; simpl.
      change (positional base []) with 0; lia. }
    rewrite Ez; apply to_VMVALUE_small; [exact HV|].
    assert (0 < 2 ^ (VMVALUE_BITS H - 1)) by (apply Z.pow_pos_nonneg; lia).
    lia.
Qed.

(** X18: literals with a base prefix. After blanks, the digit 0, then x
    or X and a run of hexadecimal digits and underscores, or b or B and a
    run of binary digits and underscores, ended by a plain character
    that is no digit of the base, underscore or slash: the prefix letter
    is the character GetChar reads after the 0, so that a block comment
    opened and closed between the 0 and the letter does not part them.
    When the digits are at most MAXTOKEN, this is one number token; the
    token buffer holds the digits without prefix and underscores; the
    value is their positional value, held to the largest unsigned long
    and then converted to VMVALUE: itself below 2^(bits-1), and less
    2^bits from there up to 2^bits, so that 0xFFFFFFFF is -1 on 32 bits;
    a prefix with no digit after it is the number 0. When the digits are
    more than MAXTOKEN, a digit is stored past the token buffer. *)
Theorem NextToken_based_literal (c : ParseContext H) (sp mid : list Z)
    (x : Z) (ds : list Z) (t : Z) (tail : list Z) (digit : Z -> bool)
    (base : Z) :
  0 < VMVALUE_BITS H -> 0 < LONG_BITS H -> 0 <= MAXTOKEN H ->
  0 <= linePtr c -> inComment c = false -> forallb isspace sp = true ->
  rest c = sp ++ chr "0" :: mid ++ x :: ds ++ t :: tail -> gap mid ->
  ((x = chr "x" \/ x = chr "X") /\ digit = isxdigit /\ base = 16) \/
  ((x = chr "b" \/ x = chr "B") /\ digit = isbdigit /\ base = 2) ->
  forallb (fun ch => digit ch || (ch =? UNDERSCORE)) ds = true ->
  digit t = false -> t <> UNDERSCORE -> is_plain t = true -> t <> SLASH ->
  let tok := filter digit ds in
  let v := Z.min (positional base tok) (ULONG_MAX H) in
  (Z.of_nat (List.length tok) <= MAXTOKEN H ->
   exists c',
     NextToken H c = OK T_NUMBER c' /\ token c' = tok /\
     rest c' = t :: tail /\ value c' = to_VMVALUE H v /\
     (v < 2 ^ (VMVALUE_BITS H - 1) -> value c' = v) /\
     (2 ^ (VMVALUE_BITS H - 1) <= v < 2 ^ VMVALUE_BITS H ->
      value c' = v - 2 ^ VMVALUE_BITS H) /\
     (ds = [] -> value c' = 0)) /\
  (MAXTOKEN H < Z.of_nat (List.length tok) -> NextToken H c = Overrun).
Proof.
  intros HV HL HM0 Hp Hc Hsp Hr Hg Hx Hds Ht Hu Hpl Hs tok v.
  destruct (NextToken_first H c sp (chr "0") (mid ++ x :: ds ++ t :: tail)
              Hp Hc Hr Hsp)
    as (Es & P1 & C1 & R1 & B1 & O1); try reflexivity; try discriminate.
  set (c1 := set_tokenOffset _ _) in *.
  assert (Hxp : is_plain x = true /\ x <> SLASH).
  { destruct Hx as [([-> | ->] & _)|([-> | ->] & _)]; split;
      try reflexivity; discriminate. }
  destruct Hxp as (Hxp & Hxs).
  destruct (GetChar_gap H c1 mid x (ds ++ t :: tail) P1 C1 R1 Hg Hxp Hxs)
    as (Eg & R2 & C2 & P2 & _).
  set (c2 := seek (Z.of_nat (List.length mid) + 1) c1) in *.
  assert (Hrun : digit_run digit c2 ds t tail)
    by (repeat split; assumption).
  assert (En : NextToken H c
               = if (x =? chr "x") || (x =? chr "X") then HexNumberToken H c2
                 else BinaryNumberToken H c2).
  { unfold NextToken; monad; rewrite Es; fold c1.
    change (chr "0" =? EOF) with false;
      change (chr "0" =? DQUOTE) with false;
      change (chr "0" =? SQUOTE) with false;
      change (chr "0" =? LT) with false;
      change (chr "0" =? GT) with false;
      change (chr "0" =? chr "0") with true; cbv beta iota.
    rewrite Eg.
    destruct ((x =? chr "x") || (x =? chr "X")) eqn:Ex; [reflexivity|].
    replace ((x =? chr "b") || (x =? chr "B")) with true; [reflexivity|].
    destruct Hx as [([-> | ->] & _)|([-> | ->] & _)];
      try reflexivity; discriminate Ex. }
  assert (Hb : (digit = isxdigit /\ base = 16) \/
               (digit = isbdigit /\ base = 2)) by tauto.
  split.
  - intro HM.
    assert (En' : NextToken H c
                  = OK T_NUMBER
                      (set_value (to_VMVALUE H (strtoul H tok base))
                         (set_token tok
                            (seek (Z.of_nat (List.length ds)) c2)))).
    { rewrite En; destruct Hx as [(Hx & -> & ->)|(Hx & -> & ->)].
      - replace ((x =? chr "x") || (x =? chr "X")) with true
          by (destruct Hx as [-> | ->]; reflexivity).
        apply (HexNumberToken_run H c2 ds t tail Hrun HM).
      - replace ((x =? chr "x") || (x =? chr "X")) with false
          by (destruct Hx as [-> | ->]; reflexivity).
        apply (BinaryNumberToken_run H c2 ds t tail Hrun HM). }
    eexists; split; [exact En'|]. split; [reflexivity|].
    split; [apply (rest_after_run H c2 ds t tail tok _); [exact P2|apply Hrun]|].
    apply (based_value digit base ds HV HL Hb).
  - intro HM; rewrite En.
    destruct Hx as [(Hx & -> & ->)|(Hx & -> & ->)].
    + replace ((x =? chr "x") || (x =? chr "X")) with true
        by (destruct Hx as [-> | ->]; reflexivity).
      apply (HexNumberToken_overrun H c2 ds t tail Hrun HM HM0).
    + replace ((x =? chr "x") || (x =? chr "X")) with false
        by (destruct Hx as [-> | ->]; reflexivity).
      apply (BinaryNumberToken_overrun H c2 ds t tail Hrun HM HM0).
Qed.

(** X19: decimal literals. After blanks, a digit and a run of digits and
    underscores, ended by a plain character that is no digit, underscore
    or slash. When the digits are at most MAXTOKEN, this is one number
    token; the token buffer holds the digits and the value is what they
    denote in base 10, when long and VMVALUE hold it. A leading 0 makes
    no difference, unless the character read after it is x, X, b or B,
    which makes it a base prefix: 010 is ten. When the digits are more
    than MAXTOKEN, a digit is stored past the token buffer. *)
Theorem NextToken_decimal_literal (c : ParseContext H) (sp : list Z) (d0 : Z)
    (ds : list Z) (t : Z) (tail : list Z) :
  0 < VMVALUE_BITS H ->
  0 <= linePtr c -> inComment c = false -> forallb isspace sp = true ->
  rest c = sp ++ d0 :: ds ++ t :: tail ->
  isdigit d0 = true ->
  forallb (fun ch => isdigit ch || (ch =? UNDERSCORE)) ds = true ->
  isdigit t = false -> t <> UNDERSCORE -> is_plain t = true -> t <> SLASH ->
  (d0 = chr "0" -> ds = [] ->
   t <> chr "x" /\ t <> chr "X" /\ t <> chr "b" /\ t <> chr "B") ->
  let tok := d0 :: filter isdigit ds in
  (Z.of_nat (List.length tok) <= MAXTOKEN H ->
   positional 10 tok <= LONG_MAX H ->
   positional 10 tok < 2 ^ (VMVALUE_BITS H - 1) ->
   exists c',
     NextToken H c = OK T_NUMBER c' /\ token c' = tok /\
     value c' = positional 10 tok /\ rest c' = t :: tail /\
     tokenOffset c' = linePtr c + Z.of_nat (List.length sp) + 1) /\
  (MAXTOKEN H < Z.of_nat (List.length tok) -> NextToken H c = Overrun).
Proof.
  intros HV Hp Hc Hsp Hr Hd0 Hds Ht Hu Hpl Hs H0x tok.
  destruct (isdigit_plain d0 Hd0) as (Dpl & Dns).
  assert (Dsp : isspace d0 = false)
    by (revert Hd0; unfold isdigit, isspace, between; lia).
  destruct (NextToken_first H c sp d0 (ds ++ t :: tail) Hp Hc Hr Hsp Dsp Dpl Dns)
    as (Es & P1 & C1 & R1 & B1 & O1).
  set (c1 := set_tokenOffset _ _) in *.
  assert (Hrun : digit_run isdigit c1 ds t tail)
    by (repeat split; assumption).
  assert (En : NextToken H c = NumberToken H d0 c1).
  { unfold NextToken; monad; rewrite Es; fold c1.
    assert (Tests : (d0 =? EOF) = false /\ (d0 =? DQUOTE) = false /\
                    (d0 =? SQUOTE) = false /\ (d0 =? LT) = false /\
                    (d0 =? GT) = false).
    { revert Hd0; unfold isdigit, between, EOF, DQUOTE, SQUOTE, LT, GT; lia. }
    destruct Tests as (T1 & T2 & T3 & T4 & T5); rewrite T1, T2, T3, T4, T5.
    destruct (Z.eqb_spec d0 (chr "0")) as [E0|N0]; [|rewrite Hd0; reflexivity].
    assert (Hy : exists y r, ds ++ t :: tail = y :: r /\ is_plain y = true /\
                             y <> SLASH /\
                             (y =? chr "x") || (y =? chr "X") = false /\
                             (y =? chr "b") || (y =? chr "B") = false).
    { destruct ds as [|d ds'].
      - destruct (H0x E0 eq_refl) as (X1 & X2 & X3 & X4).
        exists t, tail; repeat split; try assumption; lia.
      - exists d, (ds' ++ t :: tail); split; [reflexivity|].
        simpl in Hds; apply andb_true_iff in Hds; destruct Hds as (Hd & _).
        revert Hd; unfold is_plain, isdigit, between, UNDERSCORE, EOF, SLASH.
        change (chr "x") with 120; change (chr "X") with 88.
        change (chr "b") with 98; change (chr "B") with 66.
        intro Hd; repeat split; lia. }
    destruct Hy as (y & r & Ey & Ypl & Yns & Yx & Yb).
    rewrite Ey in R1.
    rewrite (GetChar_plain' H c1 y r P1 C1 R1 Ypl Yns), Yx, Yb.
    unfold UngetC; monad; rewrite unget_seek1, E0; reflexivity. }
  split.
  - intros HM HL Hval.
    destruct (NumberToken_value H c1 d0 ds t tail HV Hd0 Hrun HM HL Hval)
      as (c' & En' & Tk & Vl & Rs).
    assert (Oc : tokenOffset c' = tokenOffset c1).
    { rewrite (NumberToken_run H c1 d0 ds t tail Hrun HM) in En'.
      injection En' as <-; reflexivity. }
    exists c'; split; [rewrite En; exact En'|].
    repeat split; try assumption; congruence.
  - intro HM; rewrite En.
    apply (NumberToken_overrun H c1 d0 ds t tail Hrun HM).
Qed.

End Literals2.

(** ** The errors of the scanner *)

Section Outcomes.

Variable H : Host.

Lemma fo_ret {A} (l : list string) (a : A) : fails_only l (ret H a).
Proof. intros c msg c' E; discriminate E. Qed.

Lemma fo_gets {A} (l : list string) (f : ParseContext H -> A) :
  fails_only l (gets H f).
Proof. intros c msg c' E; discriminate E. Qed.

Lemma fo_modify (l : list string) (f : ParseContext H -> ParseContext H) :
  fails_only l (modify H f).
Proof. intros c msg c' E; discriminate E. Qed.

Lemma fo_out_of_fuel {A} (l : list string) : fails_only l (@out_of_fuel H A).
Proof. intros c msg c' E; discriminate E. Qed.

Lemma fo_error {A} (l : list string) (msg : string) :
  In msg l -> fails_only l (@ParseError H A msg).
Proof. intros Hin c m c' E; injection E as <- _; exact Hin. Qed.

Lemma fo_bind {A B} (l : list string) (m : M H A) (k : A -> M H B) :
  fails_only l m -> (forall a, fails_only l (k a)) ->
  fails_only l (bind H m k).
Proof.
  intros Hm Hk c msg c' E; unfold bind in E.
  destruct (m c) as [a c1|msg1 c1| |] eqn:Em; try discriminate.
  - exact (Hk a c1 msg c' E).
  - injection E as <- <-; exact (Hm c msg1 c1 Em).
Qed.

Lemma fo_with_fuel {A} (l : list string) (f : nat -> M H A) :
  (forall fuel, fails_only l (f fuel)) -> fails_only l (with_fuel H f).
Proof. intros Hf c; apply Hf. Qed.

Lemma fo_nil_cons {A} (l : list string) (m : M H A) :
  fails_only [] m -> fails_only l m.
Proof. intros Hm c msg c' E; destruct (Hm c msg c' E). Qed.

Ltac fo_step :=
  first
    [ apply fo_ret | apply fo_gets | apply fo_modify | apply fo_out_of_fuel
    | apply fo_error; simpl; tauto
    | apply fo_bind; [|intro]
    | apply fo_with_fuel; intro
    | match goal with
      | |- fails_only _ (if ?b then _ else _) => destruct b
      | |- fails_only _ (match ?o with Some _ => _ | None => _ end) =>
          destruct o
      end ].

Lemma XGetC_never_fails : fails_only [] (XGetC H).
Proof.
  intros c msg c' E; unfold XGetC in E.
  destruct (peek c =? 0); discriminate E.
Qed.

Lemma UngetC_never_fails : fails_only [] (UngetC H).
Proof. apply fo_modify. Qed.

Lemma SkipComment_loop_never_fails (fuel : nat) (lastch : Z) :
  fails_only [] (SkipComment_loop H fuel lastch).
Proof.
  revert lastch; induction fuel as [|k IH]; intro lastch; simpl;
    [apply fo_out_of_fuel|].
  apply fo_bind; [apply XGetC_never_fails|intro ch].
  repeat fo_step; apply IH.
Qed.

Lemma skip_to_eol_never_fails (fuel : nat) :
  fails_only [] (skip_to_eol H fuel).
Proof.
  induction fuel as [|k IH]; simpl; [apply fo_out_of_fuel|].
  apply fo_bind; [apply XGetC_never_fails|intro ch].
  repeat fo_step; apply IH.
Qed.

Lemma SkipComment_never_fails : fails_only [] (SkipComment H).
Proof.
  unfold SkipComment; apply fo_with_fuel; intro fuel.
  apply SkipComment_loop_never_fails.
Qed.

Lemma GetChar_loop_never_fails (fuel : nat) :
  fails_only [] (GetChar_loop H fuel).
Proof.
  induction fuel as [|k IH]; simpl; [apply fo_out_of_fuel|].
  apply fo_bind; [apply XGetC_never_fails|intro ch].
  destruct (ch =? EOF); [apply fo_ret|].
  destruct (ch =? SLASH); [|apply fo_ret].
  apply fo_bind; [apply XGetC_never_fails|intro ch2].
  destruct (ch2 =? SLASH).
  { apply fo_bind; [|intro; exact IH].
    apply fo_with_fuel; intro; apply skip_to_eol_never_fails. }
  destruct (ch2 =? STAR).
  { apply fo_bind; [apply SkipComment_never_fails|intros [|]];
      [exact IH|repeat fo_step]. }
  apply fo_bind; [apply UngetC_never_fails|intro; apply fo_ret].
Qed.

(** The character reader never fails: a comment left open is no error. *)
Lemma GetChar_never_fails : fails_only [] (GetChar H).
Proof.
  unfold GetChar; apply fo_bind; [apply fo_gets|intros [|]].
  - apply fo_bind; [apply SkipComment_never_fails|intros [|]];
      [|apply fo_ret].
    apply fo_bind; [apply fo_modify|intro].
    apply fo_with_fuel; intro; apply GetChar_loop_never_fails.
  - apply fo_with_fuel; intro; apply GetChar_loop_never_fails.
Qed.

Lemma SkipSpaces_never_fails : fails_only [] (SkipSpaces H).
Proof.
  unfold SkipSpaces; apply fo_with_fuel; intro fuel.
  induction fuel as [|k IH]; simpl; [apply fo_out_of_fuel|].
  apply fo_bind; [apply GetChar_never_fails|intro ch].
  repeat fo_step; exact IH.
Qed.

Lemma LiteralChar_never_fails : fails_only [] (LiteralChar H).
Proof.
  unfold LiteralChar; apply fo_bind; [apply XGetC_never_fails|intro ch].
  repeat fo_step.
Qed.

Lemma store_never_fails (p : list Z) (ch : Z) :
  fails_only [] (store H p ch).
Proof.
  intros c msg c' E.
  destruct (store_cases H p ch c) as [(_ & E1)|(_ & E1)]; rewrite E1 in E;
    discriminate E.
Qed.

Lemma number_loop_never_fails (digit : Z -> bool) (fuel : nat) (p : list Z) :
  fails_only [] (number_loop H digit fuel p).
Proof.
  revert p; induction fuel as [|k IH]; intro p; simpl;
    [apply fo_out_of_fuel|].
  apply fo_bind; [apply GetChar_never_fails|intro ch].
  destruct (ch =? EOF); [apply fo_ret|].
  destruct (digit ch);
    [apply fo_bind; [apply store_never_fails|intro; apply IH]|].
  repeat fo_step; apply IH.
Qed.

(** The three number functions never fail: a literal too large is no
    error. *)
Lemma numbers_never_fail (ch : Z) :
  fails_only [] (NumberToken H ch) /\ fails_only [] (HexNumberToken H) /\
  fails_only [] (BinaryNumberToken H).
Proof.
  unfold NumberToken, HexNumberToken, BinaryNumberToken.
  repeat split; try (apply fo_bind; [apply store_never_fails|intro p0]);
    (apply fo_bind;
     [apply fo_with_fuel; intro; apply number_loop_never_fails|intro p];
     apply fo_bind; [apply UngetC_never_fails|intro]; repeat fo_step).
Qed.

Lemma IdentifierToken_fails (ch : Z) :
  fails_only ["Identifier too long"%string] (IdentifierToken H ch).
Proof.
  unfold IdentifierToken; apply fo_bind.
  - apply fo_with_fuel; intro fuel.
    generalize 1 as len; generalize [ch] as p.
    induction fuel as [|k IH]; intros p len; simpl; [apply fo_out_of_fuel|].
    apply fo_bind; [apply fo_nil_cons, GetChar_never_fails|intro x].
    repeat fo_step; apply IH.
  - intro p; apply fo_bind; [apply fo_nil_cons, UngetC_never_fails|intro].
    repeat fo_step.
Qed.

Lemma StringToken_fails :
  fails_only ["String too long"; "unterminated string"]%string
    (StringToken H).
Proof.
  unfold StringToken; apply fo_bind.
  - apply fo_with_fuel; intro fuel.
    generalize 0 as len; generalize (@nil Z) as p.
    induction fuel as [|k IH]; intros p len; simpl; [apply fo_out_of_fuel|].
    apply fo_bind; [apply fo_nil_cons, XGetC_never_fails|intro x].
    destruct (negb (x =? EOF) && negb (x =? DQUOTE)); [|apply fo_ret].
    destruct (len + 1 >? MAXTOKEN H); [repeat fo_step|].
    apply fo_bind; [|intro; apply IH].
    destruct (x =? BACKSLASH);
      [apply fo_nil_cons, LiteralChar_never_fails|apply fo_ret].
  - intro r; repeat fo_step.
Qed.

Lemma CharToken_fails :
  fails_only ["Expecting a closing single quote"%string] (CharToken H).
Proof.
  unfold CharToken.
  apply fo_bind; [apply fo_nil_cons, LiteralChar_never_fails|intro ch].
  apply fo_bind; [apply fo_nil_cons, XGetC_never_fails|intro q].
  repeat fo_step.
Qed.

Lemma fo_weaken {A} (l l' : list string) (m : M H A) :
  incl l l' -> fails_only l m -> fails_only l' m.
Proof. intros Hi Hm c msg c' E; apply Hi, (Hm c msg c' E). Qed.

Lemma merge_lookahead_fails (first : Token)
    (compound : Token -> option Token) :
  fails_only scan_errors (merge_lookahead H first compound).
Proof.
  unfold merge_lookahead; apply fo_bind; [apply fo_gets|intro savePtr].
  apply fo_bind; [apply fo_nil_cons, SkipSpaces_never_fails|intro ch].
  destruct (negb (ch =? EOF) && IdentifierCharP ch); [|repeat fo_step].
  apply fo_bind; [|intro second; repeat fo_step].
  apply (fo_weaken ["Identifier too long"%string]);
    [|apply IdentifierToken_fails].
  intros m [<-|[]]; simpl; tauto.
Qed.

Lemma NextToken_fails : fails_only scan_errors (NextToken H).
Proof.
  unfold NextToken.
  apply fo_bind; [apply fo_nil_cons, SkipSpaces_never_fails|intro ch].
  apply fo_bind; [apply fo_modify|intro].
  destruct (numbers_never_fail ch) as (N1 & N2 & N3).
  destruct (numbers_never_fail (chr "0")) as (N0 & _).
  destruct (ch =? EOF); [apply fo_ret|].
  destruct (ch =? DQUOTE).
  { apply (fo_weaken ["String too long"; "unterminated string"]%string);
      [|apply StringToken_fails].
    intros m [<-|[<-|[]]]; simpl; tauto. }
  destruct (ch =? SQUOTE).
  { apply (fo_weaken ["Expecting a closing single quote"%string]);
      [|apply CharToken_fails].
    intros m [<-|[]]; simpl; tauto. }
  destruct (ch =? LT).
  { apply fo_bind; [apply fo_nil_cons, GetChar_never_fails|intro x].
    repeat fo_step. }
  destruct (ch =? GT).
  { apply fo_bind; [apply fo_nil_cons, GetChar_never_fails|intro x].
    repeat fo_step. }
  destruct (ch =? chr "0").
  { apply fo_bind; [apply fo_nil_cons, GetChar_never_fails|intro x].
    destruct ((x =? chr "x") || (x =? chr "X")); [apply fo_nil_cons, N2|].
    destruct ((x =? chr "b") || (x =? chr "B")); [apply fo_nil_cons, N3|].
    apply fo_bind; [apply fo_modify|intro; apply fo_nil_cons, N0]. }
  destruct (isdigit ch); [apply fo_nil_cons, N1|].
  destruct (IdentifierCharP ch); [|apply fo_ret].
  apply fo_bind.
  { apply (fo_weaken ["Identifier too long"%string]);
      [|apply IdentifierToken_fails].
    intros m [<-|[]]; simpl; tauto. }
  intro tkn; unfold merge_second.
  destruct tkn; try apply fo_ret; apply merge_lookahead_fails.
Qed.

Lemma GetToken_fails : fails_only scan_errors (GetToken H).
Proof.
  unfold GetToken; apply fo_bind; [apply fo_gets|intro tkn].
  destruct (negb (is_T_NONE tkn)); [repeat fo_step|apply NextToken_fails].
Qed.

End Outcomes.

(** ** The cursor stays in the line *)

Section CursorBounds.

Variable H : Host.

Lemma post_bind {A B} (m : M H A) (k : A -> M H B) (c : ParseContext H)
    (Q1 : A -> ParseContext H -> Prop) (Q : B -> ParseContext H -> Prop)
    (E : ParseContext H -> Prop) :
  post m c Q1 E -> (forall a c1, Q1 a c1 -> post (k a) c1 Q E) ->
  post (bind H m k) c Q E.
Proof.
  unfold post, bind; intros Hm Hk.
  destruct (m c) as [a c1|msg c1| |];
    [exact (Hk a c1 Hm)|exact Hm|exact I|exact I].
Qed.

Lemma post_conseq {A} (m : M H A) (c : ParseContext H)
    (Q Q' : A -> ParseContext H -> Prop) (E E' : ParseContext H -> Prop) :
  post m c Q E -> (forall a c', Q a c' -> Q' a c') ->
  (forall c', E c' -> E' c') -> post m c Q' E'.
Proof.
  unfold post; intros Hm HQ HE.
  destruct (m c) as [a c1|msg c1| |]; auto.
Qed.

Lemma ahead_refl (c : ParseContext H) : in_buffer c -> ahead 0 c c.
Proof. unfold in_buffer, ahead; intro; split; [reflexivity|lia]. Qed.

Lemma ahead_trans (a b : Z) (c c1 c2 : ParseContext H) :
  ahead a c c1 -> ahead b c1 c2 -> ahead (a + b) c c2.
Proof.
  unfold ahead; intros (B1 & P1) (B2 & P2); rewrite B1 in *.
  split; [congruence|lia].
Qed.

Lemma ahead_00 (c c1 c2 : ParseContext H) :
  ahead 0 c c1 -> ahead 0 c1 c2 -> ahead 0 c c2.
Proof. intros A1 A2; exact (ahead_trans 0 0 c c1 c2 A1 A2). Qed.

Lemma ahead_in_buffer (c c' : ParseContext H) :
  in_buffer c -> ahead 0 c c' -> in_buffer c'.
Proof.
  unfold in_buffer, ahead; intros Hc (B & P); rewrite B; lia.
Qed.

Lemma peek_in (c : ParseContext H) :
  in_buffer c -> peek c <> 0 ->
  linePtr c + 1 <= Z.of_nat (List.length (lineBuf c)).
Proof.
  unfold in_buffer, peek; intros Hc Hp.
  destruct (Z.ltb_spec (linePtr c) 0); [lia|].
  destruct (Z_lt_le_dec (linePtr c) (Z.of_nat (List.length (lineBuf c))));
    [lia|].
  rewrite nth_overflow in Hp by lia; congruence.
Qed.

Lemma XGetC_post (c : ParseContext H) :
  in_buffer c ->
  post (XGetC H) c
    (fun ch c' =>
       ahead 0 c c' /\ inComment c' = inComment c /\
       (ch <> EOF -> c' = seek 1 c /\ peek c = ch))
    (fun _ => False).
Proof.
  intro Hc; unfold post, XGetC.
  destruct (Z.eqb_spec (peek c) 0) as [E|N].
  - split; [apply ahead_refl, Hc|]. split; [reflexivity|congruence].
  - pose proof (peek_in c Hc N).
    split; [|split; [reflexivity|intros _; split; reflexivity]].
    unfold ahead, in_buffer in *; simpl; split; [reflexivity|lia].
Qed.

Lemma SkipComment_loop_post (fuel : nat) :
  forall (lastch : Z) (c : ParseContext H),
    in_buffer c ->
    post (SkipComment_loop H fuel lastch) c
      (fun _ c' => ahead 0 c c' /\ inComment c' = inComment c)
      (fun _ => False).
Proof.
  induction fuel as [|k IH]; intros lastch c Hc; [exact I|].
  simpl; eapply post_bind; [apply XGetC_post, Hc|].
  intros ch c1 (A1 & C1 & _).
  destruct (ch =? EOF); [split; assumption|].
  destruct ((lastch =? STAR) && (ch =? SLASH)); [split; assumption|].
  eapply post_conseq; [apply IH, (ahead_in_buffer c c1 Hc A1)| |auto].
  intros _ c' (A2 & C2); split; [eapply ahead_00; eauto|congruence].
Qed.

Lemma SkipComment_post (c : ParseContext H) :
  in_buffer c ->
  post (SkipComment H) c
    (fun _ c' => ahead 0 c c' /\ inComment c' = inComment c)
    (fun _ => False).
Proof. intro Hc; apply (SkipComment_loop_post (lineFuel c) 0 c Hc). Qed.

Lemma skip_to_eol_post (fuel : nat) :
  forall c : ParseContext H,
    in_buffer c ->
    post (skip_to_eol H fuel) c
      (fun _ c' => ahead 0 c c' /\ inComment c' = inComment c)
      (fun _ => False).
Proof.
  induction fuel as [|k IH]; intros c Hc; [exact I|].
  simpl; eapply post_bind; [apply XGetC_post, Hc|].
  intros ch c1 (A1 & C1 & _).
  destruct (ch =? EOF); [split; assumption|].
  eapply post_conseq; [apply IH, (ahead_in_buffer c c1 Hc A1)| |auto].
  intros _ c' (A2 & C2); split; [eapply ahead_00; eauto|congruence].
Qed.

Lemma post_with_fuel {A} (f : nat -> M H A) (c : ParseContext H)
    (Q : A -> ParseContext H -> Prop) (E : ParseContext H -> Prop) :
  post (f (lineFuel c)) c Q E -> post (with_fuel H f) c Q E.
Proof. exact (fun x => x). Qed.

Lemma post_ret {A} (a : A) (c : ParseContext H)
    (Q : A -> ParseContext H -> Prop) (E : ParseContext H -> Prop) :
  Q a c -> post (ret H a) c Q E.
Proof. exact (fun x => x). Qed.

Lemma post_modify (f : ParseContext H -> ParseContext H) (c : ParseContext H)
    (Q : unit -> ParseContext H -> Prop) (E : ParseContext H -> Prop) :
  Q tt (f c) -> post (modify H f) c Q E.
Proof. exact (fun x => x). Qed.

Lemma last_read_seek1 (c : ParseContext H) :
  in_buffer c -> last_read (peek c) (seek 1 c).
Proof.
  unfold in_buffer, last_read; intro Hc; split; [simpl; lia|].
  change (seek 1 c) with (seek (0 + 1) c).
  rewrite seek_unget, seek_0; reflexivity.
Qed.

Lemma GetChar_loop_Q_after (c c3 c' : ParseContext H) (ch : Z) :
  ahead 0 c c3 -> linePtr c + 2 <= linePtr c3 ->
  inComment c3 = inComment c ->
  GetChar_loop_Q c3 ch c' -> GetChar_loop_Q c ch c'.
Proof.
  intros A3 P3 C3 (A & D & I1 & L).
  split; [eapply ahead_00; eauto|].
  assert (linePtr c3 <= linePtr c') by (destruct A as (_ & A); lia).
  split; [right; lia|].
  split; [intro N; rewrite (I1 N); exact C3|].
  intros N1 N2; destruct (L N1 N2) as (L1 & L2); split; [lia|exact L2].
Qed.

Lemma GetChar_loop_post (fuel : nat) :
  forall c : ParseContext H,
    in_buffer c ->
    post (GetChar_loop H fuel) c (GetChar_loop_Q c) (fun _ => False).
Proof.
  induction fuel as [|k IH]; intros c Hc; [exact I|].
  simpl; eapply post_bind; [apply XGetC_post, Hc|].
  intros ch c1 (A1 & C1 & X1).
  destruct (Z.eqb_spec ch EOF) as [->|N].
  { apply post_ret; split; [exact A1|].
    split; [left; exact C1|split; [congruence|congruence]]. }
  destruct (X1 N) as (-> & Ep).
  destruct (Z.eqb_spec ch SLASH) as [->|Ns].
  2:{ apply post_ret; split; [exact A1|].
      split; [left; exact C1|]. split; [intros _; exact C1|].
      intros _ _; split; [simpl; lia|].
      rewrite <- Ep; apply last_read_seek1, Hc. }
  assert (Hc1 : in_buffer (seek 1 c)) by (eapply ahead_in_buffer; eauto).
  eapply post_bind; [apply XGetC_post, Hc1|].
  intros ch2 c2 (A2 & C2 & X2).
  assert (Hc2 : in_buffer c2) by (eapply ahead_in_buffer; eauto).
  assert (A02 : ahead 0 c c2) by (eapply ahead_00; eauto).
  assert (P2 : ch2 <> EOF -> linePtr c + 2 <= linePtr c2).
  { intro N2; destruct (X2 N2) as (-> & _); simpl; lia. }
  assert (C02 : inComment c2 = inComment c) by congruence.
  destruct (Z.eqb_spec ch2 SLASH) as [->|Ns2].
  { eapply post_bind.
    { apply post_with_fuel, skip_to_eol_post, Hc2. }
    intros _ c3 (A3 & C3).
    eapply post_conseq; [apply IH; eapply ahead_in_buffer; eauto| |auto].
    intros ch' c' Q; apply (GetChar_loop_Q_after c c3 c' ch');
      [eapply ahead_00; eauto| |congruence|exact Q].
    specialize (P2 ltac:(discriminate)); destruct A3 as (_ & A3); lia. }
  destruct (Z.eqb_spec ch2 STAR) as [->|Ns3].
  { eapply post_bind; [apply SkipComment_post, Hc2|].
    intros closed c3 (A3 & C3).
    assert (P3 : linePtr c + 2 <= linePtr c3).
    { specialize (P2 ltac:(discriminate)); destruct A3 as (_ & A3); lia. }
    destruct closed.
    - eapply post_conseq; [apply IH; eapply ahead_in_buffer; eauto| |auto].
      intros ch' c' Q; apply (GetChar_loop_Q_after c c3 c' ch');
        [eapply ahead_00; eauto|exact P3|congruence|exact Q].
    - unfold post, bind, modify, ret.
      assert (A03 : ahead 0 c c3) by (eapply ahead_00; eauto).
      split; [exact A03|]. split; [right; exact P3|].
      split; congruence. }
  unfold post, bind, UngetC, modify, ret.
  split; [|split; [left; exact C02|split; [intros _; exact C02|congruence]]].
  destruct A2 as (B2 & A2); destruct A1 as (B1 & A1).
  unfold ahead; simpl in *; split; [congruence|lia].
Qed.

Lemma post_weaken {A} (m : M H A) (c : ParseContext H)
    (Q Q' : A -> ParseContext H -> Prop) (E : ParseContext H -> Prop) :
  post m c Q (fun _ => False) -> (forall a c', Q a c' -> Q' a c') ->
  post m c Q' E.
Proof.
  intros Hm HQ; apply (post_conseq m c Q Q' (fun _ => False) E Hm HQ).
  intros c' [].
Qed.

Lemma GetChar_post (c : ParseContext H) :
  in_buffer c -> post (GetChar H) c (GetChar_Q c) (fun _ => False).
Proof.
  intro Hc.
  assert (Eq : GetChar H c
               = (if inComment c
                  then bind H (SkipComment H)
                         (fun closed : bool =>
                            if closed
                            then bind H (modify H (set_inComment false))
                                   (fun _ => with_fuel H (GetChar_loop H))
                            else ret H EOF)
                  else with_fuel H (GetChar_loop H)) c) by reflexivity.
  unfold post; rewrite Eq; clear Eq.
  destruct (inComment c) eqn:Hi.
  - change (post (bind H (SkipComment H)
                    (fun closed : bool =>
                       if closed
                       then bind H (modify H (set_inComment false))
                              (fun _ => with_fuel H (GetChar_loop H))
                       else ret H EOF)) c (GetChar_Q c) (fun _ => False)).
    eapply post_bind; [apply SkipComment_post, Hc|].
    intros closed c1 (A1 & C1).
    destruct closed.
    + change (post (GetChar_loop H (lineFuel c1)) (set_inComment false c1)
                (GetChar_Q c) (fun _ => False)).
      eapply post_conseq;
        [apply (GetChar_loop_post (lineFuel c1) (set_inComment false c1));
         apply (ahead_in_buffer c c1 Hc A1)| |auto].
      intros ch c' (A & D & I1 & L).
      assert (A' : ahead 0 c1 c') by exact A.
      split; [eapply ahead_00; eauto|]. split; [congruence|].
      split; [exact I1|].
      intros N1 N2; destruct (L N1 N2) as (L1 & L2); split; [|exact L2].
      destruct A1 as (_ & A1); simpl in L1; lia.
    + apply post_ret; split; [exact A1|].
      split; [congruence|split; congruence].
  - change (post (GetChar_loop H (lineFuel c)) c (GetChar_Q c)
              (fun _ => False)).
    eapply post_conseq; [apply GetChar_loop_post, Hc| |auto].
    intros ch c' (A & D & I1 & L).
    split; [exact A|]. split; [intros _; rewrite <- Hi; exact D|].
    split; [intro N; rewrite (I1 N); exact Hi|exact L].
Qed.

Lemma GetChar_ahead (c : ParseContext H) (E : ParseContext H -> Prop) :
  in_buffer c -> post (GetChar H) c (fun _ c' => ahead 0 c c') E.
Proof.
  intro Hc; eapply post_weaken; [apply GetChar_post, Hc|].
  intros ch c' Q; apply Q.
Qed.

Lemma SkipSpaces_loop_post (fuel : nat) :
  forall c : ParseContext H,
    in_buffer c ->
    post (SkipSpaces_loop H fuel) c (SkipSpaces_Q c) (fun _ => False).
Proof.
  induction fuel as [|k IH]; intros c Hc; [exact I|].
  simpl; eapply post_bind; [apply GetChar_post, Hc|].
  intros ch c1 (A1 & D1 & I1 & L1).
  destruct (Z.eqb_spec ch EOF) as [->|N].
  { apply post_ret; split; [exact A1|split; congruence]. }
  destruct (negb (isspace ch)).
  { apply post_ret; split; [exact A1|split; [exact I1|exact L1]]. }
  eapply post_conseq; [apply IH, (ahead_in_buffer c c1 Hc A1)| |auto].
  intros ch' c' (A & I2 & L2).
  split; [eapply ahead_00; eauto|]. split; [exact I2|].
  intros N1 N2; destruct (L2 N1 N2) as (L & L'); split; [|exact L'].
  destruct A1 as (_ & A1); lia.
Qed.

Lemma SkipSpaces_post (c : ParseContext H) :
  in_buffer c -> post (SkipSpaces H) c (SkipSpaces_Q c) (fun _ => False).
Proof. intro Hc; apply (SkipSpaces_loop_post (lineFuel c) c Hc). Qed.

Lemma store_post (p : list Z) (ch : Z) (c : ParseContext H)
    (E : ParseContext H -> Prop) :
  post (store H p ch) c (fun _ c0 => c0 = c) E.
Proof.
  unfold post; destruct (store_cases H p ch c) as [(_ & ->)|(_ & ->)];
    [exact I|reflexivity].
Qed.

Lemma number_loop_post (digit : Z -> bool) (fuel : nat) :
  forall (p : list Z) (c : ParseContext H),
    in_buffer c ->
    post (number_loop H digit fuel p) c (fun _ c' => ahead 0 c c')
      (fun _ => False).
Proof.
  induction fuel as [|k IH]; intros p c Hc; [exact I|].
  simpl; eapply post_bind; [apply GetChar_ahead, Hc|].
  intros ch c1 A1; cbv beta in A1.
  assert (Hc1 : in_buffer c1) by (eapply ahead_in_buffer; eauto).
  destruct (ch =? EOF); [apply post_ret; exact A1|].
  destruct (digit ch).
  { eapply post_bind; [apply store_post|].
    intros p' c0 ->.
    eapply post_conseq; [apply IH, Hc1| |auto].
    intros ? c' A; eapply ahead_00; eauto. }
  destruct (negb (ch =? UNDERSCORE)); [apply post_ret; exact A1|].
  eapply post_conseq; [apply IH, Hc1| |auto].
  intros ? c' A; eapply ahead_00; eauto.
Qed.

Lemma unget_ahead (c c1 : ParseContext H) :
  ahead 0 c c1 -> ahead 1 c (set_linePtr (linePtr c1 - 1) c1).
Proof.
  unfold ahead; simpl; intros (B & P); split; [exact B|lia].
Qed.

(** The three number functions end with UngetC: the cursor is at most one
    character further back than it was. *)
Lemma NumberToken_post (ch : Z) (c : ParseContext H) :
  in_buffer c ->
  post (NumberToken H ch) c (fun _ c' => ahead 1 c c') (fun _ => False).
Proof.
  intro Hc; unfold NumberToken.
  eapply post_bind; [apply store_post|].
  intros p0 c0 ->.
  eapply post_bind; [apply post_with_fuel, number_loop_post, Hc|].
  intros p c1 A1; apply (unget_ahead c c1 A1).
Qed.

Lemma HexNumberToken_post (c : ParseContext H) :
  in_buffer c ->
  post (HexNumberToken H) c (fun _ c' => ahead 1 c c') (fun _ => False).
Proof.
  intro Hc; unfold HexNumberToken.
  eapply post_bind; [apply post_with_fuel, number_loop_post, Hc|].
  intros p c1 A1; apply (unget_ahead c c1 A1).
Qed.

Lemma BinaryNumberToken_post (c : ParseContext H) :
  in_buffer c ->
  post (BinaryNumberToken H) c (fun _ c' => ahead 1 c c') (fun _ => False).
Proof.
  intro Hc; unfold BinaryNumberToken.
  eapply post_bind; [apply post_with_fuel, number_loop_post, Hc|].
  intros p c1 A1; apply (unget_ahead c c1 A1).
Qed.

Lemma IdentifierToken_loop_post (fuel : nat) :
  forall (p : list Z) (len : Z) (c : ParseContext H),
    in_buffer c ->
    post (IdentifierToken_loop H fuel p len) c (fun _ c' => ahead 0 c c')
      (fun c' => ahead 0 c c').
Proof.
  induction fuel as [|k IH]; intros p len c Hc; [exact I|].
  simpl; eapply post_bind; [apply GetChar_ahead, Hc|].
  intros ch c1 A1; cbv beta in A1.
  assert (Hc1 : in_buffer c1) by (eapply ahead_in_buffer; eauto).
  destruct (negb (ch =? EOF) && IdentifierCharP ch);
    [|apply post_ret; exact A1].
  destruct (len + 1 >? MAXTOKEN H); [exact A1|].
  eapply post_conseq; [apply IH, Hc1| |];
    intros; eapply ahead_00; eauto.
Qed.

Lemma ahead_01 (c c' : ParseContext H) : ahead 0 c c' -> ahead 1 c c'.
Proof. unfold ahead; intros (B & P); split; [exact B|lia]. Qed.

Lemma IdentifierToken_post (ch : Z) (c : ParseContext H) :
  in_buffer c ->
  post (IdentifierToken H ch) c (fun _ c' => ahead 1 c c')
    (fun c' => ahead 1 c c').
Proof.
  intro Hc; unfold IdentifierToken.
  eapply post_bind.
  { apply post_with_fuel.
    eapply post_conseq; [apply IdentifierToken_loop_post, Hc| |];
      [intros p c' A; exact A|intros c' A; apply ahead_01, A]. }
  intros p c1 A1; apply (unget_ahead c c1 A1).
Qed.

Lemma LiteralChar_post (c : ParseContext H) (E : ParseContext H -> Prop) :
  in_buffer c -> post (LiteralChar H) c (fun _ c' => ahead 0 c c') E.
Proof.
  intro Hc; unfold LiteralChar.
  eapply post_bind; [eapply post_weaken; [apply XGetC_post, Hc|]|].
  { intros ch c1 Q; exact Q. }
  intros ch c1 (A1 & _).
  repeat match goal with
    | |- post (if ?b then _ else _) _ _ _ => destruct b
    end; apply post_ret; exact A1.
Qed.

Lemma StringToken_loop_post (fuel : nat) :
  forall (p : list Z) (len : Z) (c : ParseContext H),
    in_buffer c ->
    post (StringToken_loop H fuel p len) c (fun _ c' => ahead 0 c c')
      (fun c' => ahead 0 c c').
Proof.
  induction fuel as [|k IH]; intros p len c Hc; [exact I|].
  simpl; eapply post_bind; [eapply post_weaken; [apply XGetC_post, Hc|]|].
  { intros ch c1 Q; exact Q. }
  intros ch c1 (A1 & _).
  assert (Hc1 : in_buffer c1) by (eapply ahead_in_buffer; eauto).
  destruct (negb (ch =? EOF) && negb (ch =? DQUOTE));
    [|apply post_ret; exact A1].
  destruct (len + 1 >? MAXTOKEN H); [exact A1|].
  eapply post_bind.
  { destruct (ch =? BACKSLASH);
      [apply LiteralChar_post, Hc1|apply post_ret, ahead_refl, Hc1]. }
  intros x c2 A2; cbv beta in A2.
  assert (A02 : ahead 0 c c2) by (eapply ahead_00; eauto).
  eapply post_conseq; [apply IH; eapply ahead_in_buffer; eauto| |];
    intros; eapply ahead_00; eauto.
Qed.

Lemma StringToken_post (c : ParseContext H) :
  in_buffer c ->
  post (StringToken H) c (fun _ c' => ahead 0 c c')
    (fun c' => ahead 0 c c').
Proof.
  intro Hc; unfold StringToken.
  eapply post_bind; [apply post_with_fuel, StringToken_loop_post, Hc|].
  intros r c1 A1; cbv beta in A1.
  unfold post, bind, modify, ret, ParseError.
  destruct (negb (fst r =? DQUOTE)); exact A1.
Qed.

Lemma CharToken_post (c : ParseContext H) :
  in_buffer c ->
  post (CharToken H) c (fun _ c' => ahead 0 c c')
    (fun c' => ahead 0 c c').
Proof.
  intro Hc; unfold CharToken.
  eapply post_bind; [apply LiteralChar_post, Hc|].
  intros ch c1 A1; cbv beta in A1.
  assert (Hc1 : in_buffer c1) by (eapply ahead_in_buffer; eauto).
  eapply post_bind; [eapply post_weaken; [apply XGetC_post, Hc1|]|].
  { intros q c2 Q; exact Q. }
  intros q c2 (A2 & _).
  assert (A02 : ahead 0 c c2) by (eapply ahead_00; eauto).
  unfold post, bind, modify, ret, ParseError.
  destruct (negb (q =? SQUOTE)); exact A02.
Qed.

Lemma ident_not_EOF_SLASH (ch : Z) :
  negb (ch =? EOF) && IdentifierCharP ch = true -> ch <> EOF /\ ch <> SLASH.
Proof.
  intro E; apply andb_true_iff in E; destruct E as (_ & E).
  apply IdentifierCharP_plain in E; destruct E as (E1 & E2).
  split; [apply (is_plain_spec ch E1)|exact E2].
Qed.

Lemma merge_lookahead_post (first : Token)
    (compound : Token -> option Token) (c : ParseContext H) :
  in_buffer c ->
  post (merge_lookahead H first compound) c (fun _ c' => ahead 0 c c')
    (fun c' => ahead 0 c c').
Proof.
  intro Hc; unfold merge_lookahead.
  unfold post at 1, bind at 1, gets.
  change (post (bind H (SkipSpaces H)
                  (fun ch =>
                     if negb (ch =? EOF) && IdentifierCharP ch
                     then bind H (IdentifierToken H ch)
                            (fun second =>
                               match compound second with
                               | Some tkn => ret H tkn
                               | None =>
                                   bind H (modify H (set_linePtr (linePtr c)))
                                     (fun _ => ret H first)
                               end)
                     else bind H (modify H (set_linePtr (linePtr c)))
                            (fun _ => ret H first)))
            c (fun _ c' => ahead 0 c c') (fun c' => ahead 0 c c')).
  eapply post_bind; [eapply post_weaken; [apply SkipSpaces_post, Hc|]|].
  { intros ch c1 Q; exact Q. }
  intros ch c1 (A1 & _ & L1).
  assert (Hc1 : in_buffer c1) by (eapply ahead_in_buffer; eauto).
  assert (Back : forall c2 : ParseContext H,
            lineBuf c2 = lineBuf c ->
            ahead 0 c (set_linePtr (linePtr c) c2)).
  { intros c2 B; unfold ahead, in_buffer in *; simpl; split; [exact B|lia]. }
  destruct (negb (ch =? EOF) && IdentifierCharP ch) eqn:Ei.
  - destruct (ident_not_EOF_SLASH ch Ei) as (N1 & N2).
    destruct (L1 N1 N2) as (P1 & _).
    assert (Fwd : forall c2 : ParseContext H, ahead 1 c1 c2 -> ahead 0 c c2).
    { intros c2 (B2 & P2); destruct A1 as (B1 & A1).
      unfold ahead; rewrite B1 in *; split; [congruence|lia]. }
    eapply post_bind.
    { eapply post_conseq; [apply IdentifierToken_post, Hc1| |];
        [intros second c2 A2; exact A2|intros c2 A2; apply Fwd, A2]. }
    intros second c2 A2; cbv beta in A2.
    destruct (compound second); [apply post_ret, Fwd, A2|].
    apply Back; destruct A2 as (B2 & _); destruct A1 as (B1 & _); congruence.
  - apply Back; apply A1.
Qed.

Lemma merge_second_post (tkn : Token) (c : ParseContext H) :
  in_buffer c ->
  post (merge_second H tkn) c (fun _ c' => ahead 0 c c')
    (fun c' => ahead 0 c c').
Proof.
  intro Hc; unfold merge_second.
  destruct tkn; try (apply post_ret, ahead_refl, Hc);
    apply merge_lookahead_post, Hc.
Qed.

(** The default case after a leading 0: the character after it is put
    back and NumberToken reads on. *)
Lemma zero_default_post (c1 c2 : ParseContext H) (x : Z) :
  in_buffer c1 -> last_read (chr "0") c1 -> inComment c1 = false ->
  GetChar_Q c1 x c2 ->
  post (bind H (UngetC H) (fun _ => NumberToken H (chr "0"))) c2
    (fun _ c' => ahead 1 c1 c') (fun _ => False).
Proof.
  intros Hc1 (P1 & L1) I1 (A2 & D2 & _).
  set (c3 := set_linePtr (linePtr c2 - 1) c2).
  change (post (NumberToken H (chr "0")) c3
            (fun _ c' => ahead 1 c1 c') (fun _ => False)).
  destruct A2 as (B2 & A2).
  destruct (Z_le_gt_dec (linePtr c1 + 1) (linePtr c2)) as [Far|Near].
  - assert (Hc3 : in_buffer c3).
    { unfold in_buffer in *; simpl; rewrite B2; lia. }
    eapply post_conseq; [apply NumberToken_post, Hc3| |auto].
    intros t c' (B & P); unfold ahead; simpl in B, P.
    rewrite B2 in *; split; [exact B|lia].
  - assert (E2 : linePtr c2 = linePtr c1) by lia.
    assert (I2 : inComment c2 = false) by (destruct (D2 I1); [assumption|lia]).
    assert (P3 : 0 <= linePtr c3) by (simpl; lia).
    assert (K3 : peek c3 = chr "0").
    { rewrite <- L1; unfold peek, c3; simpl; rewrite E2, B2; reflexivity. }
    assert (R3 : exists r, rest c3 = chr "0" :: r).
    { rewrite (peek_rest H c3 P3) in K3.
      destruct (rest c3) as [|y r]; [discriminate K3|].
      simpl in K3; subst y; exists r; reflexivity. }
    destruct R3 as (r & R3).
    assert (Eg : GetChar H c3 = OK (chr "0") (seek 1 c3)).
    { apply (GetChar_plain H c3 (chr "0") r); try assumption; discriminate. }
    assert (Hc4 : in_buffer (seek 1 c3)).
    { unfold in_buffer in *; simpl; rewrite B2; lia. }
    unfold NumberToken.
    eapply post_bind; [apply store_post|].
    intros p0 c0 ->.
    eapply post_bind.
    { apply post_with_fuel; unfold lineFuel; simpl number_loop.
      eapply post_bind.
      { unfold post; rewrite Eg.
        instantiate (1 := fun ch cx => ch = chr "0" /\ cx = seek 1 c3).
        split; reflexivity. }
      intros ch cx (-> & ->).
      change (chr "0" =? EOF) with false;
        change (isdigit (chr "0")) with true; cbv beta iota.
      eapply post_bind; [apply store_post|].
      intros p1 c0 ->.
      apply number_loop_post, Hc4. }
    intros p c4 (B4 & P4); unfold post, bind, UngetC, modify, gets, ret.
    unfold ahead; simpl in *; rewrite B2 in *; split; [exact B4|lia].
Qed.

(** NextToken leaves the line as it is and the cursor in it, no further
    back than it was, whether it returns a token or fails. *)
Lemma NextToken_post (c : ParseContext H) :
  in_buffer c ->
  post (NextToken H) c (fun _ c' => ahead 0 c c') (fun c' => ahead 0 c c').
Proof.
  intro Hc; unfold NextToken.
  eapply post_bind; [eapply post_weaken; [apply SkipSpaces_post, Hc|]|].
  { intros ch c0 Q; exact Q. }
  intros ch c0 (A0 & I0 & L0).
  unfold post at 1, bind at 1, modify.
  set (c1 := set_tokenOffset (linePtr c0) c0).
  assert (A1 : ahead 0 c c1) by exact A0.
  assert (Hc1 : in_buffer c1) by (eapply ahead_in_buffer; eauto).
  assert (Fwd : ch <> EOF -> ch <> SLASH ->
                forall c2 : ParseContext H, ahead 1 c1 c2 -> ahead 0 c c2).
  { intros N1 N2 c2 (B2 & P2); destruct (L0 N1 N2) as (P & _).
    destruct A1 as (B1 & A1); change (linePtr c1) with (linePtr c0) in *.
    unfold ahead; rewrite B1 in *; split; [congruence|lia]. }
  fold (post ((fun ch0 : Z =>
                 if ch0 =? EOF then ret H T_EOL
                 else if ch0 =? DQUOTE then StringToken H
                 else if ch0 =? SQUOTE then CharToken H
                 else if ch0 =? LT then
                   bind H (GetChar H)
                     (fun ch1 =>
                        if ch1 =? EQ then ret H T_LE
                        else if ch1 =? GT then ret H T_NE
                        else if ch1 =? LT then ret H T_SHL
                        else bind H (UngetC H) (fun _ => ret H (T_CHAR LT)))
                 else if ch0 =? GT then
                   bind H (GetChar H)
                     (fun ch1 =>
                        if ch1 =? EQ then ret H T_GE
                        else if ch1 =? GT then ret H T_SHR
                        else bind H (UngetC H) (fun _ => ret H (T_CHAR GT)))
                 else if ch0 =? chr "0" then
                   bind H (GetChar H)
                     (fun ch1 =>
                        if (ch1 =? chr "x") || (ch1 =? chr "X")
                        then HexNumberToken H
                        else if (ch1 =? chr "b") || (ch1 =? chr "B")
                        then BinaryNumberToken H
                        else bind H (UngetC H)
                               (fun _ => NumberToken H (chr "0")))
                 else if isdigit ch0 then NumberToken H ch0
                 else if IdentifierCharP ch0 then
                   bind H (IdentifierToken H ch0) (fun tkn => merge_second H tkn)
                 else ret H (T_CHAR ch0)) ch) c1
          (fun _ c' => ahead 0 c c') (fun c' => ahead 0 c c')).
  cbv beta.
  assert (Via : forall (m : M H Token),
            post m c1 (fun _ c' => ahead 0 c1 c') (fun c' => ahead 0 c1 c') ->
            post m c1 (fun _ c' => ahead 0 c c') (fun c' => ahead 0 c c')).
  { intros m Hm; eapply post_conseq; [exact Hm| |];
      intros; eapply ahead_00; eauto. }
  destruct (Z.eqb_spec ch EOF) as [->|N1]; [apply post_ret; exact A1|].
  destruct (Z.eqb_spec ch DQUOTE) as [->|_]; [apply Via, StringToken_post, Hc1|].
  destruct (Z.eqb_spec ch SQUOTE) as [->|_]; [apply Via, CharToken_post, Hc1|].
  destruct (Z.eqb_spec ch LT) as [->|_].
  { eapply post_bind; [apply GetChar_ahead, Hc1|].
    intros x c2 A2; cbv beta in A2.
    repeat match goal with
      | |- post (if ?b then _ else _) _ _ _ => destruct b
      end; try (apply post_ret; eapply ahead_00; eauto).
    apply (Fwd N1 ltac:(discriminate)), (unget_ahead c1 c2 A2). }
  destruct (Z.eqb_spec ch GT) as [->|_].
  { eapply post_bind; [apply GetChar_ahead, Hc1|].
    intros x c2 A2; cbv beta in A2.
    repeat match goal with
      | |- post (if ?b then _ else _) _ _ _ => destruct b
      end; try (apply post_ret; eapply ahead_00; eauto).
    apply (Fwd N1 ltac:(discriminate)), (unget_ahead c1 c2 A2). }
  destruct (Z.eqb_spec ch (chr "0")) as [->|_].
  { destruct (L0 N1 ltac:(discriminate)) as (P0 & L0').
    eapply post_bind; [eapply post_weaken; [apply GetChar_post, Hc1|]|].
    { intros x c2 Q; exact Q. }
    intros x c2 Q2.
    assert (A2 : ahead 0 c1 c2) by apply Q2.
    assert (Hc2 : in_buffer c2) by (eapply ahead_in_buffer; eauto).
    assert (Fwd2 : forall c3 : ParseContext H, ahead 1 c2 c3 -> ahead 0 c c3).
    { intros c3 (B3 & P3); apply (Fwd N1 ltac:(discriminate)).
      destruct A2 as (B2 & A2); unfold ahead; rewrite B2 in *.
      split; [congruence|lia]. }
    destruct ((x =? chr "x") || (x =? chr "X")).
    { eapply post_weaken; [apply HexNumberToken_post, Hc2|].
      intros t c3 A3; apply Fwd2, A3. }
    destruct ((x =? chr "b") || (x =? chr "B")).
    { eapply post_weaken; [apply BinaryNumberToken_post, Hc2|].
      intros t c3 A3; apply Fwd2, A3. }
    eapply post_weaken;
      [apply (zero_default_post c1 c2 x Hc1); [exact L0'|apply I0, N1|exact Q2]|].
    intros t c3 A3; apply (Fwd N1 ltac:(discriminate)), A3. }
  destruct (isdigit ch) eqn:Ed.
  { destruct (isdigit_plain ch Ed) as (_ & N2).
    eapply post_weaken; [apply NumberToken_post, Hc1|].
    intros t c3 A3; apply (Fwd N1 N2), A3. }
  destruct (IdentifierCharP ch) eqn:Ei; [|apply post_ret; exact A1].
  destruct (IdentifierCharP_plain ch Ei) as (_ & N2).
  eapply post_bind.
  { eapply post_conseq; [apply IdentifierToken_post, Hc1| |];
      [intros t c2 A2; exact A2|intros c2 A2; apply (Fwd N1 N2), A2]. }
  intros tkn c2 A2; cbv beta in A2.
  assert (A02 : ahead 0 c c2) by (apply (Fwd N1 N2), A2).
  eapply post_conseq;
    [apply merge_second_post, (ahead_in_buffer c c2 Hc A02)
    |intros t c3 A3; exact (ahead_00 c c2 c3 A02 A3)
    |intros c3 A3; exact (ahead_00 c c2 c3 A02 A3)].
Qed.

Lemma GetToken_post (c : ParseContext H) :
  in_buffer c ->
  post (GetToken H) c (fun _ c' => ahead 0 c c') (fun c' => ahead 0 c c').
Proof.
  intro Hc; unfold GetToken.
  unfold post at 1, bind at 1, gets.
  destruct (negb (is_T_NONE (savedToken c))).
  - exact (ahead_refl c Hc).
  - exact (NextToken_post c Hc).
Qed.

Lemma GetLine_cursor (c c' : ParseContext H) (b : bool) :
  GetLine H c = OK b c' ->
  if b then linePtr c' = 0
  else lineBuf c' = lineBuf c /\ linePtr c' = linePtr c.
Proof.
  unfold GetLine; monad.
  destruct (GetLine_loop_exact H (currentFile c) c eq_refl)
    as (popped & remaining & c1 & _ & _ & _ & _ & Hs1 & _ & _ & _ & _ & _
        & Hres).
  destruct remaining as [|f below].
  - rewrite Hres; intro Heq; injection Heq as <- <-.
    destruct Hs1 as (S1 & S2 & _); split; assumption.
  - destruct Hres as (raw & f' & ck' & c2 & _ & E2 & _).
    rewrite E2; intro Heq; injection Heq as <- <-.
    unfold bump_lineNumber; simpl.
    destruct (currentFile c2) as [|[|fp file n] next]; reflexivity.
Qed.

Lemma CloseParseContext_cursor (c : ParseContext H) :
  lineBuf (step H c OpCloseParseContext) = lineBuf c /\
  linePtr (step H c OpCloseParseContext) = linePtr c.
Proof.
  simpl; unfold CloseParseContext; monad.
  destruct (close_files_exact H (currentFile c) c)
    as (files & below & c' & _ & _ & _ & Ec & _ & (S1 & S2 & _) & _).
  rewrite Ec; simpl; split; assumption.
Qed.

Lemma step_in_buffer (c : ParseContext H) (op : Op) :
  in_buffer c -> in_buffer (step H c op).
Proof.
  intro Hc; destruct op as [|name| | | | |tkn].
  - exact Hc.
  - simpl; rewrite PushFile_cases.
    destruct (existsb (String.eqb name) (includedFiles c)); [exact Hc|].
    destruct (malloc_ok H (trace c)); simpl; [|exact Hc].
    destruct (malloc_ok H (EvMalloc :: trace c)); simpl; [|exact Hc].
    destruct (xbOpenFileInPath H name); exact Hc.
  - destruct (free_incs_trace H (includedFiles c) c)
      as (_ & (S1 & S2 & _) & _).
    unfold in_buffer in *; simpl; rewrite S1, S2; exact Hc.
  - destruct (CloseParseContext_cursor c) as (S1 & S2).
    unfold in_buffer in *; rewrite S1, S2; exact Hc.
  - simpl; destruct (GetLine_returns H c) as (b & c' & Eg); rewrite Eg; simpl.
    pose proof (GetLine_cursor c c' b Eg) as G; destruct b.
    + unfold in_buffer; rewrite G; lia.
    + destruct G as (S1 & S2); unfold in_buffer in *; rewrite S1, S2.
      exact Hc.
  - simpl; pose proof (GetToken_post c Hc) as P; unfold post in P.
    destruct (GetToken H c) as [t c'|msg c'| |]; simpl;
      [apply (ahead_in_buffer c c' Hc P)|apply (ahead_in_buffer c c' Hc P)
      |exact Hc|exact Hc].
  - exact Hc.
Qed.

(** X21: the cursor never leaves the line buffer. From a context whose
    cursor is in the buffer (between its first character and its
    terminator), GetToken, whether it returns a token or fails, leaves the
    buffer as it is and the cursor in it, and never moves the cursor
    backwards: each character put back was read in the same call. So after
    any sequence of operations of the scanner the cursor is in the buffer:
    no character is read before the buffer or past its terminator. *)
Theorem cursor_stays_in_line (c : ParseContext H) :
  in_buffer c ->
  (forall t c', GetToken H c = OK t c' ->
     lineBuf c' = lineBuf c /\ linePtr c <= linePtr c' /\ in_buffer c') /\
  (forall msg c', GetToken H c = Error msg c' ->
     lineBuf c' = lineBuf c /\ linePtr c <= linePtr c' /\ in_buffer c') /\
  (forall ops, in_buffer (run H ops c)).
Proof.
  intro Hc.
  assert (G : forall c' : ParseContext H, ahead 0 c c' ->
            lineBuf c' = lineBuf c /\ linePtr c <= linePtr c' /\
            in_buffer c').
  { intros c' A; split; [apply A|].
    split; [destruct A as (_ & A); lia|apply (ahead_in_buffer c c' Hc A)]. }
  pose proof (GetToken_post c Hc) as P; unfold post in P.
  split; [intros t c' E; rewrite E in P; exact (G c' P)|].
  split; [intros msg c' E; rewrite E in P; exact (G c' P)|].
  clear G P; intro ops; revert c Hc.
  induction ops as [|op ops IH]; intros c Hc; [exact Hc|].
  simpl; apply IH, step_in_buffer, Hc.
Qed.

End CursorBounds.

(** ** Every outcome of GetToken *)

Section Bounds.

Variable H : Host.

Lemma ib_ret {A} (a : A) : in_bounds (ret H a).
Proof. intro c; discriminate. Qed.

Lemma ib_gets {A} (f : ParseContext H -> A) : in_bounds (gets H f).
Proof. intro c; discriminate. Qed.

Lemma ib_modify (f : ParseContext H -> ParseContext H) :
  in_bounds (modify H f).
Proof. intro c; discriminate. Qed.

Lemma ib_out_of_fuel {A} : in_bounds (@out_of_fuel H A).
Proof. intro c; discriminate. Qed.

Lemma ib_error {A} (msg : string) : in_bounds (@ParseError H A msg).
Proof. intro c; discriminate. Qed.

Lemma ib_bind {A B} (m : M H A) (k : A -> M H B) :
  in_bounds m -> (forall a, in_bounds (k a)) -> in_bounds (bind H m k).
Proof.
  intros Hm Hk c; unfold bind; specialize (Hm c).
  destruct (m c) as [a c1|msg c1| |];
    [apply Hk|discriminate|discriminate|contradiction].
Qed.

Lemma ib_with_fuel {A} (f : nat -> M H A) :
  (forall fuel, in_bounds (f fuel)) -> in_bounds (with_fuel H f).
Proof. intros Hf c; apply Hf. Qed.

Ltac ib_step :=
  first
    [ apply ib_ret | apply ib_gets | apply ib_modify | apply ib_out_of_fuel
    | apply ib_error
    | apply ib_bind; [|intro]
    | apply ib_with_fuel; intro
    | match goal with
      | |- in_bounds (if ?b then _ else _) => destruct b
      | |- in_bounds (match ?o with Some _ => _ | None => _ end) =>
          destruct o
      end ].

Lemma XGetC_in_bounds : in_bounds (XGetC H).
Proof. intro c; unfold XGetC; destruct (peek c =? 0); discriminate. Qed.

Lemma UngetC_in_bounds : in_bounds (UngetC H).
Proof. apply ib_modify. Qed.

Lemma SkipComment_in_bounds : in_bounds (SkipComment H).
Proof.
  unfold SkipComment; apply ib_with_fuel; intro fuel.
  generalize 0 as lastch.
  induction fuel as [|k IH]; intro lastch; simpl; [apply ib_out_of_fuel|].
  apply ib_bind; [apply XGetC_in_bounds|intro ch].
  repeat ib_step; apply IH.
Qed.

Lemma skip_to_eol_in_bounds (fuel : nat) : in_bounds (skip_to_eol H fuel).
Proof.
  induction fuel as [|k IH]; simpl; [apply ib_out_of_fuel|].
  apply ib_bind; [apply XGetC_in_bounds|intro ch].
  repeat ib_step; apply IH.
Qed.

Lemma GetChar_loop_in_bounds (fuel : nat) : in_bounds (GetChar_loop H fuel).
Proof.
  induction fuel as [|k IH]; simpl; [apply ib_out_of_fuel|].
  apply ib_bind; [apply XGetC_in_bounds|intro ch].
  destruct (ch =? EOF); [apply ib_ret|].
  destruct (ch =? SLASH); [|apply ib_ret].
  apply ib_bind; [apply XGetC_in_bounds|intro ch2].
  destruct (ch2 =? SLASH).
  { apply ib_bind; [|intro; exact IH].
    apply ib_with_fuel; intro; apply skip_to_eol_in_bounds. }
  destruct (ch2 =? STAR).
  { apply ib_bind; [apply SkipComment_in_bounds|intros [|]];
      [exact IH|repeat ib_step]. }
  apply ib_bind; [apply UngetC_in_bounds|intro; apply ib_ret].
Qed.

(** The character reader stores nothing in the token buffer. *)
Lemma GetChar_in_bounds : in_bounds (GetChar H).
Proof.
  unfold GetChar; apply ib_bind; [apply ib_gets|intros [|]].
  - apply ib_bind; [apply SkipComment_in_bounds|intros [|]];
      [|apply ib_ret].
    apply ib_bind; [apply ib_modify|intro].
    apply ib_with_fuel; intro; apply GetChar_loop_in_bounds.
  - apply ib_with_fuel; intro; apply GetChar_loop_in_bounds.
Qed.

Lemma SkipSpaces_in_bounds : in_bounds (SkipSpaces H).
Proof.
  unfold SkipSpaces; apply ib_with_fuel; intro fuel.
  induction fuel as [|k IH]; simpl; [apply ib_out_of_fuel|].
  apply ib_bind; [apply GetChar_in_bounds|intro ch].
  repeat ib_step; exact IH.
Qed.

Lemma LiteralChar_in_bounds : in_bounds (LiteralChar H).
Proof.
  unfold LiteralChar; apply ib_bind; [apply XGetC_in_bounds|intro ch].
  repeat ib_step.
Qed.

(** The functions that test the length before they store. *)
Lemma IdentifierToken_in_bounds (ch : Z) : in_bounds (IdentifierToken H ch).
Proof.
  unfold IdentifierToken; apply ib_bind.
  - apply ib_with_fuel; intro fuel.
    generalize 1 as len; generalize [ch] as p.
    induction fuel as [|k IH]; intros p len; simpl; [apply ib_out_of_fuel|].
    apply ib_bind; [apply GetChar_in_bounds|intro x].
    repeat ib_step; apply IH.
  - intro p; apply ib_bind; [apply UngetC_in_bounds|intro].
    repeat ib_step.
Qed.

Lemma StringToken_in_bounds : in_bounds (StringToken H).
Proof.
  unfold StringToken; apply ib_bind.
  - apply ib_with_fuel; intro fuel.
    generalize 0 as len; generalize (@nil Z) as p.
    induction fuel as [|k IH]; intros p len; simpl; [apply ib_out_of_fuel|].
    apply ib_bind; [apply XGetC_in_bounds|intro x].
    destruct (negb (x =? EOF) && negb (x =? DQUOTE)); [|apply ib_ret].
    destruct (len + 1 >? MAXTOKEN H); [repeat ib_step|].
    apply ib_bind; [|intro; apply IH].
    destruct (x =? BACKSLASH); [apply LiteralChar_in_bounds|apply ib_ret].
  - intro r; repeat ib_step.
Qed.

Lemma CharToken_in_bounds : in_bounds (CharToken H).
Proof.
  unfold CharToken.
  apply ib_bind; [apply LiteralChar_in_bounds|intro ch].
  apply ib_bind; [apply XGetC_in_bounds|intro q].
  repeat ib_step.
Qed.

Lemma merge_second_in_bounds (tkn : Token) : in_bounds (merge_second H tkn).
Proof.
  assert (L : forall first compound,
            in_bounds (merge_lookahead H first compound)).
  { intros first compound; unfold merge_lookahead.
    apply ib_bind; [apply ib_gets|intro savePtr].
    apply ib_bind; [apply SkipSpaces_in_bounds|intro ch].
    destruct (negb (ch =? EOF) && IdentifierCharP ch); [|repeat ib_step].
    apply ib_bind; [apply IdentifierToken_in_bounds|intro second].
    repeat ib_step. }
  unfold merge_second; destruct tkn; try apply ib_ret; apply L.
Qed.

(** Where a call of NextToken stores past the token buffer: in one of the
    three number functions, on a token that starts with a digit. *)
Lemma NextToken_overrun_cases (c : ParseContext H) :
  NextToken H c = Overrun ->
  exists d c0,
    SkipSpaces H c = OK d c0 /\ isdigit d = true /\
    let c1 := set_tokenOffset (linePtr c0) c0 in
    (d <> chr "0" /\ NumberToken H d c1 = Overrun) \/
    (d = chr "0" /\
     exists x c2,
       GetChar H c1 = OK x c2 /\
       (HexNumberToken H c2 = Overrun \/
        BinaryNumberToken H c2 = Overrun \/
        NumberToken H (chr "0") (set_linePtr (linePtr c2 - 1) c2)
        = Overrun)).
Proof.
  unfold NextToken; unfold bind at 1.
  destruct (SkipSpaces H c) as [ch c0|msg c0| |] eqn:Es; try discriminate;
    [|intros _; destruct (SkipSpaces_in_bounds c Es)].
  unfold bind at 1, modify.
  set (c1 := set_tokenOffset (linePtr c0) c0).
  intro E; exists ch, c0; split; [reflexivity|].
  destruct (ch =? EOF); [discriminate E|].
  destruct (ch =? DQUOTE); [destruct (StringToken_in_bounds c1 E)|].
  destruct (ch =? SQUOTE); [destruct (CharToken_in_bounds c1 E)|].
  assert (Angle : forall a k1 k2 k3,
            in_bounds
              (bind H (GetChar H)
                 (fun x =>
                    if x =? EQ then ret H k1
                    else if x =? GT then ret H k2
                    else if (x =? LT) && k3 then ret H T_SHL
                    else bind H (UngetC H) (fun _ => ret H (T_CHAR a))))).
  { intros a k1 k2 k3; apply ib_bind; [apply GetChar_in_bounds|intro x].
    repeat ib_step. }
  destruct (ch =? LT).
  { exfalso; apply (Angle LT T_LE T_NE true c1).
    rewrite <- E; unfold bind.
    destruct (GetChar H c1) as [x c2| | |]; try reflexivity.
    rewrite andb_true_r; reflexivity. }
  destruct (ch =? GT).
  { exfalso; apply (Angle GT T_GE T_SHR false c1).
    rewrite <- E; unfold bind.
    destruct (GetChar H c1) as [x c2| | |]; try reflexivity.
    rewrite andb_false_r; reflexivity. }
  destruct (Z.eqb_spec ch (chr "0")) as [->|N0].
  { split; [reflexivity|right; split; [reflexivity|]].
    unfold bind at 1 in E.
    destruct (GetChar H c1) as [x c2|msg c2| |] eqn:Eg; try discriminate E;
      [|destruct (GetChar_in_bounds c1 Eg)].
    exists x, c2; split; [exact Eg|].
    destruct ((x =? chr "x") || (x =? chr "X")); [left; exact E|].
    destruct ((x =? chr "b") || (x =? chr "B")); [right; left; exact E|].
    right; right; exact E. }
  destruct (isdigit ch); [split; [reflexivity|left; split; assumption]|].
  destruct (IdentifierCharP ch); [|discriminate E].
  exfalso; revert E.
  apply (ib_bind (IdentifierToken H ch) (merge_second H));
    [apply IdentifierToken_in_bounds|apply merge_second_in_bounds].
Qed.

(** The number loop on a line shorter than the token buffer: every digit
    stored was read from the line, one place further on each time, and
    the first digit of the token at most once more. *)
Lemma number_loop_fits (digit : Z -> bool) :
  (forall ch, digit ch = true -> ch <> EOF /\ ch <> SLASH) ->
  forall (fuel : nat) (p : list Z) (c : ParseContext H),
    in_buffer c -> Z.of_nat (List.length (lineBuf c)) < MAXTOKEN H ->
    Z.of_nat (List.length p) <= linePtr c + 1 ->
    number_loop H digit fuel p c <> Overrun.
Proof.
  intros Hd fuel; induction fuel as [|k IH]; intros p c Hc HM Hp;
    [discriminate|].
  simpl; unfold bind at 1.
  pose proof (GetChar_post H c Hc) as Q; unfold post in Q.
  pose proof (GetChar_in_bounds c) as NB.
  destruct (GetChar H c) as [ch c1|msg c1| |]; try discriminate;
    [|contradiction].
  destruct Q as (A1 & _ & _ & L1).
  assert (Hc1 : in_buffer c1) by exact (ahead_in_buffer H c c1 Hc A1).
  destruct A1 as (B1 & A1).
  destruct (ch =? EOF); [discriminate|].
  destruct (digit ch) eqn:Ed.
  - destruct (Hd ch Ed) as (N1 & N2); destruct (L1 N1 N2) as (P1 & _).
    unfold bind.
    destruct (store_cases H p ch c1) as [(G & _)|(G & ->)]; [lia|].
    apply IH; [exact Hc1|rewrite B1; exact HM|].
    rewrite length_app; simpl List.length; lia.
  - destruct (negb (ch =? UNDERSCORE)); [discriminate|].
    apply IH; [exact Hc1|rewrite B1; exact HM|lia].
Qed.

Lemma NumberToken_fits (ch : Z) (c : ParseContext H) :
  in_buffer c -> Z.of_nat (List.length (lineBuf c)) < MAXTOKEN H ->
  NumberToken H ch c <> Overrun.
Proof.
  intros Hc HM; unfold NumberToken; unfold bind at 1.
  destruct (store_cases H [] ch c) as [(G & _)|(_ & ->)];
    [simpl List.length in G; lia|].
  unfold bind at 1, with_fuel.
  pose proof (number_loop_fits isdigit
                (fun x Hx => conj (proj2 (is_plain_spec x
                                            (proj1 (isdigit_plain x Hx))))
                                  (proj2 (isdigit_plain x Hx)))
                (lineFuel c) ([] ++ [ch]) c Hc HM) as F.
  destruct (number_loop H isdigit (lineFuel c) ([] ++ [ch]) c)
    as [p c1|msg c1| |]; try discriminate.
  exfalso; apply F; [unfold in_buffer in Hc; simpl List.length; lia|].
  reflexivity.
Qed.

Lemma HexNumberToken_fits (c : ParseContext H) :
  in_buffer c -> Z.of_nat (List.length (lineBuf c)) < MAXTOKEN H ->
  HexNumberToken H c <> Overrun.
Proof.
  intros Hc HM; unfold HexNumberToken; unfold bind at 1, with_fuel.
  pose proof (number_loop_fits isxdigit
                (fun x Hx => conj (proj2 (is_plain_spec x
                                            (proj1 (isxdigit_plain x Hx))))
                                  (proj2 (isxdigit_plain x Hx)))
                (lineFuel c) [] c Hc HM) as F.
  destruct (number_loop H isxdigit (lineFuel c) [] c)
    as [p c1|msg c1| |]; try discriminate.
  exfalso; apply F; [unfold in_buffer in Hc; simpl List.length; lia|].
  reflexivity.
Qed.

Lemma BinaryNumberToken_fits (c : ParseContext H) :
  in_buffer c -> Z.of_nat (List.length (lineBuf c)) < MAXTOKEN H ->
  BinaryNumberToken H c <> Overrun.
Proof.
  intros Hc HM; unfold BinaryNumberToken; unfold bind at 1, with_fuel.
  pose proof (number_loop_fits isbdigit
                (fun x Hx => conj (proj2 (is_plain_spec x
                                            (proj1 (isbdigit_plain x Hx))))
                                  (proj2 (isbdigit_plain x Hx)))
                (lineFuel c) [] c Hc HM) as F.
  change isbdigit with (fun ch : Z => (ch =? 48) || (ch =? 49)) in F.
  destruct (number_loop H (fun ch : Z => (ch =? 48) || (ch =? 49))
              (lineFuel c) [] c)
    as [p c1|msg c1| |]; try discriminate.
  exfalso; apply F; [unfold in_buffer in Hc; simpl List.length; lia|].
  reflexivity.
Qed.

Lemma NextToken_fits (c : ParseContext H) :
  in_buffer c -> Z.of_nat (List.length (lineBuf c)) < MAXTOKEN H ->
  NextToken H c <> Overrun.
Proof.
  intros Hc HM E.
  destruct (NextToken_overrun_cases c E) as (d & c0 & Es & Hd & Cases).
  pose proof (SkipSpaces_post H c Hc) as Q; unfold post in Q; rewrite Es in Q.
  destruct Q as (A0 & _ & L0).
  destruct (isdigit_plain d Hd) as (Dpl & Dns).
  destruct (L0 (proj2 (is_plain_spec d Dpl)) Dns) as (P0 & _).
  set (c1 := set_tokenOffset (linePtr c0) c0) in *.
  assert (A1 : ahead 0 c c1) by exact A0.
  assert (Hc1 : in_buffer c1) by exact (ahead_in_buffer H c c1 Hc A1).
  assert (B1 : lineBuf c1 = lineBuf c) by apply A1.
  assert (HM1 : Z.of_nat (List.length (lineBuf c1)) < MAXTOKEN H)
    by (rewrite B1; exact HM).
  destruct Cases as [(_ & En)|(_ & x & c2 & Eg & En)].
  - exact (NumberToken_fits d c1 Hc1 HM1 En).
  - pose proof (GetChar_post H c1 Hc1) as Q2; unfold post in Q2.
    rewrite Eg in Q2; destruct Q2 as (A2 & _).
    assert (Hc2 : in_buffer c2) by exact (ahead_in_buffer H c1 c2 Hc1 A2).
    destruct A2 as (B2 & A2).
    assert (HM2 : Z.of_nat (List.length (lineBuf c2)) < MAXTOKEN H)
      by (rewrite B2; exact HM1).
    destruct En as [En|[En|En]].
    + exact (HexNumberToken_fits c2 Hc2 HM2 En).
    + exact (BinaryNumberToken_fits c2 Hc2 HM2 En).
    + revert En; apply NumberToken_fits; [|exact HM2].
      unfold in_buffer in *; simpl.
      change (linePtr c1) with (linePtr c0) in A2; lia.
Qed.

(** X20: every call of GetToken ends, on any context, in one of three
    ways: in a token; in one of the four errors of the scanner
    (identifier too long, string too long, unterminated string, missing
    closing single quote); or in a digit stored past the token buffer,
    after which nothing is defined. The loops over the line stop at its
    end. With a token or an error the input stack, the line source, the
    included-files list, the line buffer and the host calls made so far
    are as before: GetToken reads the current line and nothing else. A
    store past the buffer only happens when no token was saved and the
    token that is read starts with a digit, and never on a line of fewer
    than MAXTOKEN characters with the cursor in it. *)
Theorem GetToken_outcomes (c : ParseContext H) :
  ((exists t c', GetToken H c = OK t c' /\ same_input H c c') \/
   (exists msg c',
      GetToken H c = Error msg c' /\ In msg scan_errors /\
      same_input H c c') \/
   GetToken H c = Overrun) /\
  (GetToken H c = Overrun ->
   is_T_NONE (savedToken c) = true /\
   exists d c0, SkipSpaces H c = OK d c0 /\ isdigit d = true) /\
  (in_buffer c -> Z.of_nat (List.length (lineBuf c)) < MAXTOKEN H ->
   GetToken H c <> Overrun).
Proof.
  assert (Eq : GetToken H c
               = if negb (is_T_NONE (savedToken c))
                 then OK (savedToken c) (set_savedToken T_NONE c)
                 else NextToken H c).
  { unfold GetToken; monad.
    destruct (negb (is_T_NONE (savedToken c))); reflexivity. }
  split; [|split].
  - pose proof (keeps_GetToken H c) as K.
    pose proof (GetToken_terminates H c) as T.
    pose proof (GetToken_fails H) as F.
    destruct (GetToken H c) as [t c'|msg c'| |] eqn:E.
    + left; exists t, c'; split; [reflexivity|exact K].
    + right; left; exists msg, c'; split; [reflexivity|].
      split; [exact (F c msg c' E)|exact K].
    + contradiction.
    + right; right; reflexivity.
  - rewrite Eq; destruct (is_T_NONE (savedToken c)); simpl;
      [|discriminate].
    intro E; split; [reflexivity|].
    destruct (NextToken_overrun_cases c E) as (d & c0 & Es & Hd & _).
    exists d, c0; split; assumption.
  - intros Hc HM; rewrite Eq.
    destruct (negb (is_T_NONE (savedToken c))); [discriminate|].
    apply NextToken_fits; assumption.
Qed.

End Bounds.

(** ** The properties of the scanner on example lines *)

Lemma GetChar_comment_to_end_of_line_witness :
  exists c',
    GetChar (demoHost no_files)
      (start_line (chars "// x") (demo_context no_files []))
    = OK EOF c' /\ rest c' = [].
Proof.
  destruct (GetChar_comment_to_end_of_line (demoHost no_files)
              (start_line (chars "// x") (demo_context no_files []))
              (chars " x" ++ [NL])) as (A & _);
    [simpl; lia|reflexivity|].
  destruct (A eq_refl eq_refl) as (c' & E & R & _).
  exists c'; split; [exact E|exact R].
Defined.

Lemma GetChar_closed_block_comment_witness :
  exists c',
    GetChar (demoHost no_files)
      (start_line (chars "/*x*/A") (demo_context no_files []))
    = OK (chr "A") c' /\ rest c' = [NL].
Proof.
  destruct (GetChar_closed_block_comment (demoHost no_files)
              (start_line (chars "/*x*/A") (demo_context no_files []))
              (chars "x") (chr "A") [NL]) as (A & _);
    [simpl; lia|reflexivity|reflexivity|reflexivity|discriminate|].
  destruct (A eq_refl eq_refl) as (c' & E & R & _).
  exists c'; split; [exact E|exact R].
Defined.

Lemma NextToken_nothing_left_witness :
  exists c',
    NextToken (demoHost no_files)
      (start_line (chars "  // x") (demo_context no_files []))
    = OK T_EOL c' /\ NextToken (demoHost no_files) c' = OK T_EOL c'.
Proof.
  destruct (NextToken_nothing_left (demoHost no_files)
              (start_line (chars "  // x") (demo_context no_files []))
              (chars "  ") (chars " x" ++ [NL])) as (c' & E1 & E2 & _);
    [simpl; lia|reflexivity|reflexivity
    |left; split; [reflexivity|right; left; reflexivity]|].
  exists c'; split; [exact E1|exact E2].
Defined.

Lemma NextToken_operators_witness :
  exists c',
    NextToken (demoHost no_files)
      (start_line (chars "</**/= 1") (demo_context no_files []))
    = OK T_LE c' /\ rest c' = chars " 1" ++ [NL].
Proof.
  destruct (NextToken_operators (demoHost no_files)
              (start_line (chars "</**/= 1") (demo_context no_files []))
              [] LT) as (A & _);
    [simpl; lia|reflexivity|reflexivity|left; reflexivity|].
  destruct (A (chars "/**/") EQ (chars " 1" ++ [NL]) T_LE)
    as (c' & E & R & _);
    [reflexivity|right; exists []; repeat split|simpl; auto|].
  exists c'; split; [exact E|exact R].
Defined.

Lemma NextToken_single_character_witness :
  exists c',
    NextToken (demoHost no_files)
      (start_line (chars "+1") (demo_context no_files []))
    = OK (T_CHAR (chr "+")) c' /\ rest c' = chars "1" ++ [NL].
Proof.
  destruct (NextToken_single_character (demoHost no_files)
              (start_line (chars "+1") (demo_context no_files []))
              [] (chr "+") (chars "1" ++ [NL])) as (c' & E & R & _);
    [simpl; lia|reflexivity|reflexivity|reflexivity|reflexivity|reflexivity
    |discriminate|discriminate|discriminate|discriminate|reflexivity
    |discriminate|].
  exists c'; split; [exact E|exact R].
Defined.

Lemma keywords_any_case_witness :
  lookup_keyword ktab (chars "Print") = T_PRINT.
Proof.
  destruct (keywords_any_case (demoHost no_files)) as (_ & A & _).
  apply (A (chars "PRINT") T_PRINT (chars "Print"));
    [simpl; tauto|reflexivity].
Defined.

Lemma identifier_length_limit_witness :
  exists c',
    IdentifierToken (demoHost no_files) (chr "A")
      (seek 1 (start_line (chars "ABC") (demo_context no_files [])))
    = OK T_IDENTIFIER c' /\ token c' = chars "ABC".
Proof.
  destruct (identifier_length_limit (demoHost no_files)
              (seek 1 (start_line (chars "ABC") (demo_context no_files [])))
              (chr "A") (chars "BC")) as (A & _);
    [simpl; lia|reflexivity|reflexivity|simpl; lia|].
  destruct (A NL []) as (c' & E & T & _);
    [reflexivity|reflexivity|reflexivity|discriminate|simpl; lia|].
  exists c'; split; [exact E|exact T].
Defined.

Lemma NextToken_based_literal_witness :
  exists c',
    NextToken (demoHost no_files)
      (start_line (chars "0/**/xFFFFFFFF") (demo_context no_files []))
    = OK T_NUMBER c' /\ token c' = chars "FFFFFFFF" /\ value c' = -1.
Proof.
  destruct (NextToken_based_literal (demoHost no_files)
              (start_line (chars "0/**/xFFFFFFFF") (demo_context no_files []))
              [] (chars "/**/") (chr "x") (chars "FFFFFFFF") NL [] isxdigit 16)
    as (A & _);
    [simpl; lia|simpl; lia|simpl; lia|simpl; lia|reflexivity|reflexivity
    |reflexivity|right; exists []; repeat split
    |left; split; [left; reflexivity|split; reflexivity]
    |reflexivity|reflexivity|discriminate|reflexivity|discriminate|].
  destruct A as (c' & E & T & _ & _ & _ & W & _); [simpl; lia|].
  exists c'; split; [exact E|split; [exact T|]].
  rewrite W; [reflexivity|vm_compute; split; [discriminate|reflexivity]].
Defined.

Lemma NextToken_decimal_literal_witness :
  exists c',
    NextToken (demoHost no_files)
      (start_line (chars "010") (demo_context no_files []))
    = OK T_NUMBER c' /\ value c' = 10.
Proof.
  destruct (NextToken_decimal_literal (demoHost no_files)
              (start_line (chars "010") (demo_context no_files []))
              [] (chr "0") (chars "10") NL [])
    as (A & _);
    [simpl; lia|simpl; lia|reflexivity|reflexivity|reflexivity|reflexivity
    |reflexivity|reflexivity|discriminate|reflexivity|discriminate
    |intros _ D; discriminate D|].
  destruct A as (c' & E & _ & V & _);
    [simpl; lia|vm_compute; discriminate|reflexivity|].
  exists c'; split; [exact E|exact V].
Defined.

Lemma cursor_stays_in_line_witness :
  in_buffer
    (run (demoHost no_files) [OpGetToken; OpGetLine; OpGetToken]
       (start_line (chars "A < 1") (demo_context no_files []))).
Proof.
  apply (cursor_stays_in_line (demoHost no_files)
           (start_line (chars "A < 1") (demo_context no_files []))).
  unfold in_buffer; simpl; lia.
Defined.

(** ** Every token takes its characters *)

Section Progress.

Variable H : Host.

Lemma post_and {A} (m : M H A) (c : ParseContext H)
    (Q1 Q2 : A -> ParseContext H -> Prop) (E1 E2 : ParseContext H -> Prop) :
  post m c Q1 E1 -> post m c Q2 E2 ->
  post m c (fun a c' => Q1 a c' /\ Q2 a c') (fun c' => E1 c' /\ E2 c').
Proof. unfold post; destruct (m c); auto. Qed.

Lemma post_bind_eq {A B} (m : M H A) (k : A -> M H B) (c c1 : ParseContext H)
    (a : A) (Q : B -> ParseContext H -> Prop) (E : ParseContext H -> Prop) :
  m c = OK a c1 -> post (k a) c1 Q E -> post (bind H m k) c Q E.
Proof. unfold post, bind; intros ->; exact (fun x => x). Qed.

Lemma line_ended_ahead (d : Z) (c c' : ParseContext H) :
  line_ended c -> ahead d c c' -> line_ended c'.
Proof. unfold line_ended, ahead; intros L (B & _); rewrite B; exact L. Qed.

Lemma peek_nonzero (c : ParseContext H) :
  in_buffer c -> line_ended c ->
  linePtr c < Z.of_nat (List.length (lineBuf c)) -> peek c <> 0.
Proof.
  unfold in_buffer, line_ended, peek; intros Hc (_ & Hz) Hlt.
  destruct (Z.ltb_spec (linePtr c) 0); [lia|].
  rewrite Forall_forall in Hz; apply Hz, nth_In; lia.
Qed.

Lemma not_last (c : ParseContext H) (ch : Z) :
  in_buffer c -> line_ended c -> last_read ch c -> ch <> NL ->
  linePtr c < Z.of_nat (List.length (lineBuf c)).
Proof.
  unfold in_buffer, line_ended, last_read, peek.
  intros Hc ((body & Eb) & _) (P1 & Ep) Hn.
  change (linePtr (seek (-1) c)) with (linePtr c + -1) in Ep.
  change (lineBuf (seek (-1) c)) with (lineBuf c) in Ep.
  destruct (Z.ltb_spec (linePtr c + -1) 0); [lia|].
  destruct (Z_lt_le_dec (linePtr c) (Z.of_nat (List.length (lineBuf c))));
    [assumption|exfalso; apply Hn; rewrite <- Ep].
  rewrite Eb in *; rewrite length_app in *; simpl List.length in *.
  replace (Z.to_nat (linePtr c + -1)) with (List.length body) by lia.
  rewrite app_nth2, Nat.sub_diag by lia; reflexivity.
Qed.

Lemma XGetC_consumes (c : ParseContext H) :
  in_buffer c -> line_ended c ->
  linePtr c < Z.of_nat (List.length (lineBuf c)) ->
  XGetC H c = OK (peek c) (seek 1 c).
Proof.
  intros Hc Hl Hlt; unfold XGetC.
  destruct (Z.eqb_spec (peek c) 0) as [E|N]; [|reflexivity].
  destruct (peek_nonzero c Hc Hl Hlt E).
Qed.

Lemma seek1_in_buffer (c : ParseContext H) :
  in_buffer c -> linePtr c < Z.of_nat (List.length (lineBuf c)) ->
  in_buffer (seek 1 c) /\ ahead 0 c (seek 1 c).
Proof.
  unfold in_buffer, ahead; simpl; intros Hc Hlt.
  split; [lia|split; [reflexivity|lia]].
Qed.

Lemma SkipComment_consumes (c : ParseContext H) :
  in_buffer c -> line_ended c ->
  linePtr c < Z.of_nat (List.length (lineBuf c)) ->
  post (SkipComment H) c
    (fun _ c' => ahead 0 c c' /\ linePtr c + 1 <= linePtr c')
    (fun _ => False).
Proof.
  intros Hc Hl Hlt; destruct (seek1_in_buffer c Hc Hlt) as (Hc1 & A1).
  apply post_with_fuel; unfold lineFuel; simpl SkipComment_loop.
  eapply post_bind_eq; [apply XGetC_consumes; assumption|].
  assert (R : ahead 0 c (seek 1 c) /\ linePtr c + 1 <= linePtr (seek 1 c))
    by (split; [exact A1|simpl; lia]).
  destruct (peek c =? EOF); [exact R|].
  try match goal with
      | |- post (if ?b then _ else _) _ _ _ => destruct b; [exact R|]
      end.
  eapply post_conseq; [apply SkipComment_loop_post, Hc1| |auto].
  intros b c' (A & _); split; [exact (ahead_00 H c (seek 1 c) c' A1 A)|].
  destruct A as (_ & A); simpl in A; lia.
Qed.

(** GetChar called before the end of the line reads one character at
    least. *)
Lemma GetChar_consumes (c : ParseContext H) :
  in_buffer c -> line_ended c ->
  linePtr c < Z.of_nat (List.length (lineBuf c)) ->
  post (GetChar H) c
    (fun ch c' => GetChar_Q c ch c' /\ linePtr c + 1 <= linePtr c')
    (fun _ => False).
Proof.
  intros Hc Hl Hlt.
  eapply post_conseq;
    [apply (post_and (GetChar H) c (GetChar_Q c)
              (fun _ c' => linePtr c + 1 <= linePtr c')
              (fun _ => False) (fun _ => False));
     [apply GetChar_post, Hc|]
    |intros ch c' Q; exact Q|intros c' (F & _); exact F].
  assert (Eq : GetChar H c
               = (if inComment c
                  then bind H (SkipComment H)
                         (fun closed : bool =>
                            if closed
                            then bind H (modify H (set_inComment false))
                                   (fun _ => with_fuel H (GetChar_loop H))
                            else ret H EOF)
                  else with_fuel H (GetChar_loop H)) c) by reflexivity.
  unfold post; rewrite Eq; clear Eq.
  destruct (seek1_in_buffer c Hc Hlt) as (Hc1 & A1).
  destruct (inComment c) eqn:Hi.
  - change (post (bind H (SkipComment H)
                    (fun closed : bool =>
                       if closed
                       then bind H (modify H (set_inComment false))
                              (fun _ => with_fuel H (GetChar_loop H))
                       else ret H EOF)) c
              (fun _ c' => linePtr c + 1 <= linePtr c') (fun _ => False)).
    eapply post_bind; [apply SkipComment_consumes; assumption|].
    intros closed c1 (A & P).
    destruct closed; [|exact P].
    change (post (GetChar_loop H (lineFuel c1)) (set_inComment false c1)
              (fun _ c' => linePtr c + 1 <= linePtr c') (fun _ => False)).
    eapply post_conseq;
      [apply (GetChar_loop_post H (lineFuel c1) (set_inComment false c1));
       apply (ahead_in_buffer H c c1 Hc A)| |auto].
    intros ch c' ((_ & A') & _); simpl in A'; lia.
  - change (post (GetChar_loop H (lineFuel c)) c
              (fun _ c' => linePtr c + 1 <= linePtr c') (fun _ => False)).
    unfold lineFuel; simpl GetChar_loop.
    eapply post_bind_eq; [apply XGetC_consumes; assumption|].
    destruct (peek c =? EOF); [unfold post, ret; simpl; lia|].
    destruct (Z.eqb_spec (peek c) SLASH) as [Es|_];
      [|unfold post, ret; simpl; lia].
    assert (Hlt1 : linePtr (seek 1 c)
                   < Z.of_nat (List.length (lineBuf (seek 1 c)))).
    { apply (not_last (seek 1 c) SLASH Hc1);
        [exact (line_ended_ahead 0 c _ Hl A1)| |discriminate].
      rewrite <- Es; apply last_read_seek1, Hc. }
    destruct (seek1_in_buffer (seek 1 c) Hc1 Hlt1) as (Hc2 & A2).
    eapply post_bind_eq;
      [apply XGetC_consumes;
       [exact Hc1|exact (line_ended_ahead 0 c _ Hl A1)|exact Hlt1]|].
    set (c2 := seek 1 (seek 1 c)) in *.
    assert (P2 : linePtr c + 2 <= linePtr c2) by (simpl; lia).
    destruct (peek (seek 1 c) =? SLASH).
    { eapply post_bind; [apply post_with_fuel, skip_to_eol_post, Hc2|].
      intros u c3 (A3 & _).
      eapply post_conseq;
        [apply GetChar_loop_post, (ahead_in_buffer H c2 c3 Hc2 A3)| |auto].
      intros ch c' ((_ & A') & _); destruct A3 as (_ & A3); lia. }
    destruct (peek (seek 1 c) =? STAR).
    { eapply post_bind; [apply SkipComment_post, Hc2|].
      intros closed c3 (A3 & _); destruct closed.
      - eapply post_conseq;
          [apply GetChar_loop_post, (ahead_in_buffer H c2 c3 Hc2 A3)| |auto].
        intros ch c' ((_ & A') & _); destruct A3 as (_ & A3); lia.
      - unfold post, bind, modify, ret; simpl.
        destruct A3 as (_ & A3); lia. }
    unfold post, bind, UngetC, modify, ret; simpl; lia.
Qed.

Lemma rest_at_end (c : ParseContext H) :
  in_buffer c -> linePtr c = Z.of_nat (List.length (lineBuf c)) ->
  rest c = [].
Proof.
  unfold in_buffer, rest; intros Hc E.
  apply skipn_all2; lia.
Qed.

(** SkipSpaces takes the character it returns, a slash too. *)
Lemma SkipSpaces_consumes (c : ParseContext H) :
  in_buffer c -> line_ended c ->
  post (SkipSpaces H) c
    (fun ch c' => SkipSpaces_Q c ch c' /\
                  (ch <> EOF -> linePtr c + 1 <= linePtr c'))
    (fun _ => False).
Proof.
  intros Hc Hl.
  eapply post_conseq;
    [apply (post_and (SkipSpaces H) c (SkipSpaces_Q c)
              (fun ch c' => ch <> EOF -> linePtr c + 1 <= linePtr c')
              (fun _ => False) (fun _ => False));
     [apply SkipSpaces_post, Hc|]
    |intros ch c' Q; exact Q|intros c' (F & _); exact F].
  apply post_with_fuel; unfold lineFuel; simpl SkipSpaces_loop.
  destruct (Z_lt_le_dec (linePtr c) (Z.of_nat (List.length (lineBuf c))))
    as [Hlt|Hge].
  - eapply post_bind; [apply GetChar_consumes; assumption|].
    intros ch c1 ((A1 & _) & P1).
    destruct (ch =? EOF); [intros _; exact P1|].
    destruct (negb (isspace ch)); [intros _; exact P1|].
    eapply post_conseq;
      [apply SkipSpaces_loop_post, (ahead_in_buffer H c c1 Hc A1)| |auto].
    intros ch' c' ((_ & A') & _) _; lia.
  - assert (E : linePtr c = Z.of_nat (List.length (lineBuf c)))
      by (unfold in_buffer in Hc; lia).
    eapply post_bind_eq;
      [apply GetChar_at_end; [apply Hc|apply rest_at_end; assumption]|].
    change (EOF =? EOF) with true; cbv iota.
    intro N; destruct (N eq_refl).
Qed.

(** The collecting loops, started before the end of the line: the last
    character they read, which UngetC puts back, was taken from the
    line. *)
Lemma number_loop_consumes (digit : Z -> bool) :
  (forall ch, digit ch = true ->
              is_plain ch = true /\ ch <> SLASH /\ ch <> NL) ->
  forall (fuel : nat) (p : list Z) (c : ParseContext H),
    in_buffer c -> line_ended c ->
    linePtr c < Z.of_nat (List.length (lineBuf c)) ->
    post (number_loop H digit fuel p) c
      (fun _ c' => ahead 0 c c' /\ linePtr c + 1 <= linePtr c')
      (fun _ => False).
Proof.
  intros Hd fuel; induction fuel as [|k IH]; intros p c Hc Hl Hlt; [exact I|].
  simpl; eapply post_bind; [apply GetChar_consumes; assumption|].
  intros ch c1 ((A1 & _ & _ & L1) & P1).
  assert (Hc1 : in_buffer c1) by exact (ahead_in_buffer H c c1 Hc A1).
  assert (Hl1 : line_ended c1) by exact (line_ended_ahead 0 c c1 Hl A1).
  assert (Next : forall q, ch <> EOF -> ch <> SLASH -> ch <> NL ->
            post (number_loop H digit k q) c1
              (fun _ c' => ahead 0 c c' /\ linePtr c + 1 <= linePtr c')
              (fun _ => False)).
  { intros q N1 N2 N3; destruct (L1 N1 N2) as (_ & Lr).
    eapply post_conseq;
      [apply (IH q c1 Hc1 Hl1 (not_last c1 ch Hc1 Hl1 Lr N3))| |auto].
    intros u c' (A' & P'); split; [exact (ahead_00 H c c1 c' A1 A')|lia]. }
  destruct (Z.eqb_spec ch EOF) as [_|N1]; [split; assumption|].
  destruct (digit ch) eqn:Ed.
  { destruct (Hd ch Ed) as (_ & N2 & N3).
    eapply post_bind; [apply store_post|].
    intros p' c0 ->; apply Next; assumption. }
  destruct (Z.eqb_spec ch UNDERSCORE) as [->|_]; [|split; assumption].
  apply Next; discriminate.
Qed.

Lemma isdigit_not_NL (ch : Z) :
  isdigit ch = true -> is_plain ch = true /\ ch <> SLASH /\ ch <> NL.
Proof.
  intro E; destruct (isdigit_plain ch E) as (A & B).
  repeat split; try assumption.
  revert E; unfold isdigit, between, NL; lia.
Qed.

Lemma isxdigit_not_NL (ch : Z) :
  isxdigit ch = true -> is_plain ch = true /\ ch <> SLASH /\ ch <> NL.
Proof.
  intro E; destruct (isxdigit_plain ch E) as (A & B).
  repeat split; try assumption.
  revert E; unfold isxdigit, isdigit, between, NL; lia.
Qed.

Lemma isbdigit_not_NL (ch : Z) :
  (ch =? 48) || (ch =? 49) = true ->
  is_plain ch = true /\ ch <> SLASH /\ ch <> NL.
Proof.
  intro E; destruct (isbdigit_plain ch E) as (A & B).
  repeat split; try assumption.
  revert E; unfold NL; lia.
Qed.

Lemma unget_after (c c1 : ParseContext H) :
  ahead 0 c c1 -> linePtr c + 1 <= linePtr c1 ->
  ahead 0 c (set_linePtr (linePtr c1 - 1) c1).
Proof.
  unfold ahead; simpl; intros (B & P) P1; split; [exact B|lia].
Qed.

Lemma NumberToken_mono (ch : Z) (c : ParseContext H) :
  in_buffer c -> line_ended c ->
  linePtr c < Z.of_nat (List.length (lineBuf c)) ->
  post (NumberToken H ch) c (fun _ c' => ahead 0 c c') (fun _ => False).
Proof.
  intros Hc Hl Hlt; unfold NumberToken.
  eapply post_bind; [apply store_post|].
  intros p0 c0 ->.
  eapply post_bind;
    [apply post_with_fuel, number_loop_consumes;
     [exact isdigit_not_NL|assumption..]|].
  intros p c1 (A1 & P1); apply (unget_after c c1 A1 P1).
Qed.

Lemma HexNumberToken_mono (c : ParseContext H) :
  in_buffer c -> line_ended c ->
  linePtr c < Z.of_nat (List.length (lineBuf c)) ->
  post (HexNumberToken H) c (fun _ c' => ahead 0 c c') (fun _ => False).
Proof.
  intros Hc Hl Hlt; unfold HexNumberToken.
  eapply post_bind;
    [apply post_with_fuel, number_loop_consumes;
     [exact isxdigit_not_NL|assumption..]|].
  intros p c1 (A1 & P1); apply (unget_after c c1 A1 P1).
Qed.

Lemma BinaryNumberToken_mono (c : ParseContext H) :
  in_buffer c -> line_ended c ->
  linePtr c < Z.of_nat (List.length (lineBuf c)) ->
  post (BinaryNumberToken H) c (fun _ c' => ahead 0 c c') (fun _ => False).
Proof.
  intros Hc Hl Hlt; unfold BinaryNumberToken.
  eapply post_bind;
    [apply post_with_fuel, number_loop_consumes;
     [exact isbdigit_not_NL|assumption..]|].
  intros p c1 (A1 & P1); apply (unget_after c c1 A1 P1).
Qed.

Lemma IdentifierToken_loop_consumes (fuel : nat) :
  forall (p : list Z) (len : Z) (c : ParseContext H),
    in_buffer c -> line_ended c ->
    linePtr c < Z.of_nat (List.length (lineBuf c)) ->
    post (IdentifierToken_loop H fuel p len) c
      (fun _ c' => ahead 0 c c' /\ linePtr c + 1 <= linePtr c')
      (fun c' => ahead 0 c c').
Proof.
  induction fuel as [|k IH]; intros p len c Hc Hl Hlt; [exact I|].
  simpl; eapply post_bind;
    [eapply post_weaken; [apply GetChar_consumes; assumption|]|].
  { intros ch c1 Q; exact Q. }
  intros ch c1 ((A1 & _ & _ & L1) & P1).
  assert (Hc1 : in_buffer c1) by exact (ahead_in_buffer H c c1 Hc A1).
  assert (Hl1 : line_ended c1) by exact (line_ended_ahead 0 c c1 Hl A1).
  destruct (negb (ch =? EOF) && IdentifierCharP ch) eqn:Ei;
    [|split; assumption].
  destruct (len + 1 >? MAXTOKEN H); [exact A1|].
  destruct (ident_not_EOF_SLASH ch Ei) as (N1 & N2).
  destruct (L1 N1 N2) as (_ & Lr).
  assert (N3 : ch <> NL).
  { apply andb_true_iff in Ei; destruct Ei as (_ & Ei); revert Ei.
    unfold IdentifierCharP, isupper, islower, isdigit, between, UNDERSCORE, NL.
    lia. }
  eapply post_conseq;
    [apply (IH _ _ c1 Hc1 Hl1 (not_last c1 ch Hc1 Hl1 Lr N3))| |].
  - intros u c' (A' & P'); split; [exact (ahead_00 H c c1 c' A1 A')|lia].
  - intros c' A'; exact (ahead_00 H c c1 c' A1 A').
Qed.

Lemma IdentifierToken_mono (ch : Z) (c : ParseContext H) :
  in_buffer c -> line_ended c ->
  linePtr c < Z.of_nat (List.length (lineBuf c)) ->
  post (IdentifierToken H ch) c (fun _ c' => ahead 0 c c')
    (fun c' => ahead 0 c c').
Proof.
  intros Hc Hl Hlt; unfold IdentifierToken.
  eapply post_bind;
    [apply post_with_fuel, IdentifierToken_loop_consumes; assumption|].
  intros p c1 (A1 & P1); apply (unget_after c c1 A1 P1).
Qed.

Lemma NextToken_takes (c : ParseContext H) :
  in_buffer c -> line_ended c ->
  post (NextToken H) c
    (fun t c' => t <> T_EOL -> linePtr c + 1 <= linePtr c')
    (fun _ => True).
Proof.
  intros Hc Hl; unfold NextToken.
  eapply post_bind;
    [eapply post_weaken; [apply SkipSpaces_consumes; assumption|]|].
  { intros ch c0 Q; exact Q. }
  intros ch c0 ((A0 & I0 & L0) & P0).
  unfold post at 1, bind at 1, modify.
  set (c1 := set_tokenOffset (linePtr c0) c0).
  assert (A1 : ahead 0 c c1) by exact A0.
  assert (Hc1 : in_buffer c1) by exact (ahead_in_buffer H c c1 Hc A1).
  assert (Hl1 : line_ended c1) by exact (line_ended_ahead 0 c c1 Hl A1).
  fold (post ((fun ch0 : Z =>
                 if ch0 =? EOF then ret H T_EOL
                 else if ch0 =? DQUOTE then StringToken H
                 else if ch0 =? SQUOTE then CharToken H
                 else if ch0 =? LT then
                   bind H (GetChar H)
                     (fun ch1 =>
                        if ch1 =? EQ then ret H T_LE
                        else if ch1 =? GT then ret H T_NE
                        else if ch1 =? LT then ret H T_SHL
                        else bind H (UngetC H) (fun _ => ret H (T_CHAR LT)))
                 else if ch0 =? GT then
                   bind H (GetChar H)
                     (fun ch1 =>
                        if ch1 =? EQ then ret H T_GE
                        else if ch1 =? GT then ret H T_SHR
                        else bind H (UngetC H) (fun _ => ret H (T_CHAR GT)))
                 else if ch0 =? chr "0" then
                   bind H (GetChar H)
                     (fun ch1 =>
                        if (ch1 =? chr "x") || (ch1 =? chr "X")
                        then HexNumberToken H
                        else if (ch1 =? chr "b") || (ch1 =? chr "B")
                        then BinaryNumberToken H
                        else bind H (UngetC H)
                               (fun _ => NumberToken H (chr "0")))
                 else if isdigit ch0 then NumberToken H ch0
                 else if IdentifierCharP ch0 then
                   bind H (IdentifierToken H ch0) (fun tkn => merge_second H tkn)
                 else ret H (T_CHAR ch0)) ch) c1
          (fun t c' => t <> T_EOL -> linePtr c + 1 <= linePtr c')
          (fun _ => True)).
  cbv beta.
  destruct (Z.eqb_spec ch EOF) as [->|N1].
  { unfold post, ret; intro N; destruct (N eq_refl). }
  specialize (P0 N1).
  assert (P1 : linePtr c + 1 <= linePtr c1) by exact P0.
  (* a function that does not move the cursor back from [c1] *)
  assert (Via : forall (m : M H Token) (E : ParseContext H -> Prop),
            post m c1 (fun _ c' => ahead 0 c1 c') E ->
            post m c1 (fun t c' => t <> T_EOL -> linePtr c + 1 <= linePtr c')
              (fun _ => True)).
  { intros m E Hm; eapply post_conseq; [exact Hm| |auto].
    intros t c' (_ & A) _; lia. }
  (* the cursor is before the end when the first character is no newline *)
  assert (Before : ch <> SLASH -> ch <> NL ->
                   linePtr c1 < Z.of_nat (List.length (lineBuf c1))).
  { intros N2 N3; destruct (L0 N1 N2) as (_ & Lr).
    exact (not_last c1 ch Hc1 Hl1 Lr N3). }
  destruct (Z.eqb_spec ch DQUOTE) as [->|_];
    [eapply Via, StringToken_post, Hc1|].
  destruct (Z.eqb_spec ch SQUOTE) as [->|_];
    [eapply Via, CharToken_post, Hc1|].
  destruct (Z.eqb_spec ch LT) as [->|_].
  { eapply post_bind;
      [eapply post_weaken;
       [apply GetChar_consumes;
        [exact Hc1|exact Hl1|apply Before; discriminate]|]|].
    { intros x c2 Q; exact Q. }
    intros x c2 (_ & P2).
    repeat match goal with
      | |- post (if ?b then _ else _) _ _ _ => destruct b
      end; unfold post, bind, UngetC, modify, ret; simpl; intros _; lia. }
  destruct (Z.eqb_spec ch GT) as [->|_].
  { eapply post_bind;
      [eapply post_weaken;
       [apply GetChar_consumes;
        [exact Hc1|exact Hl1|apply Before; discriminate]|]|].
    { intros x c2 Q; exact Q. }
    intros x c2 (_ & P2).
    repeat match goal with
      | |- post (if ?b then _ else _) _ _ _ => destruct b
      end; unfold post, bind, UngetC, modify, ret; simpl; intros _; lia. }
  destruct (Z.eqb_spec ch (chr "0")) as [->|_].
  { eapply post_bind;
      [eapply post_weaken;
       [apply GetChar_consumes;
        [exact Hc1|exact Hl1|apply Before; discriminate]|]|].
    { intros x c2 Q; exact Q. }
    intros x c2 ((A2 & _ & _ & L2) & P2).
    assert (Hc2 : in_buffer c2) by exact (ahead_in_buffer H c1 c2 Hc1 A2).
    assert (Hl2 : line_ended c2) by exact (line_ended_ahead 0 c1 c2 Hl1 A2).
    assert (Letter : (x = chr "x" \/ x = chr "X" \/ x = chr "b" \/ x = chr "B") ->
                     linePtr c2 < Z.of_nat (List.length (lineBuf c2))).
    { intro Hx.
      assert (Nx : x <> EOF /\ x <> SLASH /\ x <> NL)
        by (destruct Hx as [-> |[-> |[-> | ->]]]; repeat split; discriminate).
      destruct Nx as (Nx1 & Nx2 & Nx3); destruct (L2 Nx1 Nx2) as (_ & Lr).
      exact (not_last c2 x Hc2 Hl2 Lr Nx3). }
    assert (Fwd : forall c' : ParseContext H, ahead 0 c2 c' ->
              linePtr c + 1 <= linePtr c').
    { intros c' (_ & A); destruct A2 as (_ & A2); lia. }
    destruct ((x =? chr "x") || (x =? chr "X")) eqn:Ex.
    { eapply post_conseq; [apply HexNumberToken_mono; try assumption| |auto].
      - apply Letter; apply orb_true_iff in Ex.
        destruct Ex as [Ex|Ex]; apply Z.eqb_eq in Ex; auto.
      - intros t c' A _; exact (Fwd c' A). }
    destruct ((x =? chr "b") || (x =? chr "B")) eqn:Eb.
    { eapply post_conseq; [apply BinaryNumberToken_mono; try assumption| |auto].
      - apply Letter; apply orb_true_iff in Eb.
        destruct Eb as [Eb|Eb]; apply Z.eqb_eq in Eb; auto.
      - intros t c' A _; exact (Fwd c' A). }
    set (c3 := set_linePtr (linePtr c2 - 1) c2).
    change (post (NumberToken H (chr "0")) c3
              (fun t c' => t <> T_EOL -> linePtr c + 1 <= linePtr c')
              (fun _ => True)).
    assert (B2 : lineBuf c2 = lineBuf c1) by apply A2.
    assert (Hc3 : in_buffer c3).
    { unfold in_buffer in *; simpl; lia. }
    eapply post_conseq;
      [apply (NumberToken_mono (chr "0") c3 Hc3 Hl2)| |auto].
    - unfold in_buffer in Hc2; simpl; lia.
    - intros t c' (_ & A) _; simpl in A; lia. }
  destruct (isdigit ch) eqn:Ed.
  { destruct (isdigit_not_NL ch Ed) as (_ & N2 & N3).
    eapply Via, NumberToken_mono; try assumption; apply Before; assumption. }
  destruct (IdentifierCharP ch) eqn:Ei.
  2:{ unfold post, ret; intros _; exact P1. }
  destruct (IdentifierCharP_plain ch Ei) as (_ & N2).
  assert (N3 : ch <> NL).
  { revert Ei.
    unfold IdentifierCharP, isupper, islower, isdigit, between, UNDERSCORE, NL.
    lia. }
  eapply post_bind.
  { eapply post_conseq;
      [apply (IdentifierToken_mono ch c1 Hc1 Hl1 (Before N2 N3))
      |intros t c2 A; exact A|intros; exact I]. }
  intros tkn c2 A2; cbv beta in A2.
  eapply post_conseq;
    [apply merge_second_post, (ahead_in_buffer H c1 c2 Hc1 A2)| |auto].
  intros t c' (_ & A) _; destruct A2 as (B2 & A2); rewrite B2 in A; lia.
Qed.

Lemma GetLine_true_buffer (c c' : ParseContext H) :
  GetLine H c = OK true c' ->
  exists raw, lineBuf c' = terminate_line (c_string raw) /\ linePtr c' = 0.
Proof.
  unfold GetLine; monad.
  destruct (GetLine_loop_exact H (currentFile c) c eq_refl)
    as (popped & remaining & c1 & _ & _ & _ & _ & _ & _ & _ & _ & _ & _
        & Hres).
  destruct remaining as [|f below]; [rewrite Hres; discriminate|].
  destruct Hres as (raw & f' & ck' & c2 & _ & E2 & R1 & R2 & _).
  rewrite E2; intro Heq; injection Heq as <-.
  exists raw; unfold bump_lineNumber; simpl; rewrite R2, R1.
  destruct f'; split; reflexivity.
Qed.

(** X22: every token takes its characters, so the scan of a line ends. A
    successful refill leaves the cursor at the start of a line buffer that
    holds no NUL and ends in a newline. On such a buffer every token that
    NextToken returns, other than the end-of-line token, moves the cursor
    forward by one character at least, and leaves the buffer as it is: a
    caller that asks for tokens until it sees the end of the line, or an
    error, stops after at most as many tokens as the line has
    characters. *)
Theorem NextToken_consumes :
  (forall c c' : ParseContext H,
     GetLine H c = OK true c' -> in_buffer c' /\ line_ended c') /\
  (forall (c c' : ParseContext H) (t : Token),
     in_buffer c -> line_ended c ->
     NextToken H c = OK t c' -> t <> T_EOL ->
     linePtr c < linePtr c' /\ in_buffer c' /\ line_ended c').
Proof.
  split.
  - intros c c' E; destruct (GetLine_true_buffer c c' E) as (raw & B & P).
    split; [unfold in_buffer; rewrite P; lia|].
    unfold line_ended; rewrite B.
    split; [apply terminate_line_ends|].
    destruct (terminate_line_cases (c_string raw))
      as [(body & Eb & Et)|(Hc & Et)]; rewrite Et;
      [apply c_string_no_NUL|].
    apply Forall_app; split; [apply c_string_no_NUL|].
    constructor; [discriminate|constructor].
  - intros c c' t Hc Hl E Ht.
    pose proof (NextToken_takes c Hc Hl) as P.
    pose proof (NextToken_post H c Hc) as A.
    unfold post in P, A; rewrite E in P, A.
    specialize (P Ht).
    split; [lia|].
    split; [exact (ahead_in_buffer H c c' Hc A)
           |exact (line_ended_ahead 0 c c' Hl A)].
Qed.

End Progress.

(** ** RewindInput and a failed allocation *)

Section Rewind.

Variable H : Host.

Lemma leak_grows (ops : list Op) :
  forall (c : ParseContext H) (name : string) (dropped : nat),
    (frees name (trace c) + frames name (currentFile c) + dropped
     <= opens name (trace c))%nat ->
    (closes name (trace c) <= frees name (trace c))%nat ->
    (frees name (trace (run H ops c))
     + frames name (currentFile (run H ops c)) + dropped
     <= opens name (trace (run H ops c)))%nat /\
    (closes name (trace (run H ops c))
     <= frees name (trace (run H ops c)))%nat.
Proof.
  induction ops as [|op ops IH]; intros c name dropped L C; [split; assumption|].
  simpl; apply IH;
    destruct (step_counts H c op name)
      as (k & e & p & d & E1 & E2 & E3 & E4 & _); lia.
Qed.

(** X23: RewindInput restarts the main source and nothing else. The stack
    is the main frame alone, at line number 0, on the rewound source, so
    the next refill gives the first line of the main source as line 1; the
    scanner's own state (line buffer, cursor, saved token, in-comment
    flag) and the included-files list are as before. The include frames
    that were on the stack are unlinked, neither closed nor freed, and
    stay so: whatever operations follow, CloseParseContext among them, the
    frees of a file's frames stay below its opens by the number of its
    frames dropped. *)
Theorem RewindInput_restarts_main (c : ParseContext H) :
  handles_ok c ->
  exists c',
    RewindInput H c = OK tt c' /\
    currentFile c' = [MainFile] /\ mainLineNumber c' = 0 /\
    getLineCookie c' = main_rewind H (getLineCookie c) /\
    trace c' = EvRewind :: trace c /\
    same_scan c c' /\ includedFiles c' = includedFiles c /\
    currentInclude c' = currentInclude c /\
    (forall raw k,
       main_getLine H (main_rewind H (getLineCookie c)) = Some (raw, k) ->
       exists c'',
         GetLine H c' = OK true c'' /\
         lineBuf c'' = terminate_line (c_string raw) /\
         mainLineNumber c'' = 1 /\ currentFile c'' = [MainFile]) /\
    (forall ops name,
       (frees name (trace (run H ops c'))
        + frames name (currentFile (run H ops c'))
        + frames name (currentFile c)
        <= opens name (trace (run H ops c')))%nat /\
       (closes name (trace (run H ops c'))
        <= frees name (trace (run H ops c')))%nat).
Proof.
  intro Hok; eexists; split; [reflexivity|].
  cbn [currentFile mainLineNumber getLineCookie trace includedFiles
       currentInclude set_currentFile set_mainLineNumber set_getLineCookie
       log].
  repeat (split; [reflexivity|]).
  split; [repeat split|]. split; [reflexivity|]. split; [reflexivity|].
  split.
  - intros raw k Hg.
    match goal with |- context [GetLine H ?x] => set (c1 := x) end.
    destruct (GetLine_main H c1 raw k []) as (c'' & E & B & _ & _ & _ & F & _ & L);
      [reflexivity|exact Hg|].
    exists c''; repeat split; assumption.
  - intros ops name; apply leak_grows; destruct (Hok name) as (A & B).
    + unfold frees, opens, frames in *; simpl; lia.
    + unfold closes, frees in *; simpl; exact A.
Qed.

(** X24: a failed allocation in PushFile, for a file not yet included.
    When the first allocation fails the call ends with the error
    insufficient memory and nothing is recorded. When the second fails the
    call ends with the same error, but the file's name is already in the
    included-files list, with no frame pushed and no file opened: a second
    PushFile of that name reports success and reads nothing. *)
Theorem PushFile_insufficient_memory (c : ParseContext H) (name : string) :
  ~ In name (includedFiles c) ->
  (malloc_ok H (trace c) = false ->
   exists c',
     PushFile H name c = Error "insufficient memory" c' /\
     includedFiles c' = includedFiles c /\ currentFile c' = currentFile c /\
     opens name (trace c') = opens name (trace c)) /\
  (malloc_ok H (trace c) = true ->
   malloc_ok H (EvMalloc :: trace c) = false ->
   exists c',
     PushFile H name c = Error "insufficient memory" c' /\
     includedFiles c' = name :: includedFiles c /\
     currentFile c' = currentFile c /\
     opens name (trace c') = opens name (trace c) /\
     PushFile H name c' = OK true c').
Proof.
  intro Hnot.
  assert (Ex : existsb (String.eqb name) (includedFiles c) = false).
  { destruct (existsb (String.eqb name) (includedFiles c)) eqn:E;
      [|reflexivity].
    apply existsb_eqb_In in E; contradiction. }
  split.
  - intro M1; rewrite PushFile_cases, Ex, M1; simpl.
    eexists; split; [reflexivity|repeat split].
  - intros M1 M2; rewrite PushFile_cases, Ex, M1; simpl; rewrite M2; simpl.
    eexists; split; [reflexivity|]. repeat split.
    rewrite PushFile_cases; simpl; rewrite String.eqb_refl; reflexivity.
Qed.

End Rewind.

Lemma NextToken_consumes_witness :
  exists c',
    NextToken (demoHost no_files)
      (start_line (chars "A") (demo_context no_files []))
    = OK T_IDENTIFIER c' /\
    linePtr (start_line (chars "A") (demo_context no_files [])) < linePtr c'.
Proof.
  eexists; split; [vm_compute; reflexivity|].
  destruct (NextToken_consumes (demoHost no_files)) as (_ & A).
  apply (A (start_line (chars "A") (demo_context no_files [])) _ T_IDENTIFIER).
  - unfold in_buffer; simpl; lia.
  - split; [exists (chars "A"); reflexivity|].
    repeat constructor; discriminate.
  - vm_compute; reflexivity.
  - discriminate.
Defined.

Lemma RewindInput_restarts_main_witness :
  exists c',
    RewindInput (demoHost no_files) (demo_context no_files [chars "END"])
    = OK tt c' /\ currentFile c' = [MainFile].
Proof.
  destruct (RewindInput_restarts_main (demoHost no_files)
              (demo_context no_files [chars "END"]))
    as (c' & E & F & _).
  - intro name; split; unfold closes, frees, opens, frames; simpl; lia.
  - exists c'; split; [exact E|exact F].
Defined.

Lemma PushFile_insufficient_memory_witness :
  exists c',
    PushFile lowMemHost "B" lowMem_context
    = Error "insufficient memory" c' /\
    PushFile lowMemHost "B" c' = OK true c'.
Proof.
  destruct (PushFile_insufficient_memory lowMemHost lowMem_context "B")
    as (_ & A); [simpl; tauto|].
  destruct (A eq_refl eq_refl) as (c' & E & _ & _ & _ & E2).
  exists c'; split; [exact E|exact E2].
Defined.

Lemma GetToken_outcomes_witness :
  GetToken (demoHost no_files)
    (start_line (repeat (chr "0") 40 ++ chars "1")
       (demo_context no_files []))
  = Overrun /\
  exists d c0,
    SkipSpaces (demoHost no_files)
      (start_line (repeat (chr "0") 40 ++ chars "1")
         (demo_context no_files []))
    = OK d c0 /\ isdigit d = true.
Proof.
  assert (E : GetToken (demoHost no_files)
                (start_line (repeat (chr "0") 40 ++ chars "1")
                   (demo_context no_files []))
              = Overrun) by (vm_compute; reflexivity).
  split; [exact E|].
  destruct (GetToken_outcomes (demoHost no_files)
              (start_line (repeat (chr "0") 40 ++ chars "1")
                 (demo_context no_files []))) as (_ & B & _).
  exact (proj2 (B E)).
Defined.
